(** * rueckenwind: routing, dispatch and static assets of [rw/www.py]

    A shallow embedding of the request-routing engine of rueckenwind
    ([src/rw/www.py]): the static asset objects and resolver, the route
    compiler, the dispatcher with its error escalation, and the
    preprocessor fan-in of [ExecuteHandler].  Python values are modelled by
    the data they carry, exceptions by an explicit [result] type, handler
    scratch dictionaries by [gmap string _]. *)

From Stdlib Require Import Ascii String List Arith Lia Bool Sorted Permutation.
From Stdlib Require Import OrderedTypeEx.
From stdpp Require Import base option list gmap strings.
From Equations Require Import Equations.

Set Warnings "-register-all".

(** ** Exceptions and fallible computations *)

(** The exceptions the modelled code raises.  [IOError] carries the message
    and the [filename] attribute (which [get_content] sets by hand). *)
Inductive exn : Type :=
  | IOError (msg : string) (filename : option string)
  | HTTPError (status_code : nat)
  | KeyError (key : string)
  | ValueError (msg : string)
  | TypeError (msg : string)
  | AttributeError (msg : string)
  | RuntimeError (msg : string)
  | CompileTimeConflict (pattern : string).

Inductive result (A : Type) : Type :=
  | Ok (a : A)
  | Raise (e : exn).
Arguments Ok {A} a.
Arguments Raise {A} e.

Global Instance result_ret : MRet result := fun A a => Ok a.
Global Instance result_bind : MBind result := fun A B k m =>
  match m with
  | Ok a => k a
  | Raise e => Raise e
  end.

(** Keeps the equation of a scrutinee in scope of the branches. *)
Definition inspect {A} (a : A) : {b : A | a = b} := exist _ a eq_refl.

(** ** Python string operations used by the source *)

Module Str.

Definition slash : ascii := "/"%char.

Definition is_slash (c : ascii) : bool := Ascii.eqb c slash.

Definition is_empty (s : string) : bool :=
  match s with EmptyString => true | String _ _ => false end.

(** [s.rstrip('/')] *)
Fixpoint rstrip_slash (s : string) : string :=
  match s with
  | EmptyString => EmptyString
  | String c s' =>
      let r := rstrip_slash s' in
      if is_slash c && is_empty r then EmptyString else String c r
  end.

(** [s.lstrip('/')] *)
Fixpoint lstrip_slash (s : string) : string :=
  match s with
  | EmptyString => EmptyString
  | String c s' => if is_slash c then lstrip_slash s' else s
  end.

(** [s.strip('/')] *)
Definition strip_slash (s : string) : string := rstrip_slash (lstrip_slash s).

(** [s.startswith(p)] *)
Definition startswith (s p : string) : bool := String.prefix p s.

(** [needle in s] *)
Fixpoint contains (needle s : string) : bool :=
  String.prefix needle s ||
  match s with
  | EmptyString => false
  | String _ s' => contains needle s'
  end.

(** [s[n:]] *)
Fixpoint drop (n : nat) (s : string) : string :=
  match n, s with
  | O, _ => s
  | S n', EmptyString => EmptyString
  | S n', String _ s' => drop n' s'
  end.

(** [s[:n]] *)
Definition take (n : nat) (s : string) : string := String.substring 0 n s.

(** [s.split(sep, 1)] for a one-character separator: [None] when the
    separator does not occur (Python then returns the one-element list
    [[s]]), otherwise the text before and after its first occurrence. *)
Fixpoint split1 (sep : ascii) (s : string) : option (string * string) :=
  match s with
  | EmptyString => None
  | String c s' =>
      if Ascii.eqb c sep then Some (EmptyString, s')
      else match split1 sep s' with
           | Some (a, b) => Some (String c a, b)
           | None => None
           end
  end.

(** A run of [k] slashes. *)
Fixpoint slashes (k : nat) : string :=
  match k with
  | O => EmptyString
  | S k' => String slash (slashes k')
  end.

(** [c.lower()] and [s.lower()] on ASCII text *)
Definition lower_char (c : ascii) : ascii :=
  let n := nat_of_ascii c in
  if (65 <=? n) && (n <=? 90) then ascii_of_nat (n + 32) else c.

Fixpoint lower (s : string) : string :=
  match s with
  | EmptyString => EmptyString
  | String c s' => String (lower_char c) (lower s')
  end.

(** [c.upper()] and [s.upper()] on ASCII text *)
Definition upper_char (c : ascii) : ascii :=
  let n := nat_of_ascii c in
  if (97 <=? n) && (n <=? 122) then ascii_of_nat (n - 32) else c.

Fixpoint upper (s : string) : string :=
  match s with
  | EmptyString => EmptyString
  | String c s' => String (upper_char c) (upper s')
  end.

(** [s.find(c)] for a one-character needle: the position of its first
    occurrence; [None] where Python returns -1. *)
Fixpoint find (c : ascii) (s : string) : option nat :=
  match s with
  | EmptyString => None
  | String d s' =>
      if Ascii.eqb d c then Some 0
      else match find c s' with
           | Some n => Some (S n)
           | None => None
           end
  end.

(** [s.endswith(suffix)] *)
Definition endswith (s suffix : string) : bool :=
  (String.length suffix <=? String.length s)
  && String.eqb (drop (String.length s - String.length suffix) s) suffix.

(** [s.replace(a, b)] for one-character [a] and [b] *)
Fixpoint replace (a b : ascii) (s : string) : string :=
  match s with
  | EmptyString => EmptyString
  | String c s' => String (if Ascii.eqb c a then b else c) (replace a b s')
  end.

(** [s.split(sep)] for a one-character separator *)
Fixpoint split (sep : ascii) (s : string) : list string :=
  match s with
  | EmptyString => [EmptyString]
  | String c s' =>
      if Ascii.eqb c sep then EmptyString :: split sep s'
      else match split sep s' with
           | p :: ps => String c p :: ps
           | [] => [String c EmptyString]
           end
  end.

End Str.

(** ** Static asset objects: [StaticObject] *)

Module StaticObject.

(** [StaticObject.__new__]: the unicode value of the object, i.e. the
    URL of the asset. *)
Definition __new__ (module fname : string) (md5sum : option string) : string :=
  let url := "/static/" +:+ module +:+ "/" +:+ fname in
  match md5sum with
  | Some h =>
      if negb (Str.is_empty h) then url +:+ "?v=" +:+ Str.take 5 h
      else url +:+ "?v=ERR"
  | None => url +:+ "?v=ERR"
  end.

(** The object with the attributes [__init__] stores. *)
Record t : Type := Make {
  url : string;
  module : string;
  fname : string;
  md5sum : option string
}.

Definition create (module fname : string) (md5sum : option string) : t :=
  {| url := __new__ module fname md5sum;
     module := module; fname := fname; md5sum := md5sum |}.

End StaticObject.

(** ** Static asset resolution: [StaticURL] *)

Module Static.

(** What [template.render()] does for a template found under
    [static/]: it yields text, or raises an [IOError] (a static file the
    template refers to is missing) whose [filename] attribute the caller
    reads. *)
Inductive template : Type :=
  | Rendered (text : string)
  | RenderIOError (filename : option string).

(** A handler type as the resolver sees it: its [_module_name], its
    [template_env] (which template names exist and what they render to)
    and its [_parents] in declaration order. *)
Inductive HandlerType : Type :=
  Handler (_module_name : string)
          (template_env : string -> option template)
          (_parents : list HandlerType).

Definition _module_name (h : HandlerType) : string :=
  match h with Handler m _ _ => m end.
Definition template_env (h : HandlerType) : string -> option template :=
  match h with Handler _ t _ => t end.
Definition _parents (h : HandlerType) : list HandlerType :=
  match h with Handler _ _ ps => ps end.

Fixpoint size (h : HandlerType) : nat :=
  match h with
  | Handler _ _ ps => S (list_sum (map size ps))
  end.

Definition queue_size (q : list HandlerType) : nat := list_sum (map size q).

(** ['{2}'.format(e.filename)]: an absent attribute prints as [None]. *)
Definition format_filename (f : option string) : string :=
  match f with Some s => s | None => "None" end.

(** Result of [StaticURL.search]: content, or the handler's parent
    list. *)
Inductive search_data : Type :=
  | Content (s : string)
  | Parents (ps : list HandlerType).

(** Value of the variable [data] of [StaticURL.bfs]. *)
Inductive bfs_data : Type :=
  | BNone
  | BContent (s : string)
  | BParents (ps : list HandlerType).

(** Python truth value of [data]. *)
Definition truthy (d : bfs_data) : bool :=
  match d with
  | BNone => false
  | BContent s => negb (Str.is_empty s)
  | BParents ps => match ps with [] => false | _ :: _ => true end
  end.

(** The response a tornado handler builds: headers set and body
    written so far. *)
Record response : Type := Response {
  headers : list (string * string);
  body : string
}.

Definition empty_response : response := {| headers := []; body := "" |}.

Section Resolver.

(** [pkg_resources.resource_string(module, name)]: the packaged bytes,
    [None] standing for the [IOError] of a missing resource. *)
Variable resource_string : string -> string -> option string.

(** [rw.get_module(module).www.Main] *)
Variable get_module_main : string -> result HandlerType.

(** [md5(data).hexdigest()] *)
Variable md5_hexdigest : string -> string.

(** [mimetypes.guess_type(path)[0]] *)
Variable guess_type : string -> option string.

(** [StaticURL.get_content] of the resolver of handler [h]. *)
Fixpoint get_content (h : HandlerType) (fname : string) : result string :=
  match h with
  | Handler module tenv parents =>
      match resource_string module ("static/" +:+ fname) with
      | Some raw => Ok raw
      | None =>
          match tenv ("static/" +:+ fname) with
          | None =>
              (* we could not find the static file ourself,
                 lets go ask our parents *)
              (fix ask (ps : list HandlerType) : result string :=
                 match ps with
                 | [] =>
                     Raise (IOError ("File not found " +:+ module +:+ ":" +:+ fname)
                                    (Some fname))
                 | parent :: ps' =>
                     match get_content parent fname with
                     | Ok d => Ok d
                     | Raise _ => ask ps'
                     end
                 end) parents
          | Some (Rendered text) => Ok text
          | Some (RenderIOError filename) =>
              Raise (IOError ("Not found: " +:+ format_filename filename
                              +:+ ", referenced in " +:+ module +:+ ":" +:+ fname)
                             None)
          end
      end
  end.

(** The handlers whose own assets [get_content] consults, by module
    name, in the order of the consultation. *)
Fixpoint get_content_visits (h : HandlerType) (fname : string) : list string :=
  match h with
  | Handler module tenv parents =>
      module ::
      match resource_string module ("static/" +:+ fname) with
      | Some _ => []
      | None =>
          match tenv ("static/" +:+ fname) with
          | None =>
              (fix ask (ps : list HandlerType) : list string :=
                 match ps with
                 | [] => []
                 | parent :: ps' =>
                     get_content_visits parent fname ++
                     match get_content parent fname with
                     | Ok _ => []
                     | Raise _ => ask ps'
                     end
                 end) parents
          | Some _ => []
          end
      end
  end.

(** The handler has neither a packaged resource nor a template for
    the asset. *)
Definition lacks (h : HandlerType) (fname : string) : bool :=
  match resource_string (_module_name h) ("static/" +:+ fname),
        template_env h ("static/" +:+ fname) with
  | None, None => true
  | _, _ => false
  end.

(** What the handler provides by itself. *)
Definition own_content (h : HandlerType) (fname : string) : option string :=
  match resource_string (_module_name h) ("static/" +:+ fname) with
  | Some raw => Some raw
  | None =>
      match template_env h ("static/" +:+ fname) with
      | Some (Rendered text) => Some text
      | _ => None
      end
  end.

(** The resolution in the words of the specification (section 4.3): the
    handler's own resolver first, then a queue over the declared
    parents, each consulted in turn and contributing its own parents
    to the end of the queue when it fails too. *)
Equations? spec_bfs (fname : string) (queue : list HandlerType)
  : option string by wf (queue_size queue) lt :=
  spec_bfs fname [] := None;
  spec_bfs fname (next :: rest) with own_content next fname => {
    | Some d := Some d;
    | None := spec_bfs fname (rest ++ _parents next) }.
Proof.
  unfold queue_size. rewrite map_app, list_sum_app.
  destruct next; simpl. lia.
Qed.

Definition spec_resolve (h : HandlerType) (fname : string) : option string :=
  match own_content h fname with
  | Some d => Some d
  | None => spec_bfs fname (_parents h)
  end.

(** [StaticURL.search] *)
Definition search (h : HandlerType) (fname : string) : result search_data :=
  data ← get_content h fname;
  if negb (Str.is_empty data) then Ok (Content data)
  else Ok (Parents (_parents h)).

Lemma search_parents h fname ps :
  search h fname = Ok (Parents ps) -> ps = _parents h.
Proof.
  unfold search. destruct (get_content h fname) as [d|]; simpl; [|discriminate].
  destruct (negb (Str.is_empty d)); intros H; inversion H; reflexivity.
Qed.

(** The [while search:] loop of [StaticURL.bfs]; [queue] is the deque
    [search] and [data] the variable of that name. *)
Equations? bfs_loop (fname : string) (queue : list HandlerType) (data : bfs_data)
  : result bfs_data by wf (queue_size queue) lt :=
  bfs_loop fname [] data := Ok data;
  bfs_loop fname (next :: rest) data with inspect (search next fname) => {
    | exist _ (Raise e) _ := Raise e;
    | exist _ (Ok (Content s)) _ := Ok (BContent s);
    | exist _ (Ok (Parents ps)) Hsearch := bfs_loop fname (rest ++ ps) (BParents ps) }.
Proof.
  apply search_parents in Hsearch. subst ps.
  unfold queue_size. rewrite map_app, list_sum_app.
  destruct next; simpl. lia.
Qed.

(** [StaticURL.bfs] *)
Definition bfs (h : HandlerType) (fname : string) : result bfs_data :=
  bfs_loop fname (_parents h) BNone.

(** [StaticURL.__call__]: the [StaticObject] for asset [fname].  Text is
    modelled by its UTF-8 bytes, so [data.encode('utf-8')] changes
    nothing. *)
Definition __call__ (self : HandlerType) (fname : string) : result StaticObject.t :=
  '(module, fname, data) ←
    (if Str.contains ":" fname then
       match Str.split1 ":"%char fname with
       | Some (module, fname') =>
           main ← get_module_main module;
           data ← get_content main fname';
           Ok (module, fname', data)
       | None => Raise (ValueError "need more than 1 value to unpack")
       end
     else
       data ← get_content self fname;
       Ok (_module_name self, fname, data));
  data ← (if Str.is_empty data then bfs self fname else Ok (BContent data));
  md5sum ←
    (if truthy data then
       match data with
       | BContent s => Ok (Some (md5_hexdigest s))
       | _ => Raise (TypeError "must be string or buffer, not list")
       end
     else Ok None);
  Ok (StaticObject.create module fname md5sum).

(** How [__call__] reads the asset name: a name [module:fname'] is
    looked up on the [Main] handler of that module, any other name on
    the handler itself. *)
Inductive addressed (self : HandlerType) (fname : string)
  : string -> string -> HandlerType -> Prop :=
  | addressed_own :
      Str.contains ":" fname = false ->
      addressed self fname (_module_name self) fname self
  | addressed_module module fname' main :
      Str.contains ":" fname = true ->
      Str.split1 ":"%char fname = Some (module, fname') ->
      get_module_main module = Ok main ->
      addressed self fname module fname' main.

(** [StaticFileHandler.get] for the request path [path]: the response
    built so far and how the method ends. *)
Definition StaticFileHandler_get (static_url : HandlerType) (path : string)
  : response * result unit :=
  if Str.contains ".." path then (empty_response, Raise (HTTPError 403))
  else
    match get_content static_url path with
    | Raise e => (empty_response, Raise e)
    | Ok data =>
        let hdrs :=
          match guess_type path with
          | Some mime_type => [("Content-Type", mime_type)]
          | None => []
          end in
        match (if Str.is_empty data then bfs static_url path
               else Ok (BContent data)) with
        | Raise e => ({| headers := hdrs; body := "" |}, Raise e)
        | Ok (BContent s) =>
            if negb (Str.is_empty s)
            then ({| headers := hdrs; body := s |}, Ok tt)
            else ({| headers := hdrs; body := "" |}, Raise (HTTPError 404))
        | Ok (BParents (_ :: _)) =>
            ({| headers := hdrs; body := "" |},
             Raise (TypeError "write() only accepts bytes, unicode, and dict objects"))
        | Ok _ => ({| headers := hdrs; body := "" |}, Raise (HTTPError 404))
        end
    end.

End Resolver.

End Static.

(** ** The route compiler: [generate_routing] *)

Module Routing.

(** A class attribute as [_generate_routing] tells them apart: a [mount]
    instance, a value carrying [_rw_route] (with or without
    [_rw_route_type]), or anything else. *)
Inductive member (H : Type) : Type :=
  | Mount (_rw_route : string) (_rw_mod : H)
  | Routed (_rw_route : string) (_rw_route_type : option string)
  | Plain.
Arguments Mount {H} _rw_route _rw_mod.
Arguments Routed {H} _rw_route _rw_route_type.
Arguments Plain {H}.

(** A handler class: its name, whether it is a subclass of
    [RequestHandler] (a page handler, as opposed to a [RequestSubHandler]),
    and [inspect.getmembers(handler)], the (name, value) pairs of its
    attributes in the order [getmembers] yields them. *)
Inductive HandlerType : Type :=
  Class (__name__ : string) (is_RequestHandler : bool)
        (getmembers : list (string * member HandlerType)).

Definition __name__ (h : HandlerType) : string :=
  match h with Class n _ _ => n end.
Definition getmembers (h : HandlerType) : list (string * member HandlerType) :=
  match h with Class _ _ ms => ms end.

(** [Rule(route, handler, key)] *)
Record Rule : Type := mkRule {
  path : string;
  handler : HandlerType;
  func_name : string
}.

(** Modelled from the spec: the comparison of two [Rule] objects, which
    [ret.sort(reverse=True)] calls; class [Rule] lives in [rw/routing.py],
    which is not among the sources.  Rules are ordered by the
    lexicographic order of the full pattern string, and two rules of one
    verb with identical patterns are a configuration error that aborts
    the compilation (the comparison is the one place of the compilation
    where two rules of the same verb meet). *)
Definition Rule_cmp (a b : Rule) : result comparison :=
  if String.eqb (path a) (path b) then Raise (CompileTimeConflict (path a))
  else Ok (String.compare (path a) (path b)).

(** [list.sort(reverse=True)] over [Rule_cmp]: a stable insertion sort
    into descending order, in which an exception of the comparison
    escapes.  (Every comparison sort compares two rules of equal pattern
    with each other when the list holds such a pair, and none otherwise,
    so the exception escapes for the same lists whatever the algorithm;
    without such a pair the descending order is unique.) *)
Fixpoint insert_reverse (r : Rule) (l : list Rule) : result (list Rule) :=
  match l with
  | [] => Ok [r]
  | x :: l' =>
      c ← Rule_cmp r x;
      match c with
      | Gt => Ok (r :: x :: l')
      | _ => l'' ← insert_reverse r l'; Ok (x :: l'')
      end
  end.

Fixpoint sort_reverse (l : list Rule) : result (list Rule) :=
  match l with
  | [] => Ok []
  | r :: l' => s ← sort_reverse l'; insert_reverse r s
  end.

(** generate route and normalize ending slashes *)
Definition normalize (route : string) : string :=
  let route := Str.rstrip_slash route in
  if Str.is_empty route then "/" else route.

(** The [for key, value in inspect.getmembers(handler)] loop of
    [_generate_routing]; [rec] is the recursive call for a mounted
    handler and [ret] the list built so far. *)
Fixpoint members_loop (rec : HandlerType -> string -> result (list Rule))
    (handler : HandlerType) (req_type prefix : string)
    (ms : list (string * member HandlerType)) (ret : list Rule)
    : result (list Rule) :=
  match ms with
  | [] => Ok ret
  | (key, value) :: ms' =>
      match value with
      | Mount _rw_route _rw_mod =>
          let route := prefix +:+ _rw_route in
          sub ← rec _rw_mod route;
          members_loop rec handler req_type prefix ms' (ret ++ sub)
      | Routed _rw_route _rw_route_type =>
          match _rw_route_type with
          | Some t =>
              if String.eqb t req_type then
                let route := normalize (prefix +:+ _rw_route) in
                let route_rule := mkRule route handler key in
                members_loop rec handler req_type prefix ms' (ret ++ [route_rule])
              else members_loop rec handler req_type prefix ms' ret
          | None => members_loop rec handler req_type prefix ms' ret
          end
      | Plain => members_loop rec handler req_type prefix ms' ret
      end
  end.

(** [_generate_routing(root, handler, parent, main_handler, req_type,
    prefix)].  The arguments [root], [parent] and [main_handler] only
    feed the attributes the function stores on the handler class
    ([template_env], [translations], [_static], [template_subglobals],
    [_rw_routes]); the returned list does not depend on them. *)
Fixpoint _generate_routing (handler : HandlerType) (req_type prefix : string)
    {struct handler} : result (list Rule) :=
  match handler with
  | Class _ _ ms =>
      ret ← members_loop (fun m p => _generate_routing m req_type p)
              handler req_type prefix ms [];
      sort_reverse ret
  end.

Definition req_types : list string := ["get"; "post"; "put"; "delete"].

(** [generate_routing(root)]: the routing table, a dict from request
    type to rule list. *)
Definition generate_routing (root : HandlerType) : result (gmap string (list Rule)) :=
  foldl (fun acc req_type =>
           ret ← acc;
           l ← _generate_routing root req_type "";
           Ok (<[req_type := l]> ret))
        (Ok ∅) req_types.

(** *** The route table in the words of the specification *)

(** Section 4.1: every method with a route annotation for the verb gives
    a route whose pattern is [prefix + local-path], normalized; every
    mount entry is visited with the extended prefix. *)
Fixpoint spec_members (rec : HandlerType -> string -> list Rule)
    (handler : HandlerType) (req_type prefix : string)
    (ms : list (string * member HandlerType)) : list Rule :=
  match ms with
  | [] => []
  | (key, Mount q m) :: ms' =>
      rec m (prefix +:+ q) ++ spec_members rec handler req_type prefix ms'
  | (key, Routed local (Some t)) :: ms' =>
      if String.eqb t req_type
      then mkRule (normalize (prefix +:+ local)) handler key
             :: spec_members rec handler req_type prefix ms'
      else spec_members rec handler req_type prefix ms'
  | _ :: ms' => spec_members rec handler req_type prefix ms'
  end.

Fixpoint spec_routes (handler : HandlerType) (req_type prefix : string)
    {struct handler} : list Rule :=
  match handler with
  | Class _ _ ms =>
      spec_members (fun m p => spec_routes m req_type p) handler req_type prefix ms
  end.

(** [mounted_under root qs h]: handler [h] is reached from [root] through
    mounts whose path fragments are [qs], from the root down. *)
Inductive mounted_under : HandlerType -> list string -> HandlerType -> Prop :=
  | mounted_here h : mounted_under h [] h
  | mounted_below h key q m qs h' :
      In (key, Mount q m) (getmembers h) ->
      mounted_under m qs h' ->
      mounted_under h (q :: qs) h'.

(** The concatenation of the mount fragments. *)
Definition concat_fragments (qs : list string) : string :=
  foldr String.append "" qs.

(** Number of classes in the mount tree. *)
Fixpoint size (h : HandlerType) : nat :=
  match h with
  | Class _ _ ms =>
      S (list_sum (map (fun km : string * member HandlerType =>
                          match km with
                          | (_, Mount _ m) => size m
                          | _ => 0
                          end) ms))
  end.

(** [a] stands before [b] in a descending list: the pattern of [a] is
    strictly greater. *)
Definition pattern_gt (a b : Rule) : Prop := String_as_OT.lt (path b) (path a).

(** The pattern of [a] is greater than or equal to that of [b]. *)
Definition pattern_ge (a b : Rule) : Prop := String.leb (path b) (path a) = true.

(** What a compilation result has to be for the list [spec] of routes the
    handler tree describes: the sorted rearrangement of [spec] when no
    pattern occurs twice, a compile-time conflict otherwise. *)
Definition compiles_to (res : result (list Rule)) (spec : list Rule) : Prop :=
  match res with
  | Ok l =>
      NoDup (map path spec) /\ Permutation l spec /\ StronglySorted pattern_gt l
  | Raise e =>
      ~ NoDup (map path spec) /\ exists p, e = CompileTimeConflict p
  end.

End Routing.

(** ** The dispatcher: [Application.__call__] *)

Module Dispatch.

Import Routing.

(** The fields of the tornado request that the dispatcher reads and
    rewrites. *)
Record HTTPRequest : Type := Request {
  uri : string;
  path : string;
  method : string
}.

Definition set_path (request : HTTPRequest) (p : string) : HTTPRequest :=
  {| uri := uri request; path := p; method := method request |}.

(** A plugin of [rbusys.PLUGS['rw.www']._plugs]: its [name] and what
    [plug.handler(app, request)._handle_request()] answers. *)
Record plug : Type := Plug {
  name : string;
  _handle_request : HTTPRequest -> bool
}.

(** How one call of the application ends. *)
Inductive outcome (M : Type) : Type :=
  | Debugger
      (* rw.debug.WSGIHandler delegates and finishes *)
  | StaticFile (module : string) (request : HTTPRequest)
      (* main._static.static_handler(self, request)._execute([]) *)
  | PluginHandled (plugin : string) (request : HTTPRequest)
  | Matched (rule : Rule) (m : M) (request : HTTPRequest)
      (* the handler of the match is instantiated and executed *)
  | NotFound (request : HTTPRequest).
      (* self.base(self, request).send_error(404) *)
Arguments Debugger {M}.
Arguments StaticFile {M} module request.
Arguments PluginHandled {M} plugin request.
Arguments Matched {M} rule m request.
Arguments NotFound {M} request.

Section Application.

(** The value of a match: [(handler, func_name, arguments)]. *)
Variable M : Type.

(** [rw.DEBUG] *)
Variable DEBUG : bool.

(** The table [generate_routing(root_handler)] returned. *)
Variable routes : gmap string (list Rule).

(** [rule.match(request)] of [rw/routing.py], which is not among the
    sources: it decides from the rule and [request.path]; [None] is
    its false answer. *)
Variable rule_match : Rule -> string -> option M.

(** [urllib.unquote] *)
Variable unquote : string -> string.

(** [module in sys.modules] *)
Variable sys_modules : string -> bool.

(** Whether [rw.get_module(module, 'www', auto_load=False)] finds the
    module loaded; it raises [AttributeError] otherwise. *)
Variable www_loaded : string -> bool.

(** [rbusys.PLUGS['rw.www']._plugs] *)
Variable plugs : list plug.

(** The [for rule in routes[...]] loop: the first rule that matches. *)
Fixpoint first_match (rules : list Rule) (request : HTTPRequest)
  : option (Rule * M) :=
  match rules with
  | [] => None
  | rule :: rules' =>
      match rule_match rule (path request) with
      | Some m => Some (rule, m)
      | None => first_match rules' request
      end
  end.

(** The [for plug in ...] loop of the [/_p/] branch; the request path
    is rewritten as soon as a plugin of the right name is met. *)
Fixpoint plugin_loop (ps : list plug) (plugin rest : string)
    (request : HTTPRequest) : bool * HTTPRequest :=
  match ps with
  | [] => (false, request)
  | p :: ps' =>
      if String.eqb (name p) plugin then
        let request := set_path request ("/" +:+ rest) in
        if _handle_request p request then (true, request)
        else plugin_loop ps' plugin rest request
      else plugin_loop ps' plugin rest request
  end.

(** [Application.__call__(request)] *)
Definition Application_call (request : HTTPRequest) : result (outcome M) :=
  if DEBUG && Str.contains "__debugger__" (uri request) then Ok Debugger
  else if Str.startswith (path request) "/static/" then
    let path := Str.strip_slash (Str.drop 8 (path request)) in
    let path := unquote path in
    if Str.contains "/" path then
      match Str.split1 "/"%char path with
      | Some (module, path) =>
          let request := set_path request path in
          if sys_modules module then
            if www_loaded module then Ok (StaticFile module request)
            else Raise (AttributeError
                          (module +:+ ".www is not loaded and auto_load=False"))
          else Ok (NotFound request)
      | None => Raise (ValueError "need more than 1 value to unpack")
      end
    else Ok (NotFound request)
  else if Str.startswith (path request) "/_p/" then
    let path := Str.drop 4 (path request) in
    match Str.split1 "/"%char path with
    | Some (plugin, path) =>
        let '(found, request) := plugin_loop plugs plugin path request in
        if found then Ok (PluginHandled plugin request)
        else Ok (NotFound request)
    | None => Raise (ValueError "need more than 1 value to unpack")
    end
  else
    (* "normal" request *)
    let request := set_path request (Str.rstrip_slash (path request)) in
    let request :=
      if Str.is_empty (path request) then set_path request "/" else request in
    match routes !! Str.lower (method request) with
    | None => Raise (KeyError (Str.lower (method request)))
    | Some rules =>
        match first_match rules request with
        | Some (rule, m) => Ok (Matched rule m request)
        | None => Ok (NotFound request)
        end
    end.

(** The route match a call selected, if it selected one. *)
Definition selected (o : result (outcome M)) : option (Rule * M) :=
  match o with
  | Ok (Matched rule m _) => Some (rule, m)
  | _ => None
  end.

End Application.

End Dispatch.

(** ** Error escalation: [HandlerBase.on_error] *)

Module Escalation.

(** Handler classes are identified by name. *)
Abbreviation cls := string.

(** What a scratch entry of a handler instance holds: [None], a handler
    class, or some other object with its truth value. *)
Inductive value : Type :=
  | VNone
  | VClass (c : cls)
  | VOther (tag : string) (truth : bool).

(** A handler instance: its class and its dict content. *)
Record instance : Type := Instance {
  __class__ : cls;
  items : gmap string value
}.

(** What the terminating handler hands to tornado's
    [RequestHandler.send_error]. *)
Record rendered : Type := SendError {
  by_handler : instance;
  status_code : nat
}.

Definition truthy (v : value) : bool :=
  match v with
  | VNone => false
  | VClass _ => true
  | VOther _ b => b
  end.

(** [v is not c] for a class [c] *)
Definition is_not_class (v : value) (c : cls) : bool :=
  match v with
  | VClass q => negb (String.eqb q c)
  | _ => true
  end.

(** The loop [for key, value in self.items(): if key not in parent:
    parent[key] = value]. *)
Definition copy_missing (self parent : gmap string value) : gmap string value :=
  map_fold (fun key value parent =>
              match parent !! key with
              | None => <[key := value]> parent
              | Some _ => parent
              end) parent self.

Section OnError.

(** The class attribute [template_subglobals], as [_generate_routing]
    left it: it holds [main_handler], [parent_handler] (the handler
    class that mounts this one, [None] for the root) and
    [root_handler]. *)
Variable template_subglobals : cls -> gmap string value.

(** [HandlerBase.__init__]: the entries of a newly constructed
    instance of class [c]. *)
Definition __init__ (c : cls) : gmap string value :=
  template_subglobals c ∪
  <["_locale" := VOther "Locale" true]>
    (<["_translation" := VOther "Translations" true]>
       (<["handler" := VOther c true]> ∅)).

(** [c(self.application, self.request)] *)
Definition construct (c : cls) : instance :=
  {| __class__ := c; items := __init__ c |}.

(** [HandlerBase.on_error]; [depth] is the room left on the Python
    call stack, whose exhaustion raises [RuntimeError]. *)
Fixpoint on_error (depth : nat) (self : instance) (status_code : nat)
  : result rendered :=
  match depth with
  | O => Raise (RuntimeError "maximum recursion depth exceeded")
  | S depth' =>
      match items self !! "parent_handler" with
      | None => Raise (KeyError "parent_handler")
      | Some ph =>
          if truthy ph && is_not_class ph (__class__ self) then
            match ph with
            | VClass q =>
                let parent := construct q in
                let parent :=
                  {| __class__ := q;
                     items := copy_missing (items self) (items parent) |} in
                on_error depth' parent status_code
            | _ => Raise (TypeError "object is not callable")
            end
          else Ok {| by_handler := self; status_code := status_code |}
      end
  end.

(** A handler class ends the escalation when the [parent_handler] entry
    of its instances is absent from [template_subglobals] (the entry
    copied from the child then names the class itself), false, or the
    class itself. *)
Definition terminal (c : cls) : bool :=
  match __init__ c !! "parent_handler" with
  | None => true
  | Some ph => negb (truthy ph && is_not_class ph c)
  end.

(** [chain c n T]: the logical-parent chain of class [c] reaches the
    terminal class [T] after [n] steps. *)
Inductive chain : cls -> nat -> cls -> Prop :=
  | chain_end c : terminal c = true -> chain c 0 c
  | chain_step c q n T :
      __init__ c !! "parent_handler" = Some (VClass q) ->
      q <> c ->
      chain q n T ->
      chain c (S n) T.

End OnError.

End Escalation.

(** ** Preprocessors and the target method: [ExecuteHandler.__call__] *)

Module Execute.

(** The outcome a future is resolved with. *)
Inductive future_result : Type :=
  | Done
  | Failed (e : exn).

(** A [concurrent.Future] returned by a preprocessor: the entries its
    computation has stored on the handler by the time it resolves (the
    model stores them in the turn of the IO loop in which it resolves),
    and how it resolves. *)
Record Future : Type := mkFuture {
  sets : list (string * string);
  resolves : future_result
}.

(** What a preprocessor returned. *)
Inductive returned : Type :=
  | RNone
  | RFuture (f : Future)
  | ROther (tag : string).

(** A preprocessor of the plugin bus: the entries it stores on the
    handler while it is called, and its return value. *)
Record preprocessor : Type := Pre {
  stores : list (string * string);
  returns : returned
}.

(** [handler[key] = value] for each pair, in order. *)
Definition store_all (kvs : list (string * string)) (d : gmap string string)
  : gmap string string :=
  foldl (fun d kv => <[kv.1 := kv.2]> d) d kvs.

(** [rbus.rw.request_handling.pre_process(handler)]: every plugin is
    called in registration order; the list of their return values. *)
Fixpoint pre_process (chain : list preprocessor) (handler : gmap string string)
  : gmap string string * list returned :=
  match chain with
  | [] => (handler, [])
  | p :: chain' =>
      let handler := store_all (stores p) handler in
      let '(handler, rets) := pre_process chain' handler in
      (handler, returns p :: rets)
  end.

(** [[future for future in futures if isinstance(future,
    concurrent.Future)]] *)
Fixpoint only_futures (rets : list returned) : list Future :=
  match rets with
  | [] => []
  | RFuture f :: rets' => f :: only_futures rets'
  | _ :: rets' => only_futures rets'
  end.

(** The states of the coroutine [ExecuteHandler.__call__]: suspended at
    [yield futures] with the futures that are still pending (with their
    position in the yielded list) and the exception of the first failed
    one, or past it. *)
Inductive state : Type :=
  | Waiting (pending : list (nat * Future)) (failed : option (nat * exn))
            (handler : gmap string string)
  | Invoked (handler : gmap string string)
      (* the target method, getattr(self.handler, self.func_name), runs *)
  | Thrown (e : exn) (handler : gmap string string).
      (* the exception of a future is raised at the yield *)

Definition enumerate (fs : list Future) : list (nat * Future) :=
  imap (fun i f => (i, f)) fs.

(** The failure [yield futures] reports: that of the failed future that
    comes first in the yielded list. *)
Definition note_failure (i : nat) (f : Future) (failed : option (nat * exn))
  : option (nat * exn) :=
  match resolves f with
  | Done => failed
  | Failed e =>
      match failed with
      | Some (j, e') => if (j <? i)%nat then Some (j, e') else Some (i, e)
      | None => Some (i, e)
      end
  end.

(** [ExecuteHandler.__call__(futures)] up to its first suspension. *)
Definition __call__ (rets : list returned) (handler : gmap string string) : state :=
  match only_futures rets with
  | [] => Invoked handler
  | f :: fs => Waiting (enumerate (f :: fs)) None handler
  end.

(** What a turn of the IO loop does to the coroutine. *)
Inductive event : Type :=
  | Resolved (i : nat)   (* the future at position [i] resolves *)
  | Resumed              (* the coroutine resumes after [yield futures] *)
  | Raised.              (* the coroutine is resumed with an exception *)

(** One turn of the IO loop: some pending future resolves, or, when none
    is pending any more, the coroutine resumes. *)
Inductive step : state -> event -> state -> Prop :=
  | step_resolve pending1 i f pending2 failed handler :
      step (Waiting (pending1 ++ (i, f) :: pending2) failed handler)
           (Resolved i)
           (Waiting (pending1 ++ pending2) (note_failure i f failed)
                    (store_all (sets f) handler))
  | step_resume handler :
      step (Waiting [] None handler) Resumed (Invoked handler)
  | step_throw i e handler :
      step (Waiting [] (Some (i, e)) handler) Raised (Thrown e handler).

(** A run of the IO loop with the events in their order. *)
Inductive run : state -> list event -> state -> Prop :=
  | run_here s : run s [] s
  | run_step s e s' es s'' :
      step s e s' -> run s' es s'' -> run s (e :: es) s''.

(** The application's part: run the preprocessors, then execute. *)
Definition dispatch (chain : list preprocessor) (handler : gmap string string)
  : state :=
  let '(handler, rets) := pre_process chain handler in
  __call__ rets handler.

End Execute.

(** ** Concrete handler trees used as examples *)

Module Scenario.

Import Static.

Definition no_templates : string -> option template := fun _ => None.

(** Handler [A] with parents [[B; C]]; [C] has the parent [D], the only
    handler whose package holds [logo.png]. *)
Definition D : HandlerType := Handler "d" no_templates [].
Definition C : HandlerType := Handler "c" no_templates [D].
Definition B : HandlerType := Handler "b" no_templates [].
Definition A : HandlerType := Handler "a" no_templates [B; C].

Definition only_d_has_logo (module name : string) : option string :=
  if String.eqb module "d" && String.eqb name "static/logo.png"
  then Some "PNG-of-d" else None.

(** Handler [A'] with parents [[B'; C']]: the parent [E] of [B'] and
    [C'] itself both hold [logo.png]. *)
Definition E : HandlerType := Handler "e" no_templates [].
Definition B' : HandlerType := Handler "b" no_templates [E].
Definition C' : HandlerType := Handler "c" no_templates [].
Definition A' : HandlerType := Handler "a" no_templates [B'; C'].

Definition c_and_e_have_logo (module name : string) : option string :=
  if String.eqb name "static/logo.png" then
    if String.eqb module "c" then Some "PNG-of-c"
    else if String.eqb module "e" then Some "PNG-of-e"
    else None
  else None.

(** A handler without parents whose package holds the empty file
    [empty.css] and nothing else. *)
Definition shop : HandlerType := Handler "shop" no_templates [].

Definition only_empty_css (module name : string) : option string :=
  if String.eqb module "shop" && String.eqb name "static/empty.css"
  then Some "" else None.

Definition no_modules (module : string) : result HandlerType :=
  Raise (AttributeError "no such module").

(** A stand-in for [md5(data).hexdigest()]. *)
Definition fixed_digest (data : string) : string := "abcdef1234".

(** A stand-in for the digest that shows which content was hashed. *)
Definition content_as_digest (data : string) : string := data.

(** A root handler with one method, [index], routed at [/static]. *)
Definition static_page : Routing.HandlerType :=
  Routing.Class "Main" true [("index", Routing.Routed "/static" (Some "get"))].

Definition static_rule : Routing.Rule := Routing.mkRule "/static" static_page "index".

Definition static_routes : gmap string (list Routing.Rule) :=
  <["delete" := []]> (<["put" := []]> (<["post" := []]>
    (<["get" := [static_rule]]> ∅))).

(** A matcher for patterns without variables: the pattern matches the
    path it is equal to. *)
Definition literal_match (rule : Routing.Rule) (path : string) : option unit :=
  if String.eqb (Routing.path rule) path then Some tt else None.

Definition no_module (module : string) : bool := false.

(** A table whose GET list holds a rule for [/shop/cart]. *)
Definition cart_page : Routing.HandlerType :=
  Routing.Class "Cart" true [("view", Routing.Routed "/shop/cart" (Some "get"))].

Definition cart_rule : Routing.Rule := Routing.mkRule "/shop/cart" cart_page "view".

Definition cart_routes : gmap string (list Routing.Rule) :=
  <["delete" := []]> (<["put" := []]> (<["post" := []]>
    (<["get" := [cart_rule]]> ∅))).

(** The root handler mounts [Y] at [/shop/cart] and [X] at [/shop]. *)
Definition X : Routing.HandlerType :=
  Routing.Class "X" false [("item", Routing.Routed "/<item>" (Some "get"))].

Definition Y : Routing.HandlerType :=
  Routing.Class "Y" false [("view", Routing.Routed "/view" (Some "get"))].

Definition shop_root : Routing.HandlerType :=
  Routing.Class "Main" true
    [("cart", Routing.Mount "/shop/cart" Y);
     ("index", Routing.Routed "/" (Some "get"));
     ("shop", Routing.Mount "/shop" X)].

Definition shop_get_routes : list Routing.Rule :=
  [Routing.mkRule "/shop/cart/view" Y "view";
   Routing.mkRule "/shop/<item>" X "item";
   Routing.mkRule "/" shop_root "index"].

Definition shop_table : gmap string (list Routing.Rule) :=
  <["delete" := []]> (<["put" := []]> (<["post" := []]>
    (<["get" := shop_get_routes]> ∅))).

(** Two methods whose patterns, [/x] and [/x/], normalize to the same
    one. *)
Definition twice_x : Routing.HandlerType :=
  Routing.Class "Main" true
    [("a", Routing.Routed "/x" (Some "get"));
     ("b", Routing.Routed "/x/" (Some "get"))].

(** [template_subglobals] of a tree in which [Main] mounts [Shop] and
    [Shop] mounts [Cart]. *)
Definition subglobals (main parent : Escalation.value)
  : gmap string Escalation.value :=
  <["root_handler" := Escalation.VClass "Main"]>
    (<["parent_handler" := parent]> (<["main_handler" := main]> ∅)).

Definition shop_subglobals (c : string) : gmap string Escalation.value :=
  if String.eqb c "Cart"
  then subglobals (Escalation.VClass "Shop") (Escalation.VClass "Shop")
  else if String.eqb c "Shop"
  then subglobals (Escalation.VClass "Shop") (Escalation.VClass "Main")
  else subglobals (Escalation.VClass "Main") Escalation.VNone.

(** An instance of [Cart] on which a preprocessor has stored [user]. *)
Definition cart_instance : Escalation.instance :=
  {| Escalation.__class__ := "Cart";
     Escalation.items :=
       <["user" := Escalation.VOther "alice" true]>
         (Escalation.__init__ shop_subglobals "Cart") |}.

(** Two preprocessors: the first stores [email] while it is called, the
    second returns a future whose computation stores [user]; a third
    returns a future that stores [cart]. *)
Definition user_future : Execute.Future :=
  {| Execute.sets := [("user", "alice")]; Execute.resolves := Execute.Done |}.

Definition cart_future : Execute.Future :=
  {| Execute.sets := [("cart", "3 items")]; Execute.resolves := Execute.Done |}.

Definition preprocessors : list Execute.preprocessor :=
  [ {| Execute.stores := [("email", "alice@example.org")];
       Execute.returns := Execute.RNone |};
    {| Execute.stores := []; Execute.returns := Execute.RFuture user_future |};
    {| Execute.stores := []; Execute.returns := Execute.RFuture cart_future |} ].

End Scenario.

(** ** The order of the static resolution *)

Module StaticOrder.

Import Static.

(** The handler and its ancestors in depth-first order: the handler, then
    each parent with its own ancestors, in declaration order. *)
Fixpoint preorder (h : HandlerType) : list HandlerType :=
  match h with
  | Handler _ _ ps => h :: flat_map preorder ps
  end.

(** No template of the asset fails to render. *)
Definition renders (h : HandlerType) (fname : string) : bool :=
  match template_env h ("static/" +:+ fname) with
  | Some (RenderIOError _) => false
  | _ => true
  end.

Section Order.

Variable resource_string : string -> string -> option string.

(** The content of the first handler of the list that has the asset. *)
Fixpoint first_own (fname : string) (hs : list HandlerType) : option string :=
  match hs with
  | [] => None
  | h :: hs' =>
      match own_content resource_string h fname with
      | Some d => Some d
      | None => first_own fname hs'
      end
  end.

End Order.

End StaticOrder.

(** ** Finishing a response and sending an error: [HandlerBase.finish],
    [HandlerBase.send_error] *)

Module Lifecycle.

Import Escalation.

(** The keyword arguments of [send_error]: no [exc_info], or the
    [exc_info] of an [HTTPError] or of another exception. *)
Inductive exc_info : Type :=
  | NoExcInfo
  | ExcHTTPError
  | ExcOther.

(** A handler instance with the attributes [finish] and [send_error]
    use: the dict, [_finished], [template], and the chunks written to
    the response so far. *)
Record handler : Type := Handler {
  self : instance;
  _finished : bool;
  template : option string;
  written : list string
}.

(** Truth value of an optional string: [None] and the empty string are
    false. *)
Definition given (o : option string) : bool :=
  match o with
  | Some s => negb (Str.is_empty s)
  | None => false
  end.

(** How [send_error] ends. *)
Inductive error_answer : Type :=
  | OnlyLogged
      (* ioloop.handle_callback_exception(None); return *)
  | ErrorPage (logged : bool) (r : result rendered)
      (* self.on_error(...), after handle_callback_exception when logged *)
  | DebugPage (h : result handler).
      (* handle_callback_exception, then
         self.finish(self.application.get_error_html(status_code)) *)

Section Lifecycle.

(** [rw.DEBUG] *)
Variable DEBUG : bool.

Variable template_subglobals : cls -> gmap string value.

(** [self.render_template(template)], which renders the template with
    the entries of the handler as context. *)
Variable render_template : string -> gmap string value -> string.

(** [self.application.get_error_html(status_code, ...)] *)
Variable get_error_html : nat -> string.

(** [HandlerBase.finish(chunk, template)].  tornado refuses to write to,
    or to finish, a handler that is finished already. *)
Definition finish (h : handler) (chunk template_arg : option string)
  : result handler :=
  let template := if given template_arg then template_arg else template h in
  if _finished h then Raise (RuntimeError "finish() called twice")
  else
    let written :=
      match template with
      | Some t =>
          if given template && negb (given chunk)
          then written h ++ [render_template t (items (self h))]
          else written h
      | None => written h
      end in
    (* super(HandlerBase, self).finish(chunk) *)
    let written :=
      match chunk with
      | Some c => written ++ [c]
      | None => written
      end in
    (* if not rw.DEBUG: dict.clear(self) *)
    let entries := if DEBUG then items (self h) else ∅ in
    Ok {| self := {| __class__ := __class__ (self h); items := entries |};
          _finished := true;
          template := template;
          written := written |}.

(** [HandlerBase.send_error(status_code, **kwargs)] *)
Definition send_error (depth : nat) (h : handler) (status_code : nat)
    (exc : exc_info) : error_answer :=
  if _finished h then OnlyLogged
  else
    match exc with
    | ExcHTTPError =>
        ErrorPage false (on_error template_subglobals depth (self h) status_code)
    | ExcOther =>
        if DEBUG
        then DebugPage (finish h (Some (get_error_html status_code)) None)
        else ErrorPage true (on_error template_subglobals depth (self h) 500)
    | NoExcInfo =>
        ErrorPage false (on_error template_subglobals depth (self h) status_code)
    end.

(** [via c qs T]: the logical-parent chain of class [c] passes through
    the classes [qs] and ends with the last of them, [T] (or with [c]
    itself when [qs] is empty). *)
Inductive via : cls -> list cls -> cls -> Prop :=
  | via_end c : terminal template_subglobals c = true -> via c [] c
  | via_step c q qs T :
      __init__ template_subglobals c !! "parent_handler" = Some (VClass q) ->
      q <> c ->
      via q qs T ->
      via c (q :: qs) T.

(** The entries an instance gathers on the way through the classes
    [qs]: those of each newly constructed instance, completed by what
    was gathered before. *)
Definition gathered (entries : gmap string value) (qs : list cls)
  : gmap string value :=
  foldl (fun acc q => __init__ template_subglobals q ∪ acc) entries qs.

(** [looping P]: every class of [P] names as its parent another class of
    [P]. *)
Definition looping (P : cls -> Prop) : Prop :=
  forall c, P c ->
    exists q,
      __init__ template_subglobals c !! "parent_handler" = Some (VClass q)
      /\ q <> c /\ P q.

End Lifecycle.

End Lifecycle.

(** ** Translations and the choice of the language:
    [RequestHandlerMeta.__new__], [HandlerBase.get_closest] *)

Module I18n.

Section I18n.

(** The type of [Translations] objects. *)
Variable T : Type.

(** [Translations.load(module_path + '/locale', [Locale.parse(lang)])];
    [Locale.parse] raises for a name that is no locale. *)
Variable load : string -> result T.

(** [lang.split('_')[0]] *)
Definition short (lang : string) : string := hd lang (Str.split "_" lang).

(** The loop of [RequestHandlerMeta.__new__] over the entries of the
    [locale] directory: each language is stored under its name and under
    the part of its name before the first underscore. *)
Fixpoint load_translations (languages : list string)
    (translations : gmap string T) : result (gmap string T) :=
  match languages with
  | [] => Ok translations
  | lang :: languages' =>
      t ← load lang;
      load_translations languages'
        (<[short lang := t]> (<[lang := t]> translations))
  end.

(** [ret.translations], for the listing of the [locale] directory ([[]]
    when there is none) *)
Definition translations_of (languages : list string) : result (gmap string T) :=
  load_translations languages ∅.

(** [key in self.translations] *)
Definition has (translations : gmap string T) (key : string) : bool :=
  match translations !! key with
  | Some _ => true
  | None => false
  end.

(** [self.translations] and [self.language] *)
Variable translations : gmap string T.
Variable language : string.

(** [HandlerBase.get_closest], called with the list [locale_codes] *)
Fixpoint get_closest (locale_codes : list string) : string :=
  match locale_codes with
  | [] => language
  | code :: rest =>
      if Str.is_empty code then get_closest rest
      else
        let code :=
          match Str.find ";" code with
          | Some (S q) => Str.take (S q) code
          | _ => code
          end in
        let code := Str.replace "-" "_" code in
        match Str.split "_" code with
        | [p0; p1] =>
            let p0 := Str.lower p0 in
            let p1 := Str.upper p1 in
            let code := p0 +:+ "_" +:+ p1 in
            if has translations code then code
            else if has translations p0 then p0
            else get_closest rest
        | [p0] =>
            let code := Str.lower code in
            if has translations code then code
            else if has translations p0 then p0
            else get_closest rest
        | _ => get_closest rest
        end
  end.

End I18n.

(** [plain s]: no semicolon, hyphen or underscore occurs in [s]. *)
Definition plain (s : string) : Prop :=
  Str.find ";" s = None /\ Str.find "-" s = None /\ Str.find "_" s = None.

(** An [Accept-Language] header in its usual form: the codes separated
    by a comma and a blank. *)
Definition accept_language (code : string) (codes : list string) : string :=
  code +:+ foldr (fun c rest => ", " +:+ c +:+ rest) "" codes.

(** The part of [HandlerBase.__init__] that chooses the language: the
    new [self.language], the language the translation is looked up for,
    and the translation found ([None] for a fresh [Translations()]). *)
Definition choose_language {T : Type} (translations : gmap string T)
    (default_language accept_language : string)
  : string * string * option T :=
  let language :=
    if Str.is_empty accept_language then default_language
    else get_closest T translations default_language
           (Str.split "," accept_language) in
  let language' := get_closest T translations language [language] in
  (language, language', translations !! language').

End I18n.

(** ** The class attributes the compilation stores:
    [template_subglobals] in [_generate_routing] *)

Module Subglobals.

(** The [template_subglobals] entry of the [__dict__] of each class that
    has one of its own, by class name. *)
Abbreviation store := (gmap string (gmap string Escalation.value)).

Section Subglobals.

(** The method resolution order of a class, without the class itself. *)
Variable bases : string -> list string.

(** Attribute lookup along a method resolution order: the first class
    that has [template_subglobals] in its own [__dict__]. *)
Fixpoint holder (st : store) (mro : list string) : option string :=
  match mro with
  | [] => None
  | b :: mro' =>
      match st !! b with
      | Some _ => Some b
      | None => holder st mro'
      end
  end.

(** [c.template_subglobals]; [None] where Python raises
    [AttributeError]. *)
Definition template_subglobals (st : store) (c : string)
  : option (gmap string Escalation.value) :=
  b ← holder st (c :: bases c); st !! b.

(** [if not hasattr(handler, 'template_subglobals'):
    handler.template_subglobals = {}] and
    [handler.template_subglobals.update({...})]: the dict that is
    updated is the one attribute lookup finds, which may be that of a
    base class. *)
Definition record (root : string) (visit : string * Escalation.value * string)
    (st : store) : store :=
  let '(handler, parent, main_handler) := visit in
  let st :=
    match holder st (handler :: bases handler) with
    | Some _ => st
    | None => <[handler := ∅]> st
    end in
  match holder st (handler :: bases handler) with
  | Some b =>
      <[b := <["root_handler" := Escalation.VClass root]>
               (<["parent_handler" := parent]>
                  (<["main_handler" := Escalation.VClass main_handler]>
                     (default ∅ (st !! b))))]> st
  | None => st
  end.

(** The loop over the members, as [Routing.members_loop], with the
    store of class attributes passed along. *)
Fixpoint members_loop
    (rec : Routing.HandlerType -> string -> store ->
           store * result (list Routing.Rule))
    (handler : Routing.HandlerType) (req_type prefix : string)
    (ms : list (string * Routing.member Routing.HandlerType))
    (ret : list Routing.Rule) (st : store)
    : store * result (list Routing.Rule) :=
  match ms with
  | [] => (st, Ok ret)
  | (key, value) :: ms' =>
      match value with
      | Routing.Mount _rw_route _rw_mod =>
          let route := prefix +:+ _rw_route in
          match rec _rw_mod route st with
          | (st, Ok sub) =>
              members_loop rec handler req_type prefix ms' (ret ++ sub) st
          | (st, Raise e) => (st, Raise e)
          end
      | Routing.Routed _rw_route _rw_route_type =>
          match _rw_route_type with
          | Some t =>
              if String.eqb t req_type then
                let route := Routing.normalize (prefix +:+ _rw_route) in
                let route_rule := Routing.mkRule route handler key in
                members_loop rec handler req_type prefix ms' (ret ++ [route_rule]) st
              else members_loop rec handler req_type prefix ms' ret st
          | None => members_loop rec handler req_type prefix ms' ret st
          end
      | Routing.Plain => members_loop rec handler req_type prefix ms' ret st
      end
  end.

(** [_generate_routing(root, handler, parent, main_handler, req_type,
    prefix)] with its effect on the class attribute
    [template_subglobals]. *)
Fixpoint _generate_routing (root : string) (handler : Routing.HandlerType)
    (parent : Escalation.value) (main_handler : string)
    (req_type prefix : string) (st : store) {struct handler}
    : store * result (list Routing.Rule) :=
  match handler with
  | Routing.Class name is_RequestHandler ms =>
      let main_handler := if is_RequestHandler then name else main_handler in
      let st := record root (name, parent, main_handler) st in
      match members_loop
              (fun m p st =>
                 _generate_routing root m (Escalation.VClass name) main_handler
                   req_type p st)
              handler req_type prefix ms [] st with
      | (st, Ok ret) => (st, Routing.sort_reverse ret)
      | (st, Raise e) => (st, Raise e)
      end
  end.

(** [generate_routing(root)] with its effect on the class attributes. *)
Definition generate_routing (root : Routing.HandlerType) (st : store)
  : store * result (gmap string (list Routing.Rule)) :=
  foldl (fun acc req_type =>
           match acc with
           | (st, Ok ret) =>
               match _generate_routing (Routing.__name__ root) root
                       Escalation.VNone (Routing.__name__ root) req_type "" st with
               | (st, Ok l) => (st, Ok (<[req_type := l]> ret))
               | (st, Raise e) => (st, Raise e)
               end
           | (st, Raise e) => (st, Raise e)
           end)
        (st, Ok ∅) Routing.req_types.

End Subglobals.

(** The visits of one pass of [_generate_routing] in their order: the
    class, the class that mounts it ([None] for the root) and the last
    [RequestHandler] subclass on the way. *)
Fixpoint visits (handler : Routing.HandlerType) (parent : Escalation.value)
    (main_handler : string) : list (string * Escalation.value * string) :=
  match handler with
  | Routing.Class name is_RequestHandler ms =>
      let main_handler := if is_RequestHandler then name else main_handler in
      (name, parent, main_handler)
      :: flat_map (fun km : string * Routing.member Routing.HandlerType =>
                     match km with
                     | (_, Routing.Mount _ m) =>
                         visits m (Escalation.VClass name) main_handler
                     | _ => []
                     end) ms
  end.

(** The names of the classes of the mount tree, in the order of the
    visits. *)
Fixpoint classes (handler : Routing.HandlerType) : list string :=
  match handler with
  | Routing.Class name _ ms =>
      name
      :: flat_map (fun km : string * Routing.member Routing.HandlerType =>
                     match km with
                     | (_, Routing.Mount _ m) => classes m
                     | _ => []
                     end) ms
  end.

(** [self.template_subglobals] for the instances of a class; an instance
    of a class without the attribute cannot be constructed. *)
Definition subglobals_of (bases : string -> list string) (st : store)
    (c : string) : gmap string Escalation.value :=
  default ∅ (template_subglobals bases st c).

(** No class of the tree inherits [template_subglobals]: none of its
    base classes has the attribute or is itself mounted in the tree. *)
Definition own_attributes (bases : string -> list string) (st : store)
    (root : Routing.HandlerType) : Prop :=
  forall c b, In c (classes root) -> In b (bases c) ->
    st !! b = None /\ ~ In b (classes root).

End Subglobals.

(** ** A coroutine whose first failing future is known *)

Module Failure.

Import Execute.

(** What stays true of a suspended coroutine while the future at
    position [i], which fails with [e], is the first failing one. *)
Definition first_failure (i : nat) (e : exn)
    (pending : list (nat * Future)) (failed : option (nat * exn)) : Prop :=
  (forall j g, In (j, g) pending -> j < i -> resolves g = Done)
  /\ (forall g, In (i, g) pending -> resolves g = Failed e)
  /\ (failed = Some (i, e)
      \/ (exists g, In (i, g) pending)
         /\ match failed with
            | Some (j, _) => i < j
            | None => True
            end).

End Failure.

(** ** The module name of a handler class: [RequestHandlerMeta.__new__] *)

Module Meta.

(** [ret._module_name] for a class defined in module [module]:
    [dct_module_name] is the [_module_name] entry of the class body, if
    there is one. *)
Definition _module_name (dct_module_name : option string) (module : string)
  : string :=
  let module :=
    if Str.endswith module ".www"
    then Str.take (String.length module - 4) module
    else module in
  match dct_module_name with
  | Some name => name
  | None => module
  end.

End Meta.

(** ** The module registry: [rw.get_module] *)

Module Registry.

(** How a call ends: with a value, with an exception [get_module] raises
    itself, or with the exception of an import or attribute access. *)
Inductive outcome (E A : Type) : Type :=
  | Returned (a : A)
  | Raised (e : exn)
  | PassedOn (e : E).
Arguments Returned {E A} a.
Arguments Raised {E A} e.
Arguments PassedOn {E A} e.

Section Registry.

(** Python module objects, and the exceptions of imports and attribute
    accesses. *)
Variable module : Type.
Variable E : Type.

(** [__import__(dotted_name)], which returns the top-level package of
    the name, and [getattr(mod_, sub_name)]. *)
Variable import : string -> module + E.
Variable getattr : module -> string -> module + E.

(** [rw.MODULES]: for each type ([www], [rpc]) the modules loaded so
    far, by name. *)
Abbreviation registry := (gmap string (gmap string module)).

(** [for sub_name in ...: mod = getattr(mod, sub_name)] *)
Fixpoint descend (mod_ : module) (sub_names : list string) : module + E :=
  match sub_names with
  | [] => inl mod_
  | sub_name :: sub_names' =>
      match getattr mod_ sub_name with
      | inl mod_ => descend mod_ sub_names'
      | inr e => inr e
      end
  end.

(** [get_module(name, type, auto_load=auto_load)] *)
Definition get_module (name type : string) (auto_load : bool)
    (MODULES : registry) : registry * outcome E module :=
  match MODULES !! type with
  | None => (MODULES, Raised (KeyError type))
  | Some loaded =>
      match loaded !! name with
      | Some mod_ => (MODULES, Returned mod_)
      | None =>
          if auto_load then
            match import (name +:+ "." +:+ type) with
            | inl mod_ =>
                let found :=
                  if Str.contains "." name
                  then descend mod_ (tl (Str.split "." name))
                  else inl mod_ in
                match found with
                | inl mod_ =>
                    (<[type := <[name := mod_]> loaded]> MODULES, Returned mod_)
                | inr e => (MODULES, PassedOn e)
                end
            | inr e => (MODULES, PassedOn e)
            end
          else
            (MODULES,
             Raised (AttributeError
                       (name +:+ "." +:+ type
                        +:+ " is not loaded and auto_load=False")))
      end
  end.

End Registry.

End Registry.

(** ** The route decorators: [get], [post], [put], [delete] *)

Module Decorators.

(** A function object, as the attributes set on it. *)
Abbreviation function := (gmap string string).

(** The [wrapper] the decorators return; they differ in the request
    type only.  [None] where the assertion fails. *)
Definition wrapper (_rw_route_type path : string) (f : function)
  : option function :=
  match f !! "route" with
  | Some _ => None
  | None =>
      Some (<["_rw_route_type" := _rw_route_type]> (<["_rw_route" := path]> f))
  end.

Definition get : string -> function -> option function := wrapper "get".
Definition post : string -> function -> option function := wrapper "post".
Definition put : string -> function -> option function := wrapper "put".
Definition delete : string -> function -> option function := wrapper "delete".

(** A stack of decorators over a function definition, the innermost
    (the one written last) first. *)
Fixpoint decorate (ds : list (function -> option function)) (f : function)
  : option function :=
  match ds with
  | [] => Some f
  | d :: ds' =>
      match d f with
      | Some f => decorate ds' f
      | None => None
      end
  end.

(** What [_generate_routing] sees in a function that is a member of a
    handler class. *)
Definition as_member {H : Type} (f : function) : Routing.member H :=
  match f !! "_rw_route" with
  | Some route => Routing.Routed route (f !! "_rw_route_type")
  | None => Routing.Plain
  end.

End Decorators.

(** ** Further examples *)

Module Examples.

(** A cart handler that is not finished, and one with a template. *)
Definition cart_handler : Lifecycle.handler :=
  {| Lifecycle.self := Scenario.cart_instance;
     Lifecycle._finished := false;
     Lifecycle.template := Some "cart.html";
     Lifecycle.written := [] |}.

Definition render_name (template : string) (entries : gmap string Escalation.value)
  : string :=
  "rendered " +:+ template.

Definition error_page (status_code : nat) : string := "<html>error</html>".

(** Two classes that name each other as parent. *)
Definition ring_subglobals (c : string) : gmap string Escalation.value :=
  if String.eqb c "A"
  then Scenario.subglobals (Escalation.VClass "A") (Escalation.VClass "B")
  else Scenario.subglobals (Escalation.VClass "B") (Escalation.VClass "A").

Definition in_ring (c : string) : Prop := c = "A" \/ c = "B".

Definition ring_instance : Escalation.instance :=
  Escalation.construct ring_subglobals "A".

(** Three futures: the second and the third fail. *)
Definition denied_future : Execute.Future :=
  {| Execute.sets := []; Execute.resolves := Execute.Failed (HTTPError 403) |}.

Definition lost_future : Execute.Future :=
  {| Execute.sets := []; Execute.resolves := Execute.Failed (KeyError "cart") |}.

Definition failing_preprocessors : list Execute.preprocessor :=
  [ {| Execute.stores := [];
       Execute.returns := Execute.RFuture Scenario.user_future |};
    {| Execute.stores := []; Execute.returns := Execute.RFuture denied_future |};
    {| Execute.stores := []; Execute.returns := Execute.RFuture lost_future |} ].

(** A [locale] directory with the one entry [de_DE]; the translations
    are stood for by the name of the language they were loaded for. *)
Definition load_name (lang : string) : result string := Ok lang.

Definition german : gmap string string :=
  <["de" := "de_DE"]> (<["de_DE" := "de_DE"]> ∅).

(** The class attributes after the compilation of [Scenario.shop_root],
    none of whose classes has base classes with attributes. *)
Definition no_bases (c : string) : list string := [].

Definition shop_store : Subglobals.store :=
  (Subglobals.generate_routing no_bases Scenario.shop_root ∅).1.

(** An importer that names the module it was asked for, and one that
    always fails. *)
Definition import_named (name : string) : string + unit := inl name.
Definition import_fails (name : string) : string + unit := inr tt.
Definition getattr_named (mod_ : string) (sub_name : string) : string + unit :=
  inl (mod_ +:+ "." +:+ sub_name).

Definition empty_registry : gmap string (gmap string string) :=
  <["rpc" := ∅]> (<["www" := ∅]> ∅).

Definition shop_registry : gmap string (gmap string string) :=
  <["www" := <["shop" := "shop.www"]> ∅]> empty_registry.

(** The one module [d], whose [Main] handler is [Scenario.D]. *)
Definition main_of_d (module : string) : result Static.HandlerType :=
  if String.eqb module "d" then Ok Scenario.D
  else Raise (AttributeError "no such module").

Definition only_d (module : string) : bool := String.eqb module "d".

Definition no_mime (path : string) : option string := None.

End Examples.

(** * Properties *)

(** ** String operations *)

Local Arguments String.append !_ _ / : simpl nomatch.

Section StrFacts.

Lemma append_assoc (a b c : string) : (a +:+ b) +:+ c = a +:+ (b +:+ c).
Proof. induction a as [|x a IH]; simpl; [reflexivity | now rewrite IH]. Qed.

Lemma append_empty_r (a : string) : a +:+ "" = a.
Proof. induction a as [|x a IH]; simpl; [reflexivity | now rewrite IH]. Qed.

Lemma prefix_append (p s : string) : String.prefix p (p +:+ s) = true.
Proof.
  induction p as [|x p IH]; simpl.
  - now destruct s.
  - destruct (ascii_dec x x) as [_|Hne]; [exact IH | now destruct Hne].
Qed.

Lemma prefix_split (p s : string) :
  String.prefix p s = true -> exists t, s = p +:+ t.
Proof.
  revert s. induction p as [|x p IH]; intros s H.
  - exists s. reflexivity.
  - destruct s as [|y s]; simpl in H; [discriminate|].
    destruct (ascii_dec x y) as [->|]; [|discriminate].
    destruct (IH _ H) as [t ->]. now exists t.
Qed.

Lemma prefix_extend (p s t : string) :
  String.prefix p s = true -> String.prefix p (s +:+ t) = true.
Proof.
  intros H. destruct (prefix_split _ _ H) as [u ->].
  rewrite append_assoc. apply prefix_append.
Qed.

Lemma startswith_extend (s p t : string) :
  Str.startswith (s +:+ t) p = false -> Str.startswith s p = false.
Proof.
  unfold Str.startswith. intros H.
  destruct (String.prefix p s) eqn:E; [|reflexivity].
  now rewrite (prefix_extend _ _ t E) in H.
Qed.

Lemma contains_append (needle a b : string) :
  Str.contains needle (a +:+ needle +:+ b) = true.
Proof.
  induction a as [|x a IH].
  - change ("" +:+ needle +:+ b) with (needle +:+ b).
    destruct (needle +:+ b) eqn:E; cbn [Str.contains];
      rewrite <- E, prefix_append; reflexivity.
  - change (String x a +:+ needle +:+ b) with (String x (a +:+ needle +:+ b)).
    cbn [Str.contains]. rewrite IH. apply orb_true_r.
Qed.

Lemma contains_split (needle s : string) :
  Str.contains needle s = true -> exists a b, s = a +:+ needle +:+ b.
Proof.
  induction s as [|x s IH]; cbn [Str.contains]; intros H.
  - rewrite orb_false_r in H. destruct (prefix_split _ _ H) as [t ->].
    now exists "", t.
  - apply orb_true_iff in H as [H|H].
    + destruct (prefix_split _ _ H) as [t ->]. now exists "", t.
    + destruct (IH H) as (a & b & ->). now exists (String x a), b.
Qed.

Lemma rstrip_slashes (k : nat) : Str.rstrip_slash (Str.slashes k) = "".
Proof. induction k as [|k IH]; simpl; [reflexivity | now rewrite IH]. Qed.

(** Trailing slashes do not survive [rstrip('/')]. *)
Lemma rstrip_append_slashes (s : string) (k : nat) :
  Str.rstrip_slash (s +:+ Str.slashes k) = Str.rstrip_slash s.
Proof.
  induction s as [|x s IH]; simpl.
  - apply rstrip_slashes.
  - now rewrite IH.
Qed.

Lemma rstrip_idempotent (s : string) :
  Str.rstrip_slash (Str.rstrip_slash s) = Str.rstrip_slash s.
Proof.
  induction s as [|x s IH]; simpl; [reflexivity|].
  destruct (Str.is_slash x && Str.is_empty (Str.rstrip_slash s)) eqn:E;
    simpl; [reflexivity|].
  now rewrite IH, E.
Qed.

End StrFacts.

(** ** Static asset URLs *)

(** C9: the URL of a resolved asset with module [m], file name [f] and a
    content hash [h] is exactly ['/static/' + m + '/' + f + '?v='] followed
    by the first five characters of [h] (['abcde'] for ['abcdef1234']);
    without a content hash it ends in ['?v=ERR']. *)
Theorem StaticObject_url_format (m f h : string) :
  h <> "" ->
  StaticObject.__new__ m f (Some h)
    = "/static/" +:+ m +:+ "/" +:+ f +:+ "?v=" +:+ String.substring 0 5 h
  /\ StaticObject.__new__ m f (Some "abcdef1234")
    = "/static/" +:+ m +:+ "/" +:+ f +:+ "?v=abcde"
  /\ StaticObject.__new__ m f None = "/static/" +:+ m +:+ "/" +:+ f +:+ "?v=ERR"
  /\ StaticObject.url (StaticObject.create m f (Some h)) = StaticObject.__new__ m f (Some h).
Proof.
  intros Hh. unfold StaticObject.__new__, Str.take.
  repeat split.
  - destruct h as [|c h]; [contradiction|]. cbn [Str.is_empty negb].
    now rewrite !append_assoc.
  - cbn [Str.is_empty negb]. now rewrite !append_assoc.
  - now rewrite !append_assoc.
Qed.

Lemma StaticObject_url_format_witness :
  StaticObject.__new__ "shop" "logo.png" (Some "abcdef1234")
    = "/static/shop/logo.png?v=abcde".
Proof.
  destruct (StaticObject_url_format "shop" "logo.png" "abcdef1234") as (H & _).
  - discriminate.
  - exact H.
Defined.

(** ** The static file handler *)

(** C10: a GET request whose path contains [..] anywhere is answered by
    HTTP error 403 whatever the packaged resources, templates and parents
    are, with no header set and nothing written to the response. *)
Theorem StaticFileHandler_get_rejects_dotdot
    (resource_string : string -> string -> option string)
    (guess_type : string -> option string)
    (static_url : Static.HandlerType) (path : string) :
  (exists before after, path = before +:+ ".." +:+ after) ->
  Str.contains ".." path = true
  /\ Static.StaticFileHandler_get resource_string guess_type static_url path
     = (Static.empty_response, Raise (HTTPError 403)).
Proof.
  intros (before & after & ->).
  assert (H : Str.contains ".." (before +:+ ".." +:+ after) = true)
    by apply contains_append.
  split; [exact H|].
  unfold Static.StaticFileHandler_get. now rewrite H.
Qed.

Lemma StaticFileHandler_get_rejects_dotdot_witness :
  Static.StaticFileHandler_get
    (fun _ _ => Some "secret") (fun _ => Some "text/plain")
    (Static.Handler "shop" (fun _ => None) []) "css/../../etc/passwd"
  = (Static.empty_response, Raise (HTTPError 403)).
Proof.
  apply StaticFileHandler_get_rejects_dotdot.
  exists "css/", "/../etc/passwd". reflexivity.
Defined.

(** ** Static asset resolution *)

Section StaticFacts.

Import Static.

Variable resource_string : string -> string -> option string.
Variable get_module_main : string -> result HandlerType.
Variable md5_hexdigest : string -> string.

Local Abbreviation get_content := (get_content resource_string).
Local Abbreviation visits := (get_content_visits resource_string).
Local Abbreviation lacks := (lacks resource_string).
Local Abbreviation search := (search resource_string).
Local Abbreviation bfs_loop := (bfs_loop resource_string).
Local Abbreviation bfs := (bfs resource_string).
Local Abbreviation call := (__call__ resource_string get_module_main md5_hexdigest).

Lemma lacks_inv h fname :
  lacks h fname = true ->
  resource_string (_module_name h) ("static/" +:+ fname) = None
  /\ template_env h ("static/" +:+ fname) = None.
Proof.
  unfold Static.lacks.
  destruct (resource_string _ _); [discriminate|].
  destruct (template_env _ _); [discriminate|]. auto.
Qed.

(** A handler that lacks the asset asks its first parent, and the next
    one when that fails. *)
Lemma get_content_ask_first m tenv p ps fname d :
  resource_string m ("static/" +:+ fname) = None ->
  tenv ("static/" +:+ fname) = None ->
  get_content p fname = Ok d ->
  get_content (Handler m tenv (p :: ps)) fname = Ok d
  /\ visits (Handler m tenv (p :: ps)) fname = m :: visits p fname.
Proof.
  intros Hr Ht Hp. cbn [Static.get_content Static.get_content_visits].
  rewrite Hr, Ht, Hp, app_nil_r. auto.
Qed.

Lemma get_content_ask_next m tenv p ps fname e :
  resource_string m ("static/" +:+ fname) = None ->
  tenv ("static/" +:+ fname) = None ->
  get_content p fname = Raise e ->
  get_content (Handler m tenv (p :: ps)) fname
    = get_content (Handler m tenv ps) fname
  /\ visits (Handler m tenv (p :: ps)) fname
    = m :: visits p fname ++ tl (visits (Handler m tenv ps) fname).
Proof.
  intros Hr Ht Hp. cbn [Static.get_content Static.get_content_visits tl].
  rewrite Hr, Ht, Hp. auto.
Qed.

(** Case analysis on what [search] answered for the head of the
    queue. *)
Local Ltac search_cases Hg :=
  let Hr := fresh "Hr" in
  let Hr' := fresh "Hr'" in
  simp bfs_loop;
  match goal with
  | |- context [inspect ?x] => destruct (inspect x) as [[[?|?]|?] Hr]
  end;
  simp bfs_loop;
  pose proof Hr as Hr'; unfold Static.search in Hr';
  rewrite Hg in Hr'; cbn [mbind result_bind Str.is_empty negb] in Hr'.

Lemma bfs_loop_content fname next rest data s :
  get_content next fname = Ok s -> s <> "" ->
  bfs_loop fname (next :: rest) data = Ok (BContent s).
Proof.
  intros Hg Hs. destruct s as [|c s]; [contradiction|].
  search_cases Hg; congruence.
Qed.

Lemma bfs_loop_empty fname next rest data :
  get_content next fname = Ok "" ->
  bfs_loop fname (next :: rest) data
    = bfs_loop fname (rest ++ _parents next) (BParents (_parents next)).
Proof.
  intros Hg. search_cases Hg; congruence.
Qed.

Lemma bfs_loop_raise fname next rest data e :
  get_content next fname = Raise e ->
  bfs_loop fname (next :: rest) data = Raise e.
Proof.
  intros Hg. search_cases Hg; congruence.
Qed.

(** C2 (amended): the resolution walks the parents depth-first inside
    [get_content].  With parents [B; C] of [A], when neither [A] nor [C]
    has the asset, the resolution of [B] fails and the first parent [D]
    of [C] resolves it, resolving from [A] yields the content of [D],
    and the handlers are consulted in the order [A], [B] (with its
    ancestors), [C], [D].  The queue of [bfs] serves as a fallback for
    empty content only: it takes the parents in declaration order, stops
    at the first one with content, and a parent whose content is empty
    puts its own parents at the end of the queue. *)
Theorem get_content_walks_parents_in_order
    (ma mc : string) (ta tc : string -> option template)
    (B D : HandlerType) (rest : list HandlerType) (fname d : string) (e : exn) :
  let C := Handler mc tc (D :: rest) in
  let A := Handler ma ta [B; C] in
  lacks A fname = true ->
  lacks C fname = true ->
  get_content B fname = Raise e ->
  get_content D fname = Ok d ->
  get_content A fname = Ok d
  /\ visits A fname = ma :: visits B fname ++ mc :: visits D fname
  /\ (Str.contains ":" fname = false -> d <> "" ->
      call A fname
        = Ok (StaticObject.create ma fname (Some (md5_hexdigest d))))
  /\ (forall h, bfs h fname = bfs_loop fname (_parents h) BNone)
  /\ (forall next queue data s,
        get_content next fname = Ok s -> s <> "" ->
        bfs_loop fname (next :: queue) data = Ok (BContent s))
  /\ (forall next queue data,
        get_content next fname = Ok "" ->
        bfs_loop fname (next :: queue) data
          = bfs_loop fname (queue ++ _parents next) (BParents (_parents next))).
Proof.
  intros C A HA HC HB HD. subst A C.
  apply lacks_inv in HA as [HAr HAt]. apply lacks_inv in HC as [HCr HCt].
  cbn [_module_name template_env] in *.
  destruct (get_content_ask_first mc tc D rest fname d HCr HCt HD) as [HCg HCv].
  destruct (get_content_ask_next ma ta B [Handler mc tc (D :: rest)] fname e
              HAr HAt HB) as [HAg HAv].
  destruct (get_content_ask_first ma ta _ [] fname d HAr HAt HCg) as [HAg' HAv'].
  assert (Hget : get_content (Handler ma ta [B; Handler mc tc (D :: rest)]) fname
                 = Ok d) by now rewrite HAg.
  split; [exact Hget|].
  split.
  { rewrite HAv, HAv'. cbn [tl]. now rewrite HCv. }
  split.
  { intros Hcolon Hd. unfold Static.__call__. rewrite Hcolon, Hget.
    destruct d as [|c d']; [contradiction|]. reflexivity. }
  split; [reflexivity|].
  split.
  - intros. now apply bfs_loop_content.
  - intros. now apply bfs_loop_empty.
Qed.

End StaticFacts.

(** With parents [[B; C]] of [A] and the asset on the parent [D] of [C]
    only, the queue search of [A] aborts with the [IOError] of its first
    parent [B] and never reaches [D]; and where the
    depth-first and the breadth-first order differ ([C'] and the parent
    [E] of [B'] both have the asset), the content resolved from [A'] is
    that of [E], the first in depth-first order, while the queue order of
    the specification gives that of [C']. *)
Lemma bfs_aborts_and_order_is_depth_first :
  Static.lacks Scenario.only_d_has_logo Scenario.A "logo.png" = true
  /\ Static.lacks Scenario.only_d_has_logo Scenario.B "logo.png" = true
  /\ Static.lacks Scenario.only_d_has_logo Scenario.C "logo.png" = true
  /\ Static.get_content Scenario.only_d_has_logo Scenario.D "logo.png" = Ok "PNG-of-d"
  /\ Static.bfs Scenario.only_d_has_logo Scenario.A "logo.png"
     = Raise (IOError "File not found b:logo.png" (Some "logo.png"))
  /\ Static.spec_resolve Scenario.c_and_e_have_logo Scenario.A' "logo.png"
     = Some "PNG-of-c"
  /\ Static.get_content Scenario.c_and_e_have_logo Scenario.A' "logo.png"
     = Ok "PNG-of-e"
  /\ Static.__call__ Scenario.c_and_e_have_logo Scenario.no_modules
       Scenario.content_as_digest Scenario.A' "logo.png"
     = Ok (StaticObject.create "a" "logo.png" (Some "PNG-of-e")).
Proof. repeat split; vm_compute; reflexivity. Qed.

Lemma get_content_walks_parents_in_order_witness :
  Static.get_content Scenario.only_d_has_logo Scenario.A "logo.png" = Ok "PNG-of-d"
  /\ Static.get_content_visits Scenario.only_d_has_logo Scenario.A "logo.png"
     = ["a"; "b"; "c"; "d"].
Proof.
  destruct (get_content_walks_parents_in_order
              Scenario.only_d_has_logo Scenario.no_modules Scenario.fixed_digest
              "a" "c" Scenario.no_templates Scenario.no_templates
              Scenario.B Scenario.D [] "logo.png" "PNG-of-d"
              (IOError "File not found b:logo.png" (Some "logo.png")))
    as (Hget & Hvisits & _); try reflexivity.
  split; [exact Hget | exact Hvisits].
Defined.

Section CallFacts.

Import Static.

Variable resource_string : string -> string -> option string.
Variable get_module_main : string -> result HandlerType.
Variable md5_hexdigest : string -> string.

(** C8 (amended): for every asset name whose resolution yields empty
    content ([get_content] of the addressed handler returns the empty
    string and the queue search over the parents ends without content),
    calling the [StaticURL] object returns a [StaticObject] whose URL
    ends in [?v=ERR]; when the asset is missing, [get_content] raises
    [IOError] and the call raises it as well. *)
Theorem call_empty_content_gives_ERR
    (self owner : HandlerType) (fname module fname' : string) :
  addressed get_module_main self fname module fname' owner ->
  (forall d,
      get_content resource_string owner fname' = Ok "" ->
      bfs resource_string self fname' = Ok d ->
      truthy d = false ->
      __call__ resource_string get_module_main md5_hexdigest self fname
        = Ok (StaticObject.create module fname' None)
      /\ StaticObject.url (StaticObject.create module fname' None)
        = "/static/" +:+ module +:+ "/" +:+ fname' +:+ "?v=ERR")
  /\ (forall e,
      get_content resource_string owner fname' = Raise e ->
      __call__ resource_string get_module_main md5_hexdigest self fname = Raise e).
Proof.
  intros Haddr. split.
  - intros d Hget Hbfs Hd. split.
    + unfold __call__.
      destruct Haddr as [Hcolon|module fname' main Hcolon Hsplit Hmain];
        rewrite Hcolon; rewrite ?Hsplit, ?Hmain;
        cbn [mbind result_bind]; rewrite Hget;
        cbn [mbind result_bind Str.is_empty]; rewrite Hbfs;
        cbn [mbind result_bind]; now rewrite Hd.
    + cbn. now rewrite !append_assoc.
  - intros e Hget. unfold __call__.
    destruct Haddr as [Hcolon|module fname' main Hcolon Hsplit Hmain];
      rewrite Hcolon; rewrite ?Hsplit, ?Hmain;
      cbn [mbind result_bind]; now rewrite Hget.
Qed.

End CallFacts.

Lemma call_empty_content_gives_ERR_witness :
  Static.__call__ Scenario.only_empty_css Scenario.no_modules Scenario.fixed_digest
    Scenario.shop "empty.css"
    = Ok (StaticObject.create "shop" "empty.css" None)
  /\ Static.__call__ Scenario.only_empty_css Scenario.no_modules Scenario.fixed_digest
       Scenario.shop "logo.png"
    = Raise (IOError "File not found shop:logo.png" (Some "logo.png")).
Proof.
  split.
  - apply (proj1 (call_empty_content_gives_ERR
                    Scenario.only_empty_css Scenario.no_modules
                    Scenario.fixed_digest Scenario.shop Scenario.shop
                    "empty.css" "shop" "empty.css"
                    (Static.addressed_own Scenario.no_modules Scenario.shop
                       "empty.css" eq_refl))
             Static.BNone); reflexivity.
  - apply (proj2 (call_empty_content_gives_ERR
                    Scenario.only_empty_css Scenario.no_modules
                    Scenario.fixed_digest Scenario.shop Scenario.shop
                    "logo.png" "shop" "logo.png"
                    (Static.addressed_own Scenario.no_modules Scenario.shop
                       "logo.png" eq_refl))).
    reflexivity.
Defined.

(** The resolution of a missing asset ends the call with the [IOError] of
    [get_content]; no [StaticObject] is returned. *)
Lemma call_missing_asset_raises :
  Static.own_content Scenario.only_empty_css Scenario.shop "logo.png" = None
  /\ Static.__call__ Scenario.only_empty_css Scenario.no_modules Scenario.fixed_digest
       Scenario.shop "logo.png"
     = Raise (IOError "File not found shop:logo.png" (Some "logo.png")).
Proof. split; reflexivity. Qed.

(** ** Trailing slashes in the dispatcher *)

Section DispatchFacts.

Import Dispatch.

Variable M : Type.
Variable DEBUG : bool.
Variable routes : gmap string (list Routing.Rule).
Variable rule_match : Routing.Rule -> string -> option M.
Variable unquote : string -> string.
Variable sys_modules www_loaded : string -> bool.
Variable plugs : list plug.

Local Abbreviation app :=
  (Application_call M DEBUG routes rule_match unquote sys_modules www_loaded plugs).

(** The request that the scan of the route list sees. *)
Lemma normal_request_slashes (request : HTTPRequest) (k : nat) :
  set_path (set_path request (path request +:+ Str.slashes k))
           (Str.rstrip_slash (path request +:+ Str.slashes k))
  = set_path request (Str.rstrip_slash (path request)).
Proof. unfold set_path; cbn. now rewrite rstrip_append_slashes. Qed.

(** Under a reserved prefix the route list is not scanned. *)
Lemma reserved_prefix_selects_nothing (request : HTTPRequest) :
  Str.startswith (path request) "/static/" = true
  \/ Str.startswith (path request) "/_p/" = true ->
  selected M (app request) = None.
Proof.
  intros H. unfold Application_call.
  destruct (DEBUG && Str.contains "__debugger__" (uri request)); [reflexivity|].
  destruct (Str.startswith (path request) "/static/").
  - destruct (Str.contains "/" _); [|reflexivity].
    destruct (Str.split1 _ _) as [[module rest]|]; [|reflexivity].
    destruct (sys_modules module); [|reflexivity].
    now destruct (www_loaded module).
  - destruct H as [H|H]; [discriminate|]. rewrite H.
    destruct (Str.split1 _ _) as [[plugin rest]|]; [|reflexivity].
    destruct (plugin_loop plugs plugin rest request) as [[] request'];
      reflexivity.
Qed.

(** C7 (amended): for every request and number [k] of trailing slashes
    (the two requests differ in the path only)
    that do not move the path under a reserved prefix (as they do for
    [/static] and [/_p], which become [/static/] and [/_p/]), the
    dispatcher selects for the path with the slashes the same route
    match as for the path without them; when the path is not under a
    reserved prefix, the slashes are stripped before the route list is
    scanned and the two requests are answered alike; and the empty path
    is dispatched as [/]. *)
Theorem trailing_slashes_select_same_match (request : HTTPRequest) (k : nat) :
  let slashed := set_path request (path request +:+ Str.slashes k) in
  Str.startswith (path slashed) "/static/"
    = Str.startswith (path request) "/static/" ->
  Str.startswith (path slashed) "/_p/" = Str.startswith (path request) "/_p/" ->
  selected M (app slashed) = selected M (app request)
  /\ (Str.startswith (path request) "/static/" = false ->
      Str.startswith (path request) "/_p/" = false ->
      app slashed = app request)
  /\ app (set_path request "") = app (set_path request "/").
Proof.
  intros slashed Hstatic Hplugin.
  assert (Hnormal : Str.startswith (path request) "/static/" = false ->
                    Str.startswith (path request) "/_p/" = false ->
                    app slashed = app request).
  { intros Hs Hp. unfold Application_call.
    rewrite Hstatic, Hplugin, Hs, Hp.
    unfold slashed. rewrite normal_request_slashes. reflexivity. }
  split; [|split; [exact Hnormal | reflexivity]].
  destruct (Str.startswith (path request) "/static/") eqn:Hs.
  - rewrite !reserved_prefix_selects_nothing; auto.
  - destruct (Str.startswith (path request) "/_p/") eqn:Hp.
    + rewrite !reserved_prefix_selects_nothing; auto.
    + now rewrite Hnormal.
Qed.

End DispatchFacts.

Lemma trailing_slashes_select_same_match_witness :
  Dispatch.Application_call unit false Scenario.cart_routes Scenario.literal_match
    (fun s => s) Scenario.no_module Scenario.no_module []
    (Dispatch.Request "/shop/cart//" "/shop/cart//" "GET")
  = Ok (Dispatch.Matched Scenario.cart_rule tt
          (Dispatch.Request "/shop/cart//" "/shop/cart" "GET")).
Proof.
  destruct (trailing_slashes_select_same_match unit false Scenario.cart_routes
              Scenario.literal_match (fun s => s) Scenario.no_module
              Scenario.no_module []
              (Dispatch.Request "/shop/cart//" "/shop/cart" "GET") 2
              eq_refl eq_refl) as (_ & H & _).
  etransitivity; [exact (H eq_refl eq_refl) | reflexivity].
Defined.

(** With a rule for [/static] in the table, the request for [/static] is
    matched by it, while the request for [/static/] is taken by the branch
    of the static files, selects no rule and ends in the 404 answer. *)
Lemma slash_after_static_selects_no_rule :
  Dispatch.Application_call unit false Scenario.static_routes Scenario.literal_match
    (fun s => s) Scenario.no_module Scenario.no_module []
    (Dispatch.Request "/static" "/static" "GET")
  = Ok (Dispatch.Matched Scenario.static_rule tt
          (Dispatch.Request "/static" "/static" "GET"))
  /\ Dispatch.Application_call unit false Scenario.static_routes Scenario.literal_match
    (fun s => s) Scenario.no_module Scenario.no_module []
    (Dispatch.Request "/static/" "/static/" "GET")
  = Ok (Dispatch.NotFound (Dispatch.Request "/static/" "/static/" "GET")).
Proof. split; vm_compute; reflexivity. Qed.

(** ** The route compiler *)

Section SortFacts.

Import Routing.

Lemma pattern_gt_trans (a b c : Rule) :
  pattern_gt a b -> pattern_gt b c -> pattern_gt a c.
Proof. unfold pattern_gt. intros Hab Hbc. eapply String_as_OT.lt_trans; eauto. Qed.

Lemma pattern_gt_neq (a b : Rule) : pattern_gt a b -> path a <> path b.
Proof.
  unfold pattern_gt. intros H E. apply String_as_OT.lt_not_eq in H.
  apply H. symmetry. exact E.
Qed.

Lemma pattern_gt_ge (a b : Rule) : pattern_gt a b -> pattern_ge a b.
Proof.
  unfold pattern_gt, pattern_ge, String.leb. intros H.
  apply String_as_OT.cmp_lt in H. unfold String_as_OT.cmp in H. now rewrite H.
Qed.

(** The three answers of the comparison. *)
Lemma Rule_cmp_cases (r x : Rule) :
  (path r = path x /\ Rule_cmp r x = Raise (CompileTimeConflict (path r)))
  \/ (pattern_gt r x /\ Rule_cmp r x = Ok Gt)
  \/ (pattern_gt x r /\ Rule_cmp r x = Ok Lt).
Proof.
  unfold Rule_cmp, pattern_gt.
  destruct (String.eqb_spec (path r) (path x)) as [E|NE]; [now left|right].
  destruct (String.compare (path r) (path x)) eqn:C.
  - apply String.compare_eq_iff in C. contradiction.
  - right. split; [|reflexivity]. now apply String_as_OT.cmp_lt.
  - left. split; [|reflexivity]. apply String_as_OT.cmp_lt.
    unfold String_as_OT.cmp. rewrite String.compare_antisym, C. reflexivity.
Qed.

Lemma insert_reverse_spec (r : Rule) (l : list Rule) :
  StronglySorted pattern_gt l ->
  match insert_reverse r l with
  | Ok l' =>
      ~ In (path r) (map path l) /\ Permutation l' (r :: l)
      /\ StronglySorted pattern_gt l'
  | Raise e => In (path r) (map path l) /\ e = CompileTimeConflict (path r)
  end.
Proof.
  induction l as [|x l IH]; intros Hs.
  - cbn. repeat split; auto. repeat constructor.
  - apply StronglySorted_inv in Hs as [Hs Hall].
    cbn [insert_reverse].
    destruct (Rule_cmp_cases r x) as [[E ->]|[[G ->]|[G ->]]]; cbn [mbind result_bind].
    + split; [now left | reflexivity].
    + assert (Hr : Forall (pattern_gt r) (x :: l)).
      { constructor; [exact G|]. eapply Forall_impl; [exact Hall|].
        intros y Hy. now apply pattern_gt_trans with x. }
      split; [|split].
      * intros Hin. apply in_map_iff in Hin as (y & Ey & Hy).
        rewrite List.Forall_forall in Hr. apply (pattern_gt_neq r y); auto.
      * reflexivity.
      * constructor; [constructor; assumption | exact Hr].
    + specialize (IH Hs). destruct (insert_reverse r l) as [l'|e].
      * destruct IH as (Hnin & Hperm & Hsorted). split; [|split].
        -- intros [E|Hin]; [|contradiction].
           now apply (pattern_gt_neq x r).
        -- rewrite Hperm. apply perm_swap.
        -- constructor; [exact Hsorted|].
           eapply Permutation_Forall; [symmetry; exact Hperm|].
           constructor; assumption.
      * destruct IH as (Hin & ->). split; [now right | reflexivity].
Qed.

Lemma sort_reverse_spec (l : list Rule) : compiles_to (sort_reverse l) l.
Proof.
  induction l as [|r l IH]; cbn [sort_reverse compiles_to].
  - repeat split; constructor.
  - unfold compiles_to in IH. destruct (sort_reverse l) as [s|e]; cbn [mbind result_bind].
    + destruct IH as (Hnd & Hperm & Hs).
      pose proof (insert_reverse_spec r s Hs) as Hi.
      destruct (insert_reverse r s) as [l'|e].
      * destruct Hi as (Hnin & Hp & Hs'). split; [|split]; [| |exact Hs'].
        -- cbn. constructor; [|exact Hnd].
           intros Hin. apply Hnin. apply list_elem_of_In in Hin.
           eapply Permutation_in; [|exact Hin].
           apply Permutation_map. now symmetry.
        -- rewrite Hp. now constructor.
      * destruct Hi as (Hin & ->). split; [|eauto].
        intros Hnd'. cbn in Hnd'. apply NoDup_cons in Hnd' as [Hnin _].
        apply Hnin, list_elem_of_In. eapply Permutation_in; [|exact Hin].
        now apply Permutation_map.
    + destruct IH as (Hnd & p & ->). split; [|eauto].
      intros Hnd'. cbn in Hnd'. apply NoDup_cons in Hnd' as [_ Hnd'].
      contradiction.
Qed.

End SortFacts.

Section CompilerFacts.

Import Routing.

Lemma _generate_routing_unfold n b ms req_type prefix :
  _generate_routing (Class n b ms) req_type prefix
  = (ret ← members_loop (fun m p => _generate_routing m req_type p)
             (Class n b ms) req_type prefix ms [];
     sort_reverse ret).
Proof. reflexivity. Qed.

Lemma spec_routes_unfold n b ms req_type prefix :
  spec_routes (Class n b ms) req_type prefix
  = spec_members (fun m p => spec_routes m req_type p)
      (Class n b ms) req_type prefix ms.
Proof. reflexivity. Qed.

Lemma mounted_size key q m n b ms :
  In (key, Mount q m) ms -> size m < size (Class n b ms).
Proof.
  cbn [size]. induction ms as [|[k v] ms IH]; intros Hin; [contradiction|].
  destruct Hin as [E|Hin].
  - inversion E; subst. unfold list_sum. cbn [map fold_right]. lia.
  - specialize (IH Hin). unfold list_sum in *.
    destruct v; cbn [map fold_right] in *; lia.
Qed.

Lemma NoDup_map_app_l (l1 l2 : list Rule) :
  NoDup (map path (l1 ++ l2)) -> NoDup (map path l1).
Proof. rewrite map_app. intros H. now apply NoDup_app in H as (? & _ & _). Qed.

Lemma NoDup_map_app_r (l1 l2 : list Rule) :
  NoDup (map path (l1 ++ l2)) -> NoDup (map path l2).
Proof. rewrite map_app. intros H. now apply NoDup_app in H as (_ & _ & ?). Qed.

(** The member loop gathers, up to order, the routes the members describe;
    it fails when a mounted handler fails, and then the routes of that
    handler already hold a pattern twice. *)
Lemma members_loop_spec
    (rec : HandlerType -> string -> result (list Rule))
    (srec : HandlerType -> string -> list Rule)
    (h : HandlerType) (req_type prefix : string)
    (ms : list (string * member HandlerType)) :
  (forall key q m p, In (key, Mount q m) ms -> compiles_to (rec m p) (srec m p)) ->
  forall ret,
    match members_loop rec h req_type prefix ms ret with
    | Ok l => Permutation l (ret ++ spec_members srec h req_type prefix ms)
    | Raise e =>
        ~ NoDup (map path (spec_members srec h req_type prefix ms))
        /\ exists p, e = CompileTimeConflict p
    end.
Proof.
  induction ms as [|[key value] ms IH]; intros Hrec ret.
  - cbn. now rewrite app_nil_r.
  - assert (Hrec' : forall key q m p,
               In (key, Mount q m) ms -> compiles_to (rec m p) (srec m p))
      by (intros; eapply Hrec; right; eauto).
    specialize (IH Hrec').
    destruct value as [q m|local [t|]|]; cbn [members_loop spec_members].
    + pose proof (Hrec key q m (prefix +:+ q) (or_introl eq_refl)) as Hm.
      unfold compiles_to in Hm.
      destruct (rec m (prefix +:+ q)) as [sub|e]; cbn [mbind result_bind].
      * destruct Hm as (_ & Hperm & _). specialize (IH (ret ++ sub)).
        destruct (members_loop rec h req_type prefix ms (ret ++ sub)) as [l|e].
        -- rewrite IH, <- app_assoc. now rewrite Hperm.
        -- destruct IH as [Hnd He]. split; [|exact He].
           intros H. apply Hnd. eapply NoDup_map_app_r, H.
      * destruct Hm as [Hnd He]. split; [|exact He].
        intros H. apply Hnd. eapply NoDup_map_app_l, H.
    + destruct (String.eqb t req_type).
      * specialize (IH (ret ++ [mkRule (normalize (prefix +:+ local)) h key])).
        destruct (members_loop rec h req_type prefix ms _) as [l|e].
        -- now rewrite IH, <- app_assoc.
        -- destruct IH as [Hnd He]. split; [|exact He].
           intros H. cbn in H. apply NoDup_cons in H as [_ H]. contradiction.
      * apply IH.
    + apply IH.
    + apply IH.
Qed.

Lemma _generate_routing_spec (k : nat) :
  forall h req_type prefix,
    size h <= k ->
    compiles_to (_generate_routing h req_type prefix) (spec_routes h req_type prefix).
Proof.
  induction k as [|k IH]; intros [n b ms] req_type prefix Hk.
  - cbn in Hk. lia.
  - rewrite _generate_routing_unfold, spec_routes_unfold.
    pose proof (members_loop_spec
                  (fun m p => _generate_routing m req_type p)
                  (fun m p => spec_routes m req_type p)
                  (Class n b ms) req_type prefix ms) as Hloop.
    specialize (Hloop ltac:(intros key q m p Hin; apply IH;
                             pose proof (mounted_size key q m n b ms Hin); lia) []).
    destruct (members_loop _ _ _ _ _ _) as [ret|e]; cbn [mbind result_bind].
    + cbn [app] in Hloop. pose proof (sort_reverse_spec ret) as Hsort.
      unfold compiles_to in *.
      destruct (sort_reverse ret) as [l|e].
      * destruct Hsort as (Hnd & Hperm & Hs). split; [|split]; [| |exact Hs].
        -- now rewrite <- (Permutation_map path Hloop).
        -- now rewrite Hperm.
      * destruct Hsort as [Hnd He]. split; [|exact He].
        now rewrite <- (Permutation_map path Hloop).
    + exact Hloop.
Qed.

(** The compilation of one verb against the routes the tree describes. *)
Lemma _generate_routing_compiles (h : HandlerType) (req_type prefix : string) :
  compiles_to (_generate_routing h req_type prefix) (spec_routes h req_type prefix).
Proof. now apply (_generate_routing_spec (size h)). Qed.

Lemma generate_routing_unfold (root : HandlerType) :
  generate_routing root
  = (g ← _generate_routing root "get" "";
     p ← _generate_routing root "post" "";
     u ← _generate_routing root "put" "";
     d ← _generate_routing root "delete" "";
     Ok (<["delete" := d]> (<["put" := u]> (<["post" := p]> (<["get" := g]> ∅))))).
Proof.
  unfold generate_routing. cbn [foldl req_types mbind result_bind].
  destruct (_generate_routing root "get" ""); [|reflexivity].
  destruct (_generate_routing root "post" ""); [|reflexivity].
  destruct (_generate_routing root "put" ""); [|reflexivity].
  destruct (_generate_routing root "delete" ""); reflexivity.
Qed.

(** The entries of the table are the compiled lists of the four verbs. *)
Lemma generate_routing_lookup (root : HandlerType)
    (table : gmap string (list Rule)) (req_type : string) (l : list Rule) :
  generate_routing root = Ok table ->
  table !! req_type = Some l ->
  In req_type req_types /\ _generate_routing root req_type "" = Ok l.
Proof.
  rewrite generate_routing_unfold.
  destruct (_generate_routing root "get" "") as [g|] eqn:Eg; [|discriminate].
  destruct (_generate_routing root "post" "") as [p|] eqn:Ep; [|discriminate].
  destruct (_generate_routing root "put" "") as [u|] eqn:Eu; [|discriminate].
  destruct (_generate_routing root "delete" "") as [d|] eqn:Ed; [|discriminate].
  cbn [mbind result_bind]. intros [= <-] Hl.
  unfold req_types.
  destruct (decide (req_type = "delete")) as [->|];
    [rewrite lookup_insert_eq in Hl; inversion Hl; subst; cbn; auto 10|].
  rewrite lookup_insert_ne in Hl by congruence.
  destruct (decide (req_type = "put")) as [->|];
    [rewrite lookup_insert_eq in Hl; inversion Hl; subst; cbn; auto 10|].
  rewrite lookup_insert_ne in Hl by congruence.
  destruct (decide (req_type = "post")) as [->|];
    [rewrite lookup_insert_eq in Hl; inversion Hl; subst; cbn; auto 10|].
  rewrite lookup_insert_ne in Hl by congruence.
  destruct (decide (req_type = "get")) as [->|];
    [rewrite lookup_insert_eq in Hl; inversion Hl; subst; cbn; auto 10|].
  rewrite lookup_insert_ne in Hl by congruence.
  rewrite lookup_empty in Hl. discriminate.
Qed.

End CompilerFacts.

Section RouteTableFacts.

Import Routing.

Lemma spec_members_in (srec : HandlerType -> string -> list Rule)
    (h : HandlerType) (req_type prefix : string)
    (ms : list (string * member HandlerType)) (r : Rule) :
  In r (spec_members srec h req_type prefix ms) <->
  (exists key q m, In (key, Mount q m) ms /\ In r (srec m (prefix +:+ q)))
  \/ (exists key local,
        In (key, Routed local (Some req_type)) ms
        /\ r = mkRule (normalize (prefix +:+ local)) h key).
Proof.
  induction ms as [|[key value] ms IH].
  - cbn. split; [contradiction|]. intros [(? & ? & ? & [] & _)|(? & ? & [] & _)].
  - destruct value as [q m|local [t|]|]; cbn [spec_members].
    + rewrite in_app_iff, IH. split.
      * intros [H|[(k & q' & m' & Hin & Hr)|(k & l & Hin & Hr)]].
        -- left. exists key, q, m. split; [now left | exact H].
        -- left. exists k, q', m'. split; [now right | exact Hr].
        -- right. exists k, l. split; [now right | exact Hr].
      * intros [(k & q' & m' & [E|Hin] & Hr)|(k & l & [E|Hin] & Hr)].
        -- inversion E; subst. now left.
        -- right. left. eauto.
        -- discriminate.
        -- right. right. eauto.
    + destruct (String.eqb_spec t req_type) as [->|Hne].
      * cbn [In]. rewrite IH. split.
        -- intros [H|[(k & q' & m' & Hin & Hr)|(k & l & Hin & Hr)]].
           ++ right. exists key, local. split; [now left | now symmetry].
           ++ left. exists k, q', m'. split; [now right | exact Hr].
           ++ right. exists k, l. split; [now right | exact Hr].
        -- intros [(k & q' & m' & [E|Hin] & Hr)|(k & l & [E|Hin] & Hr)].
           ++ discriminate.
           ++ right. left. eauto.
           ++ inversion E; subst. now left.
           ++ right. right. eauto.
      * rewrite IH. split.
        -- intros [(k & q' & m' & Hin & Hr)|(k & l & Hin & Hr)].
           ++ left. exists k, q', m'. split; [now right | exact Hr].
           ++ right. exists k, l. split; [now right | exact Hr].
        -- intros [(k & q' & m' & [E|Hin] & Hr)|(k & l & [E|Hin] & Hr)].
           ++ discriminate.
           ++ left. eauto.
           ++ inversion E; subst. contradiction.
           ++ right. eauto.
    + rewrite IH. split.
      * intros [(k & q' & m' & Hin & Hr)|(k & l & Hin & Hr)].
        -- left. exists k, q', m'. split; [now right | exact Hr].
        -- right. exists k, l. split; [now right | exact Hr].
      * intros [(k & q' & m' & [E|Hin] & Hr)|(k & l & [E|Hin] & Hr)].
        -- discriminate.
        -- left. eauto.
        -- discriminate.
        -- right. eauto.
    + rewrite IH. split.
      * intros [(k & q' & m' & Hin & Hr)|(k & l & Hin & Hr)].
        -- left. exists k, q', m'. split; [now right | exact Hr].
        -- right. exists k, l. split; [now right | exact Hr].
      * intros [(k & q' & m' & [E|Hin] & Hr)|(k & l & [E|Hin] & Hr)].
        -- discriminate.
        -- left. eauto.
        -- discriminate.
        -- right. eauto.
Qed.

(** Every route the tree describes belongs to an annotated method
    reached through mounts, with the mount fragments and the local path
    concatenated. *)
Lemma spec_routes_from_method (k : nat) :
  forall root req_type prefix r,
    size root <= k ->
    In r (spec_routes root req_type prefix) ->
    exists qs h key local,
      mounted_under root qs h
      /\ In (key, Routed local (Some req_type)) (getmembers h)
      /\ r = mkRule (normalize (prefix +:+ concat_fragments qs +:+ local)) h key.
Proof.
  induction k as [|k IH]; intros [n b ms] req_type prefix r Hk Hin.
  - cbn in Hk. lia.
  - rewrite spec_routes_unfold in Hin. apply spec_members_in in Hin.
    destruct Hin as [(key & q & m & Hm & Hr)|(key & local & Hm & ->)].
    + apply IH in Hr; [|pose proof (mounted_size key q m n b ms Hm); lia].
      destruct Hr as (qs & h & key' & local & Hmu & Hmem & ->).
      exists (q :: qs), h, key', local. split; [|split; [exact Hmem|]].
      * eapply mounted_below; [exact Hm | exact Hmu].
      * cbn [concat_fragments foldr]. fold (concat_fragments qs).
        now rewrite !append_assoc.
    + exists [], (Class n b ms), key, local.
      split; [constructor | split; [exact Hm | reflexivity]].
Qed.

Lemma spec_routes_of_method root qs h :
  mounted_under root qs h ->
  forall req_type prefix key local,
    In (key, Routed local (Some req_type)) (getmembers h) ->
    In (mkRule (normalize (prefix +:+ concat_fragments qs +:+ local)) h key)
       (spec_routes root req_type prefix).
Proof.
  induction 1 as [[n b ms]|[n b ms] key' q m qs h' Hm Hmu IH];
    intros req_type prefix key local Hin;
    rewrite spec_routes_unfold; apply spec_members_in.
  - right. exists key, local. split; [exact Hin | reflexivity].
  - left. exists key', q, m. split; [exact Hm|].
    specialize (IH req_type (prefix +:+ q) key local Hin).
    cbn [concat_fragments foldr]. fold (concat_fragments qs).
    now rewrite !append_assoc in *.
Qed.

Lemma NoDup_map_path_inj (l : list Rule) (a b : Rule) :
  NoDup (map path l) -> In a l -> In b l -> path a = path b -> a = b.
Proof.
  induction l as [|x l IH]; [contradiction|].
  cbn [map]. rewrite NoDup_cons. intros [Hx Hnd] [->|Ha] [->|Hb] E; auto.
  - exfalso. apply Hx. rewrite E. apply list_elem_of_In. now apply in_map.
  - exfalso. apply Hx. rewrite <- E. apply list_elem_of_In. now apply in_map.
Qed.

Lemma StronglySorted_lookup (l : list Rule) :
  StronglySorted pattern_gt l ->
  forall i j a b,
    i < j -> l !! i = Some a -> l !! j = Some b -> pattern_gt a b.
Proof.
  induction 1 as [|x l Hs IH Hall]; intros i j a b Hij Ha Hb.
  - discriminate.
  - destruct j as [|j]; [lia|]. cbn in Hb.
    destruct i as [|i].
    + cbn in Ha. inversion Ha; subst.
      rewrite List.Forall_forall in Hall. apply Hall.
      apply list_elem_of_In. eapply list_elem_of_lookup_2; eauto.
    + cbn in Ha. apply (IH i j); auto. lia.
Qed.

Lemma compiled_verb (root : HandlerType) (req_type : string) (l : list Rule) :
  _generate_routing root req_type "" = Ok l ->
  NoDup (map path (spec_routes root req_type ""))
  /\ Permutation l (spec_routes root req_type "")
  /\ StronglySorted pattern_gt l.
Proof.
  intros H. pose proof (_generate_routing_compiles root req_type "") as Hc.
  now rewrite H in Hc.
Qed.

Lemma failed_verb (root : HandlerType) (req_type : string) (e : exn) :
  _generate_routing root req_type "" = Raise e ->
  ~ NoDup (map path (spec_routes root req_type ""))
  /\ exists p, e = CompileTimeConflict p.
Proof.
  intros H. pose proof (_generate_routing_compiles root req_type "") as Hc.
  now rewrite H in Hc.
Qed.

End RouteTableFacts.

Section RouteTableTheorems.

Import Routing.

(** C3: the compilation of a root handler fails with a compile-time
    conflict whenever the routes of some verb hold two entries with the
    same normalized pattern, and returns a table whenever no verb has two
    annotated methods with the same normalized pattern. *)
Theorem generate_routing_conflict_iff_duplicate (root : HandlerType) :
  (forall req_type i j a b,
      In req_type req_types ->
      i <> j ->
      spec_routes root req_type "" !! i = Some a ->
      spec_routes root req_type "" !! j = Some b ->
      path a = path b ->
      exists p, generate_routing root = Raise (CompileTimeConflict p))
  /\ ((forall req_type i j a b,
         In req_type req_types ->
         spec_routes root req_type "" !! i = Some a ->
         spec_routes root req_type "" !! j = Some b ->
         path a = path b -> i = j) ->
      exists table, generate_routing root = Ok table).
Proof.
  split.
  - intros req_type i j a b Hv Hij Ha Hb Hab.
    assert (Hdup : ~ NoDup (map path (spec_routes root req_type ""))).
    { intros Hnd. apply Hij. eapply NoDup_lookup; [exact Hnd| |].
      - change (map path ?l) with (path <$> l).
        rewrite list_lookup_fmap, Ha. reflexivity.
      - change (map path ?l) with (path <$> l).
        rewrite list_lookup_fmap, Hb, Hab. reflexivity. }
    rewrite generate_routing_unfold.
    destruct (_generate_routing root "get" "") as [g|e] eqn:Eg;
      [|apply failed_verb in Eg as [_ [p ->]]; eauto].
    destruct (_generate_routing root "post" "") as [p|e] eqn:Ep;
      [|apply failed_verb in Ep as [_ [p' ->]]; eauto].
    destruct (_generate_routing root "put" "") as [u|e] eqn:Eu;
      [|apply failed_verb in Eu as [_ [p' ->]]; eauto].
    destruct (_generate_routing root "delete" "") as [d|e] eqn:Ed;
      [|apply failed_verb in Ed as [_ [p' ->]]; eauto].
    exfalso. apply Hdup.
    destruct Hv as [<-|[<-|[<-|[<-|[]]]]];
      eapply compiled_verb; eassumption.
  - intros Huniq.
    assert (Hok : forall req_type, In req_type req_types ->
                    exists l, _generate_routing root req_type "" = Ok l).
    { intros req_type Hv.
      destruct (_generate_routing root req_type "") as [l|e] eqn:E; [eauto|].
      apply failed_verb in E as [Hdup _]. exfalso. apply Hdup.
      apply NoDup_alt. intros i j x Hi Hj.
      change (map path ?l) with (path <$> l) in Hi, Hj.
      rewrite list_lookup_fmap in Hi, Hj.
      destruct (spec_routes root req_type "" !! i) as [a|] eqn:Ha; [|discriminate].
      destruct (spec_routes root req_type "" !! j) as [b|] eqn:Hb; [|discriminate].
      cbn in Hi, Hj. eapply (Huniq req_type i j a b); eauto. congruence. }
    rewrite generate_routing_unfold.
    destruct (Hok "get") as [g ->]; [cbn; auto|].
    destruct (Hok "post") as [p ->]; [cbn; auto|].
    destruct (Hok "put") as [u ->]; [cbn; auto|].
    destruct (Hok "delete") as [d ->]; [cbn; auto 6|].
    cbn [mbind result_bind]. eauto.
Qed.

(** C4: in the table of a compiled root handler every verb's list is in
    descending order of the pattern strings: of two adjacent routes the
    first has the greater or equal pattern; and a route with pattern
    [/shop/cart/view] stands before one with pattern [/shop/<item>]. *)
Theorem route_lists_sorted_descending (root : HandlerType)
    (table : gmap string (list Rule)) (req_type : string) (l : list Rule) :
  generate_routing root = Ok table ->
  table !! req_type = Some l ->
  (forall i r r',
      l !! i = Some r -> l !! S i = Some r' -> pattern_ge r r')
  /\ (forall i j r r',
      l !! i = Some r -> l !! j = Some r' ->
      path r = "/shop/cart/view" -> path r' = "/shop/<item>" -> i < j).
Proof.
  intros Hgen Hl.
  destruct (generate_routing_lookup root table req_type l Hgen Hl) as [_ Hv].
  apply compiled_verb in Hv as (_ & _ & Hs).
  split.
  - intros i r r' Hr Hr'. apply pattern_gt_ge.
    eapply (StronglySorted_lookup l Hs i (S i)); eauto.
  - intros i j r r' Hr Hr' Er Er'.
    destruct (Nat.lt_trichotomy i j) as [Hlt|[->|Hgt]]; [exact Hlt| |].
    + rewrite Hr in Hr'. inversion Hr'; subst. rewrite Er in Er'. discriminate.
    + pose proof (StronglySorted_lookup l Hs j i r' r Hgt Hr' Hr) as Hgt'.
      unfold pattern_gt in Hgt'. rewrite Er, Er' in Hgt'.
      apply String_as_OT.cmp_lt in Hgt'. discriminate.
Qed.

(** C5: in the table of a compiled root handler, every method annotated
    for the verb with local path [local], on a handler reached from the
    root through mounts with fragments [qs], has exactly one route: its
    pattern is the concatenation of the fragments and the local path,
    stripped of trailing slashes, with [/] for the empty result; and the
    list holds no other routes. *)
Theorem compiled_routes_concatenate_prefixes (root : HandlerType)
    (table : gmap string (list Rule)) (req_type : string) (l : list Rule) :
  generate_routing root = Ok table ->
  table !! req_type = Some l ->
  (forall qs h key local,
      mounted_under root qs h ->
      In (key, Routed local (Some req_type)) (getmembers h) ->
      let stripped := Str.rstrip_slash (concat_fragments qs +:+ local) in
      let r := mkRule (if Str.is_empty stripped then "/" else stripped) h key in
      In r l /\ (forall r', In r' l -> path r' = path r -> r' = r))
  /\ (forall r,
      In r l ->
      exists qs h key local,
        mounted_under root qs h
        /\ In (key, Routed local (Some req_type)) (getmembers h)
        /\ r = mkRule (normalize (concat_fragments qs +:+ local)) h key).
Proof.
  intros Hgen Hl.
  destruct (generate_routing_lookup root table req_type l Hgen Hl) as [_ Hv].
  apply compiled_verb in Hv as (Hnd & Hperm & _).
  assert (Hnd' : NoDup (map path l))
    by now rewrite (Permutation_map path Hperm).
  split.
  - intros qs h key local Hmu Hm stripped r.
    assert (Hin : In r l).
    { eapply Permutation_in; [symmetry; exact Hperm|].
      apply (spec_routes_of_method root qs h Hmu req_type "" key local Hm). }
    split; [exact Hin|].
    intros r' Hin' E. now apply (NoDup_map_path_inj l).
  - intros r Hin.
    apply (spec_routes_from_method (size root) root req_type "" r); [lia|].
    eapply Permutation_in; [exact Hperm | exact Hin].
Qed.

End RouteTableTheorems.

Lemma compiled_shop_table :
  Routing.generate_routing Scenario.shop_root = Ok Scenario.shop_table.
Proof. vm_compute. reflexivity. Qed.

(** The tables of the dispatcher examples are compiled ones. *)
Lemma compiled_example_tables :
  Routing.generate_routing Scenario.static_page = Ok Scenario.static_routes
  /\ Routing.generate_routing Scenario.cart_page = Ok Scenario.cart_routes.
Proof. split; vm_compute; reflexivity. Qed.

Lemma generate_routing_conflict_iff_duplicate_witness :
  (exists p, Routing.generate_routing Scenario.twice_x
             = Raise (CompileTimeConflict p))
  /\ (exists table, Routing.generate_routing Scenario.shop_root = Ok table).
Proof.
  split.
  - apply (proj1 (generate_routing_conflict_iff_duplicate Scenario.twice_x)
             "get" 0 1
             (Routing.mkRule "/x" Scenario.twice_x "a")
             (Routing.mkRule "/x" Scenario.twice_x "b"));
      [cbn; auto | lia | reflexivity | reflexivity | reflexivity].
  - apply (proj2 (generate_routing_conflict_iff_duplicate Scenario.shop_root)).
    intros req_type i j a b Hv Ha Hb E.
    destruct Hv as [<-|[<-|[<-|[<-|[]]]]];
      vm_compute in Ha, Hb;
      repeat (destruct i as [|i]; try discriminate);
      repeat (destruct j as [|j]; try discriminate);
      try reflexivity;
      inversion Ha; inversion Hb; subst; discriminate.
Defined.

Lemma route_lists_sorted_descending_witness :
  Routing.pattern_ge (Routing.mkRule "/shop/cart/view" Scenario.Y "view")
                     (Routing.mkRule "/shop/<item>" Scenario.X "item")
  /\ 0 < 1.
Proof.
  destruct (route_lists_sorted_descending Scenario.shop_root Scenario.shop_table
              "get" Scenario.shop_get_routes compiled_shop_table eq_refl)
    as [Hadj Horder].
  split.
  - apply (Hadj 0); reflexivity.
  - apply (Horder 0 1 (Routing.mkRule "/shop/cart/view" Scenario.Y "view")
             (Routing.mkRule "/shop/<item>" Scenario.X "item"));
      reflexivity.
Defined.

Lemma compiled_routes_concatenate_prefixes_witness :
  In (Routing.mkRule "/shop/cart/view" Scenario.Y "view") Scenario.shop_get_routes
  /\ In (Routing.mkRule "/shop/<item>" Scenario.X "item") Scenario.shop_get_routes.
Proof.
  destruct (compiled_routes_concatenate_prefixes Scenario.shop_root
              Scenario.shop_table "get" Scenario.shop_get_routes
              compiled_shop_table eq_refl) as [Hroute _].
  split.
  - apply (Hroute ["/shop/cart"] Scenario.Y "view" "/view").
    + eapply Routing.mounted_below; [|apply Routing.mounted_here].
      cbn. left. reflexivity.
    + cbn. left. reflexivity.
  - apply (Hroute ["/shop"] Scenario.X "item" "/<item>").
    + eapply Routing.mounted_below; [|apply Routing.mounted_here].
      cbn. right. right. left. reflexivity.
    + cbn. left. reflexivity.
Defined.

(** ** Error escalation *)

Section EscalationFacts.

Import Escalation.

Variable template_subglobals : string -> gmap string value.

Local Abbreviation init := (Escalation.__init__ template_subglobals).
Local Abbreviation on_error := (Escalation.on_error template_subglobals).
Local Abbreviation chain := (Escalation.chain template_subglobals).
Local Abbreviation terminal := (Escalation.terminal template_subglobals).

(** The copy loop keeps the entries of the parent and adds those of the
    child whose key the parent lacks. *)
Lemma copy_missing_lookup (self parent : gmap string value) (k : string) :
  copy_missing self parent !! k
  = match parent !! k with
    | Some v => Some v
    | None => self !! k
    end.
Proof.
  unfold copy_missing. revert k.
  apply (map_fold_weak_ind
           (fun r m => forall k, r !! k = match parent !! k with
                                          | Some v => Some v
                                          | None => m !! k
                                          end)).
  - intros k. rewrite lookup_empty. now destruct (parent !! k).
  - intros i x m r Hm IH k.
    pose proof (IH i) as Hi. rewrite Hm in Hi.
    destruct (decide (i = k)) as [->|Hne].
    + rewrite lookup_insert_eq.
      destruct (parent !! k) as [v|] eqn:Hp; rewrite Hi; [exact Hi|].
      apply lookup_insert_eq.
    + rewrite (lookup_insert_ne m) by exact Hne.
      destruct (r !! i); [apply IH|].
      rewrite lookup_insert_ne by exact Hne. apply IH.
Qed.

Lemma copy_missing_keeps_keys (self parent : gmap string value) (k : string) :
  is_Some (self !! k) -> is_Some (copy_missing self parent !! k).
Proof.
  intros Hk. rewrite copy_missing_lookup. now destruct (parent !! k).
Qed.

(** An instance of [c] built during the escalation, with the entries
    [inherited] copied from a child that named [c] as its parent, is
    escalated along the chain of [c] to its end. *)
Lemma on_error_along_chain (c T : string) (n : nat) :
  chain c n T ->
  forall (inherited : gmap string value) (depth status : nat),
    inherited !! "parent_handler" = Some (VClass c) ->
    n < depth ->
    exists entries,
      on_error depth
        {| __class__ := c; items := copy_missing inherited (init c) |} status
      = Ok {| by_handler := {| __class__ := T; items := entries |};
              status_code := status |}
      /\ (forall k, is_Some (inherited !! k) -> is_Some (entries !! k))
      /\ (forall k v, inherited !! k = Some v ->
                      (forall c', init c' !! k = None) -> entries !! k = Some v).
Proof.
  induction 1 as [c Hterm|c q n T Hph Hne Hchain IH];
    intros inherited depth status Hinh Hdepth;
    (destruct depth as [|depth]; [lia|]); cbn [Escalation.on_error items __class__].
  - exists (copy_missing inherited (init c)).
    rewrite copy_missing_lookup. unfold Escalation.terminal in Hterm.
    split; [|split].
    + destruct (init c !! "parent_handler") as [ph|].
      * apply negb_true_iff in Hterm. now rewrite Hterm.
      * rewrite Hinh. cbn. now rewrite String.eqb_refl.
    + intros k. apply copy_missing_keeps_keys.
    + intros k v Hk Hfresh. now rewrite copy_missing_lookup, Hfresh.
  - rewrite copy_missing_lookup, Hph. cbn [truthy is_not_class andb].
    apply String.eqb_neq in Hne. rewrite Hne. cbn [negb].
    destruct (IH (copy_missing inherited (init c)) depth status)
      as (entries & Hrun & Hkeys & Hvalues).
    + now rewrite copy_missing_lookup, Hph.
    + lia.
    + exists entries. split; [exact Hrun | split].
      * intros k Hk. apply Hkeys. now apply copy_missing_keeps_keys.
      * intros k v Hk Hfresh. apply Hvalues; [|exact Hfresh].
        now rewrite copy_missing_lookup, Hfresh.
Qed.

(** C1: let the instance [h] name as its [parent_handler] a class [Q]
    other than its own.  Handling an error with a status code constructs
    an instance of [Q], copies to it every entry of [h] whose key the new
    instance lacks, and lets it handle the error; this repeats along the
    logical-parent chain of [Q] up to the class [T] that ends it, whose
    instance hands the status code to tornado's [send_error] and holds
    every key that [h] held (with the value of [h], for a key that no
    newly constructed instance sets). *)
Theorem on_error_escalates_to_logical_parent
    (h : instance) (Q T : string) (n depth status : nat) :
  items h !! "parent_handler" = Some (VClass Q) ->
  Q <> __class__ h ->
  chain Q n T ->
  n + 1 < depth ->
  let parent := {| __class__ := Q; items := copy_missing (items h) (init Q) |} in
  on_error depth h status = on_error (pred depth) parent status
  /\ (forall k v, init Q !! k = None -> items h !! k = Some v ->
                  items parent !! k = Some v)
  /\ (forall k v, init Q !! k = Some v -> items parent !! k = Some v)
  /\ exists entries,
      on_error depth h status
      = Ok {| by_handler := {| __class__ := T; items := entries |};
              status_code := status |}
      /\ terminal T = true
      /\ (forall k, is_Some (items h !! k) -> is_Some (entries !! k))
      /\ (forall k v, items h !! k = Some v ->
                      (forall c, init c !! k = None) -> entries !! k = Some v).
Proof.
  intros Hph Hne Hchain Hdepth parent.
  assert (Hstep : on_error depth h status = on_error (pred depth) parent status).
  { destruct depth as [|depth]; [lia|].
    cbn [Escalation.on_error pred]. rewrite Hph. cbn [truthy is_not_class andb].
    apply String.eqb_neq in Hne. now rewrite Hne. }
  split; [exact Hstep|].
  split; [|split].
  - intros k v Hk Hv. cbn [items parent]. now rewrite copy_missing_lookup, Hk.
  - intros k v Hk. cbn [items parent]. now rewrite copy_missing_lookup, Hk.
  - destruct (on_error_along_chain Q T n Hchain (items h) (pred depth) status Hph)
      as (entries & Hrun & Hkeys & Hvalues); [lia|].
    exists entries. split; [|split; [|split; [exact Hkeys | exact Hvalues]]].
    + now rewrite Hstep.
    + clear -Hchain. induction Hchain; auto.
Qed.

End EscalationFacts.

Lemma on_error_escalates_to_logical_parent_witness :
  exists entries,
    Escalation.on_error Scenario.shop_subglobals 1000 Scenario.cart_instance 500
    = Ok {| Escalation.by_handler :=
              {| Escalation.__class__ := "Main"; Escalation.items := entries |};
            Escalation.status_code := 500 |}
    /\ entries !! "user" = Some (Escalation.VOther "alice" true).
Proof.
  destruct (on_error_escalates_to_logical_parent Scenario.shop_subglobals
              Scenario.cart_instance "Shop" "Main" 1 1000 500)
    as (_ & _ & _ & entries & Hrun & _ & _ & Hvalues).
  - reflexivity.
  - discriminate.
  - eapply Escalation.chain_step; [reflexivity | discriminate |].
    apply Escalation.chain_end. reflexivity.
  - lia.
  - exists entries. split; [exact Hrun|].
    apply Hvalues; [reflexivity|].
    intros c. unfold Escalation.__init__, Scenario.shop_subglobals.
    destruct (String.eqb c "Cart"); [reflexivity|].
    destruct (String.eqb c "Shop"); reflexivity.
Defined.

(** ** Preprocessors and the target method *)

Section ExecuteFacts.

Import Execute.

Lemma store_all_keeps (kvs : list (string * string)) (d : gmap string string) (k : string) :
  is_Some (d !! k) -> is_Some (store_all kvs d !! k).
Proof.
  unfold store_all. revert d. induction kvs as [|[k' v'] kvs IH]; intros d Hk; [exact Hk|].
  cbn [foldl]. apply IH. cbn [fst snd].
  destruct (decide (k' = k)) as [->|Hne].
  - rewrite lookup_insert_eq. eauto.
  - now rewrite lookup_insert_ne.
Qed.

Lemma store_all_stores (kvs : list (string * string)) (d : gmap string string) (k v : string) :
  In (k, v) kvs -> is_Some (store_all kvs d !! k).
Proof.
  unfold store_all. revert d. induction kvs as [|[k' v'] kvs IH]; intros d Hin; [contradiction|].
  cbn [foldl]. destruct Hin as [E|Hin].
  - inversion E; subst. apply (store_all_keeps kvs). cbn [fst snd].
    rewrite lookup_insert_eq. eauto.
  - now apply IH.
Qed.

Lemma pre_process_spec (chain : list preprocessor) (handler : gmap string string) :
  (pre_process chain handler).2 = map returns chain
  /\ (forall k, is_Some (handler !! k) -> is_Some ((pre_process chain handler).1 !! k))
  /\ (forall p k v, In p chain -> In (k, v) (stores p) ->
                   is_Some ((pre_process chain handler).1 !! k)).
Proof.
  revert handler. induction chain as [|p chain IH]; intros handler.
  - cbn. repeat split; auto. intros ? ? ? [].
  - cbn [pre_process].
    destruct (IH (store_all (stores p) handler)) as (Hrets & Hkeep & Hstores).
    destruct (pre_process chain (store_all (stores p) handler)) as [h' rets].
    cbn [fst snd] in *. split; [|split].
    + cbn. now rewrite Hrets.
    + intros k Hk. now apply Hkeep, store_all_keeps.
    + intros p' k v [<-|Hin] Hkv.
      * eapply Hkeep, store_all_stores, Hkv.
      * eapply Hstores; eauto.
Qed.

Lemma only_futures_in (chain : list preprocessor) (f : Future) :
  In f (only_futures (map returns chain)) <->
  exists p, In p chain /\ returns p = RFuture f.
Proof.
  induction chain as [|p chain IH]; cbn [map].
  - split; [contradiction | intros (? & [] & _)].
  - destruct (returns p) as [|g|tag] eqn:Hp; cbn [only_futures In];
      rewrite ?IH; split.
    + intros (q & Hq & Hr). exists q. split; [now right | exact Hr].
    + intros (q & [<-|Hq] & Hr); [congruence | eauto].
    + intros [<-|(q & Hq & Hr)]; [exists p; split; [now left|exact Hp]|].
      exists q. split; [now right | exact Hr].
    + intros (q & [<-|Hq] & Hr); [left; congruence | right; eauto].
    + intros (q & Hq & Hr). exists q. split; [now right | exact Hr].
    + intros (q & [<-|Hq] & Hr); [congruence | eauto].
Qed.

Lemma enumerate_in (fs : list Future) (i : nat) (f : Future) :
  In (i, f) (enumerate fs) <-> fs !! i = Some f.
Proof.
  unfold enumerate. rewrite <- list_elem_of_In, elem_of_lookup_imap. split.
  - intros (j & g & [= -> ->] & Hl). exact Hl.
  - intros Hl. exists i, f. auto.
Qed.

(** Once the target method runs, or an exception was raised, the
    coroutine takes no further turn. *)
Lemma run_from_invoked (h : gmap string string) (es : list event) (s : state) :
  run (Invoked h) es s -> es = [] /\ s = Invoked h.
Proof. inversion 1 as [|? ? ? ? ? Hstep]; subst; [auto | inversion Hstep]. Qed.

Lemma run_from_thrown (e : exn) (h : gmap string string) (es : list event) (s : state) :
  run (Thrown e h) es s -> es = [] /\ s = Thrown e h.
Proof. inversion 1 as [|? ? ? ? ? Hstep]; subst; [auto | inversion Hstep]. Qed.

(** A run from a suspended coroutine to the target method resolves every
    pending future, and the handler then holds what it held before and
    what the futures stored. *)
Lemma run_resolves_pending (s : state) (es : list event) (final : gmap string string) :
  run s es (Invoked final) ->
  forall pending failed handler,
    s = Waiting pending failed handler ->
    (forall i f, In (i, f) pending ->
       In (Resolved i) es
       /\ forall k v, In (k, v) (sets f) -> is_Some (final !! k))
    /\ (forall k, is_Some (handler !! k) -> is_Some (final !! k)).
Proof.
  remember (Invoked final) as target eqn:Htarget.
  induction 1 as [s|s e s' es s'' Hstep Hrun IH]; intros pending failed handler Hs.
  - subst. discriminate.
  - subst s s''. inversion Hstep as [p1 i f p2 fl h E1 E2 E3|h E1 E2 E3|i e' h E1 E2 E3];
      subst.
    + destruct (IH eq_refl _ _ _ eq_refl) as [Hpending Hkeep]. split.
      * intros j g Hin. apply in_app_iff in Hin as [Hin|[E|Hin]].
        -- destruct (Hpending j g) as [Hev Hkeys]; [apply in_app_iff; auto|].
           split; [now right | exact Hkeys].
        -- inversion E; subst. split; [now left|].
           intros k v Hkv. eapply Hkeep, store_all_stores, Hkv.
        -- destruct (Hpending j g) as [Hev Hkeys]; [apply in_app_iff; auto|].
           split; [now right | exact Hkeys].
      * intros k Hk. now apply Hkeep, store_all_keeps.
    + apply run_from_invoked in Hrun as [-> [= ->]]. split; [intros ? ? []|auto].
    + apply run_from_thrown in Hrun as [_ Hrun]. discriminate.
Qed.

(** Whatever the order in which the futures resolve, the loop brings a
    suspended coroutine without failed future to its resumption. *)
Lemma run_any_order (order : list nat) :
  forall pending handler,
    Permutation (map fst pending) order ->
    (forall i f, In (i, f) pending -> resolves f = Done) ->
    exists final,
      run (Waiting pending None handler) (map Resolved order ++ [Resumed])
          (Invoked final).
Proof.
  induction order as [|i order IH]; intros pending handler Hperm Hdone.
  - apply Permutation_nil_r in Hperm. destruct pending; [|discriminate].
    exists handler. cbn. eapply run_step; [constructor | constructor].
  - assert (Hin : In i (map fst pending)).
    { eapply Permutation_in; [symmetry; exact Hperm | now left]. }
    apply in_map_iff in Hin as ([j f] & Hj & Hin). cbn in Hj. subst j.
    apply in_split in Hin as (p1 & p2 & ->).
    destruct (IH (p1 ++ p2) (store_all (sets f) handler)) as [final Hrun].
    + rewrite map_app in *. cbn [map fst] in Hperm.
      symmetry. eapply Permutation_cons_app_inv. symmetry. exact Hperm.
    + intros j g Hjg. apply (Hdone j g).
      apply in_app_iff in Hjg as [?|?]; apply in_app_iff; cbn; auto.
    + exists final. cbn [map app]. eapply run_step; [|exact Hrun].
      pose proof (step_resolve p1 i f p2 None handler) as Hstep.
      unfold note_failure in Hstep.
      rewrite (Hdone i f) in Hstep; [exact Hstep|].
      apply in_app_iff. right. now left.
Qed.

Lemma store_all_app (a b : list (string * string)) (d : gmap string string) :
  store_all (a ++ b) d = store_all b (store_all a d).
Proof. unfold store_all. apply foldl_app. Qed.

Lemma store_all_lookup_other (kvs : list (string * string))
    (d : gmap string string) (k : string) :
  ~ In k (map fst kvs) -> store_all kvs d !! k = d !! k.
Proof.
  unfold store_all. revert d.
  induction kvs as [|[k' v'] kvs IH]; intros d Hk; [reflexivity|].
  cbn [foldl fst snd]. rewrite IH by (intros H; apply Hk; now right).
  apply lookup_insert_ne. intros ->. apply Hk. now left.
Qed.

(** When no key is stored twice, every stored value is still there at
    the end. *)
Lemma store_all_lookup (kvs : list (string * string))
    (d : gmap string string) (k v : string) :
  NoDup (map fst kvs) -> In (k, v) kvs -> store_all kvs d !! k = Some v.
Proof.
  revert d. induction kvs as [|[k' v'] kvs IH]; intros d Hnd Hin; [contradiction|].
  cbn [map fst] in Hnd. apply NoDup_cons in Hnd as [Hk' Hnd].
  change (store_all ((k', v') :: kvs) d) with (store_all kvs (<[k' := v']> d)).
  destruct Hin as [[= -> ->]|Hin].
  - rewrite store_all_lookup_other by (now rewrite <- list_elem_of_In).
    apply lookup_insert_eq.
  - now apply IH.
Qed.

Lemma pre_process_handler (chain : list preprocessor) (handler : gmap string string) :
  (pre_process chain handler).1 = store_all (flat_map stores chain) handler.
Proof.
  revert handler. induction chain as [|p chain IH]; intros handler; [reflexivity|].
  cbn [pre_process flat_map]. rewrite store_all_app, <- IH.
  now destruct (pre_process chain (store_all (stores p) handler)).
Qed.

Lemma flat_map_sets_imap (fs : list Future) (g : nat -> nat) :
  flat_map (fun jf : nat * Future => sets jf.2) (imap (fun i f => (g i, f)) fs)
  = flat_map sets fs.
Proof.
  revert g. induction fs as [|f fs IH]; intros g; [reflexivity|].
  cbn [imap flat_map snd]. f_equal. apply (IH (g ∘ S)).
Qed.

(** A run from a suspended coroutine to the target method resolves the
    pending futures in some order and then resumes; the handler has by
    then received what the futures stored, in that order. *)
Lemma run_final_handler (s : state) (es : list event) (final : gmap string string) :
  run s es (Invoked final) ->
  forall pending failed handler,
    s = Waiting pending failed handler ->
    exists order,
      Permutation order pending
      /\ es = map (fun jf : nat * Future => Resolved jf.1) order ++ [Resumed]
      /\ final = store_all (flat_map (fun jf : nat * Future => sets jf.2) order)
                           handler.
Proof.
  remember (Invoked final) as target eqn:Htarget.
  induction 1 as [s|s e s' es s'' Hstep Hrun IH]; intros pending failed handler Hs.
  - subst. discriminate.
  - subst s s''. inversion Hstep as [p1 i f p2 fl h E1 E2 E3|h E1 E2 E3|i e' h E1 E2 E3];
      subst.
    + destruct (IH eq_refl _ _ _ eq_refl) as (order & Hperm & -> & ->).
      exists ((i, f) :: order). split; [|split].
      * rewrite Hperm. apply Permutation_middle.
      * reflexivity.
      * cbn [flat_map snd]. now rewrite store_all_app.
    + apply run_from_invoked in Hrun as [-> [= ->]]. exists []. auto.
    + apply run_from_thrown in Hrun as [_ Hrun]. discriminate.
Qed.

(** C6: after the dispatcher has run the preprocessor chain, every run of
    the IO loop that reaches the target method has resolved every future
    the chain returned, and the handler then holds every key stored by a
    preprocessor, during its call or by the computation behind its
    future, whatever the order in which the futures resolved (with the
    stored value, when no key is stored twice); and when no future fails,
    every order of resolution leads to the target method. *)
Theorem target_runs_after_all_futures
    (chain : list preprocessor) (handler : gmap string string) :
  let futures := only_futures (map returns chain) in
  let writes := flat_map stores chain ++ flat_map sets futures in
  (forall events final,
      run (dispatch chain handler) events (Invoked final) ->
      (forall i, i < length futures -> In (Resolved i) events)
      /\ (forall p k v, In p chain -> In (k, v) (stores p) ->
                       is_Some (final !! k))
      /\ (forall p f k v, In p chain -> returns p = RFuture f ->
                         In (k, v) (sets f) -> is_Some (final !! k))
      /\ (NoDup (map fst writes) ->
          forall k v, In (k, v) writes -> final !! k = Some v))
  /\ (forall order,
      Permutation order (seq 0 (length futures)) ->
      (forall f, In f futures -> resolves f = Done) ->
      exists final,
        run (dispatch chain handler)
            (match futures with
             | [] => []
             | _ :: _ => map Resolved order ++ [Resumed]
             end)
            (Invoked final)).
Proof.
  intros futures writes.
  destruct (pre_process_spec chain handler) as (Hrets & Hkeep & Hstores).
  pose proof (pre_process_handler chain handler) as Hh'.
  unfold dispatch, Execute.__call__.
  destruct (pre_process chain handler) as [h' rets]. cbn [fst snd] in *. subst rets.
  fold futures. split.
  - intros events final Hrun.
    destruct futures as [|f0 fs] eqn:Hfs.
    + apply run_from_invoked in Hrun as [-> [= ->]].
      split; [cbn; lia|]. split; [exact Hstores|]. split.
      * intros p f k v Hp Hf Hkv. exfalso.
        assert (Hin : In f futures) by (apply only_futures_in; eauto).
        rewrite Hfs in Hin. contradiction.
      * intros Hnd k v Hkv. rewrite Hh'. unfold writes in *.
        cbn [flat_map] in *. rewrite app_nil_r in *.
        now apply store_all_lookup.
    + destruct (run_resolves_pending _ _ _ Hrun _ _ _ eq_refl) as [Hpending Hk].
      split; [|split; [|split]].
      * intros i Hi. apply lookup_lt_is_Some_2 in Hi as [f Hf].
        now apply (Hpending i f), enumerate_in.
      * intros p k v Hp Hkv. eapply Hk, Hstores; eauto.
      * intros p f k v Hp Hf Hkv.
        assert (Hin : In f futures) by (apply only_futures_in; eauto).
        rewrite Hfs in Hin. apply list_elem_of_In, list_elem_of_lookup in Hin as [i Hi].
        apply enumerate_in in Hi. now apply (Hpending i f Hi) in Hkv.
      * intros Hnd k v Hkv.
        destruct (run_final_handler _ _ _ Hrun _ _ _ eq_refl)
          as (order & Hperm & _ & ->).
        rewrite Hh', <- store_all_app.
        assert (Hw : Permutation
                       (flat_map stores chain
                        ++ flat_map (fun jf : nat * Future => sets jf.2) order)
                       writes).
        { unfold writes. apply Permutation_app_head.
          rewrite (Permutation_flat_map _ Hperm).
          unfold enumerate.
          now rewrite (flat_map_sets_imap (f0 :: fs) (fun i => i)). }
        apply store_all_lookup.
        -- now rewrite (Permutation_map fst Hw).
        -- eapply Permutation_in; [symmetry; exact Hw | exact Hkv].
  - intros order Hperm Hdone.
    destruct futures as [|f0 fs] eqn:Hfs.
    + exists h'. constructor.
    + apply run_any_order.
      * rewrite Hperm. unfold enumerate.
        replace (map fst (imap (fun i f => (i, f)) (f0 :: fs)))
          with (seq 0 (length (f0 :: fs))); [reflexivity|].
        generalize (f0 :: fs). clear. intros l.
        change (map fst ?x) with (fst <$> x).
        rewrite fmap_imap. unfold compose. cbn [fst].
        rewrite imap_seq_0. now rewrite list_fmap_id.
      * intros i f Hin. apply Hdone. apply enumerate_in in Hin.
        apply list_elem_of_In. eapply list_elem_of_lookup_2; eauto.
Qed.

End ExecuteFacts.

Lemma target_runs_after_all_futures_witness :
  exists final,
    Execute.run (Execute.dispatch Scenario.preprocessors ∅)
      [Execute.Resolved 1; Execute.Resolved 0; Execute.Resumed]
      (Execute.Invoked final)
    /\ final !! "email" = Some "alice@example.org"
    /\ final !! "user" = Some "alice"
    /\ final !! "cart" = Some "3 items".
Proof.
  destruct (target_runs_after_all_futures Scenario.preprocessors ∅)
    as [Hsafe Hlive].
  destruct (Hlive [1; 0]) as [final Hrun].
  - apply perm_swap.
  - intros f [<-|[<-|[]]]; reflexivity.
  - exists final. split; [exact Hrun|].
    destruct (Hsafe _ _ Hrun) as (_ & _ & _ & Hvalues).
    assert (Hnd : NoDup ["email"; "user"; "cart"])
      by (apply NoDup_ListNoDup; repeat constructor; cbn; intuition discriminate).
    split; [|split]; apply (Hvalues Hnd); cbn; auto.
Defined.

(** * Further properties of the code *)

(** ** Static resolution ([StaticURL.get_content], [bfs], [StaticFileHandler.get]) *)

Section StaticOrderFacts.

Import Static StaticOrder.

Variable resource_string : string -> string -> option string.
Variable guess_type : string -> option string.

Local Abbreviation get_content' := (Static.get_content resource_string).
Local Abbreviation first_own' := (first_own resource_string).

Lemma first_own_app (fname : string) (l1 l2 : list HandlerType) :
  first_own' fname (l1 ++ l2)
  = match first_own' fname l1 with
    | Some d => Some d
    | None => first_own' fname l2
    end.
Proof.
  induction l1 as [|h l1 IH]; [reflexivity|].
  cbn [app first_own]. now destruct (own_content resource_string h fname).
Qed.

Lemma preorder_size (h : HandlerType) (p : HandlerType) (ps : list HandlerType) :
  _parents h = ps -> In p ps -> Static.size p < Static.size h.
Proof.
  destruct h as [m t ps']. cbn [_parents]. intros -> Hin.
  cbn [Static.size]. induction ps as [|x ps IH]; [contradiction|].
  unfold list_sum in *. cbn [map fold_right] in *.
  destruct Hin as [->|Hin]; [lia|]. specialize (IH Hin). lia.
Qed.

(** [get_content] against the depth-first order, by the number of
    handlers of the tree. *)
Lemma get_content_first_own (k : nat) :
  forall h fname,
    Static.size h <= k ->
    (forall h', In h' (preorder h) -> renders h' fname = true) ->
    get_content' h fname
    = match first_own' fname (preorder h) with
      | Some d => Ok d
      | None =>
          Raise (IOError ("File not found " +:+ _module_name h +:+ ":" +:+ fname)
                         (Some fname))
      end.
Proof.
  induction k as [|k IH]; intros [m tenv ps] fname Hk Hrenders.
  - cbn in Hk. lia.
  - pose proof (Hrenders _ (or_introl eq_refl)) as Hself.
    unfold renders in Hself. cbn [template_env] in Hself.
    cbn [Static.get_content preorder first_own]. unfold own_content.
    cbn [_module_name template_env].
    destruct (resource_string m ("static/" +:+ fname)) as [raw|]; [reflexivity|].
    destruct (tenv ("static/" +:+ fname)) as [[text|fn]|]; [reflexivity|discriminate|].
    assert (Hps : forall p, In p ps ->
                    Static.size p <= k /\
                    forall h', In h' (preorder p) -> renders h' fname = true).
    { intros p Hp. split.
      - pose proof (preorder_size (Handler m tenv ps) p ps eq_refl Hp). lia.
      - intros h' Hh'. apply Hrenders. right.
        apply in_flat_map. eauto. }
    clear Hrenders Hself Hk.
    induction ps as [|p ps IHps]; [reflexivity|].
    cbn [flat_map]. rewrite first_own_app.
    destruct (Hps p (or_introl eq_refl)) as [Hsize Hrend].
    rewrite (IH p fname Hsize Hrend).
    destruct (first_own' fname (preorder p)); [reflexivity|].
    apply IHps. intros q Hq. apply Hps. now right.
Qed.

(** X1: when no template of the asset fails to render, [get_content]
    returns the content of the first handler, in depth-first order of
    the parent lists, that has the asset as a packaged resource or as a
    template; when no handler of the tree has it, it raises the [IOError]
    that names the module the resolution started from and the asset. *)
Theorem get_content_is_depth_first (h : HandlerType) (fname : string) :
  (forall h', In h' (preorder h) -> renders h' fname = true) ->
  get_content' h fname
  = match first_own' fname (preorder h) with
    | Some d => Ok d
    | None =>
        Raise (IOError ("File not found " +:+ _module_name h +:+ ":" +:+ fname)
                       (Some fname))
    end.
Proof. intros H. now apply (get_content_first_own (Static.size h)). Qed.

(** [get_content] raises nothing but [IOError]. *)
Lemma get_content_raises_IOError (k : nat) :
  forall h fname e,
    Static.size h <= k ->
    get_content' h fname = Raise e -> exists msg fn, e = IOError msg fn.
Proof.
  induction k as [|k IH]; intros [m tenv ps] fname e Hk.
  - cbn in Hk. lia.
  - cbn [Static.get_content].
    destruct (resource_string m ("static/" +:+ fname)) as [raw|]; [discriminate|].
    destruct (tenv ("static/" +:+ fname)) as [[text|fn]|];
      [discriminate | intros [= <-]; eauto |].
    clear Hk. induction ps as [|p ps IHps]; [intros [= <-]; eauto|].
    destruct (get_content' p fname); [discriminate | exact IHps].
Qed.

Lemma search_raises_IOError (h : HandlerType) (fname : string) (e : exn) :
  Static.search resource_string h fname = Raise e -> exists msg fn, e = IOError msg fn.
Proof.
  unfold Static.search.
  destruct (get_content' h fname) as [d|e'] eqn:E; cbn [mbind result_bind].
  - destruct (negb (Str.is_empty d)); discriminate.
  - intros [= <-]. eapply (get_content_raises_IOError (Static.size h)); eauto.
Qed.

(** What the queue loop can end with. *)
Lemma bfs_loop_result (fname : string) (queue : list HandlerType) (data : bfs_data) :
  match Static.bfs_loop resource_string fname queue data with
  | Ok d =>
      (d = data /\ queue = [])
      \/ (exists s, d = BContent s /\ s <> "")
      \/ (d = BParents [] /\ queue <> [])
  | Raise e => exists msg fn, e = IOError msg fn
  end.
Proof.
  funelim (Static.bfs_loop resource_string fname queue data).
  - auto.
  - right. left. exists s. split; [reflexivity|].
    pose proof e as Hs. unfold Static.search in Hs.
    destruct (get_content' next fname) as [d|]; [|discriminate].
    cbn [mbind result_bind] in Hs. destruct d; [discriminate|].
    cbn in Hs. inversion Hs. discriminate.
  - destruct (Static.bfs_loop resource_string fname (rest ++ ps) (BParents ps))
      as [d|e'] eqn:E; [|exact H].
    destruct H as [[-> Hq]|[Hs|[-> Hq]]].
    + apply app_eq_nil in Hq as [-> ->]. right. right. split; [reflexivity|discriminate].
    + right. left. exact Hs.
    + right. right. split; [reflexivity|discriminate].
  - eapply search_raises_IOError. eassumption.
Qed.

Lemma bfs_cases (h : HandlerType) (fname : string) :
  match Static.bfs resource_string h fname with
  | Ok BNone => _parents h = []
  | Ok (BContent s) => s <> ""
  | Ok (BParents ps) => ps = [] /\ _parents h <> []
  | Raise e => exists msg fn, e = IOError msg fn
  end.
Proof.
  unfold Static.bfs.
  pose proof (bfs_loop_result fname (_parents h) BNone) as H.
  destruct (Static.bfs_loop resource_string fname (_parents h) BNone) as [[|s|ps]|e].
  - destruct H as [[_ H]|[(s & [=] & _)|[[=] _]]]. exact H.
  - destruct H as [[[=] _]|[(s' & [= ->] & Hs)|[[=] _]]]. exact Hs.
  - destruct H as [[[=] _]|[(s' & [=] & _)|[[= ->] Hq]]]. auto.
  - exact H.
Qed.

(** X2: the queue search ends with [None] exactly when the handler has
    no parents, with non-empty content, with the empty list, or with an
    [IOError]; its value is never a non-empty list, so the callers never
    hash or write a list, and never an empty string. *)
Theorem bfs_ends_with_content_or_nothing (h : HandlerType) (fname : string) :
  match Static.bfs resource_string h fname with
  | Ok BNone => _parents h = []
  | Ok (BContent s) => s <> ""
  | Ok (BParents ps) => ps = [] /\ _parents h <> []
  | Raise e => exists msg fn, e = IOError msg fn
  end.
Proof. exact (bfs_cases h fname). Qed.

(** X3: [StaticFileHandler.get] ends in one of four ways: it writes a
    non-empty body, it raises 403 for a path with [..], it raises 404
    -- and then the asset exists with empty content --, or it raises the
    [IOError] of a missing asset; the [Content-Type] header is set only
    after the content was found. *)
Theorem StaticFileHandler_get_outcomes (static_url : HandlerType) (path : string) :
  let '(response, outcome) :=
    Static.StaticFileHandler_get resource_string guess_type static_url path in
  match outcome with
  | Ok _ =>
      Str.contains ".." path = false /\ body response <> ""
      /\ (get_content' static_url path = Ok (body response)
          \/ (get_content' static_url path = Ok ""
              /\ Static.bfs resource_string static_url path
                 = Ok (BContent (body response))))
  | Raise (HTTPError code) =>
      body response = ""
      /\ ((code = 403 /\ Str.contains ".." path = true /\ headers response = [])
          \/ (code = 404 /\ Str.contains ".." path = false
              /\ get_content' static_url path = Ok ""))
  | Raise (IOError _ _) =>
      body response = "" /\ Str.contains ".." path = false
      /\ (headers response = [] \/ get_content' static_url path = Ok "")
  | Raise _ => False
  end.
Proof.
  unfold Static.StaticFileHandler_get.
  destruct (Str.contains ".." path) eqn:Hdots; [cbn; auto 10|].
  destruct (get_content' static_url path) as [data|e] eqn:Hget.
  - destruct data as [|c data]; cbn [Str.is_empty].
    + pose proof (bfs_cases static_url path) as Hbfs.
      destruct (Static.bfs resource_string static_url path) as [[|s|ps]|e].
      * cbn. auto 10.
      * destruct s as [|c s]; [contradiction|]. cbn. repeat split; auto; discriminate.
      * destruct Hbfs as [-> _]. cbn. auto 10.
      * destruct Hbfs as (msg & fn & ->). cbn. auto.
    + cbn. repeat split; auto; discriminate.
  - destruct (get_content_raises_IOError (Static.size static_url) static_url path e)
      as (msg & fn & ->); [lia | exact Hget |].
    cbn. auto.
Qed.

End StaticOrderFacts.

(** ** The dispatcher ([Application.__call__]) *)

Section DispatchMoreFacts.

Import Dispatch.

Variable M : Type.
Variable DEBUG : bool.
Variable routes : gmap string (list Routing.Rule).
Variable rule_match : Routing.Rule -> string -> option M.
Variable unquote : string -> string.
Variable sys_modules www_loaded : string -> bool.
Variable plugs : list plug.

Local Abbreviation app' :=
  (Application_call M DEBUG routes rule_match unquote sys_modules www_loaded plugs).

Lemma first_match_spec (rules : list Routing.Rule) (request : HTTPRequest) :
  match first_match M rule_match rules request with
  | Some (rule, m) =>
      exists l1 l2,
        rules = l1 ++ rule :: l2
        /\ rule_match rule (path request) = Some m
        /\ forall r, In r l1 -> rule_match r (path request) = None
  | None => forall r, In r rules -> rule_match r (path request) = None
  end.
Proof.
  induction rules as [|x rules IH]; cbn [first_match].
  - intros r [].
  - destruct (rule_match x (path request)) as [m|] eqn:Hx.
    + exists [], rules. repeat split; auto. intros r [].
    + destruct (first_match M rule_match rules request) as [[rule m]|].
      * destruct IH as (l1 & l2 & -> & Hm & Hl1).
        exists (x :: l1), l2. repeat split; auto.
        intros r [<-|Hr]; auto.
      * intros r [<-|Hr]; auto.
Qed.

Lemma normal_request_path (request : HTTPRequest) :
  path (if Str.is_empty (path (set_path request (Str.rstrip_slash (path request))))
        then set_path (set_path request (Str.rstrip_slash (path request))) "/"
        else set_path request (Str.rstrip_slash (path request)))
  = Routing.normalize (path request).
Proof.
  unfold Routing.normalize. cbn [set_path path].
  now destruct (Str.is_empty (Str.rstrip_slash (path request))).
Qed.

(** X4: a request outside the debugger and the reserved prefixes, for a
    verb of the table, is answered from the verb's list scanned in table
    order with the path in normal form (trailing slashes stripped, [/]
    for the empty path): the rule selected is the first that matches,
    whatever rules follow it, and the 404 answer is given exactly when no
    rule of the list matches. *)
Theorem dispatch_selects_first_match
    (request : HTTPRequest) (rules : list Routing.Rule) :
  DEBUG && Str.contains "__debugger__" (uri request) = false ->
  Str.startswith (path request) "/static/" = false ->
  Str.startswith (path request) "/_p/" = false ->
  routes !! Str.lower (method request) = Some rules ->
  let p := Routing.normalize (path request) in
  match app' request with
  | Ok (Matched rule m request') =>
      path request' = p
      /\ exists l1 l2,
          rules = l1 ++ rule :: l2
          /\ rule_match rule p = Some m
          /\ forall r, In r l1 -> rule_match r p = None
  | Ok (NotFound request') =>
      path request' = p /\ forall r, In r rules -> rule_match r p = None
  | _ => False
  end.
Proof.
  intros Hdebug Hstatic Hplugin Hrules p.
  unfold Application_call. rewrite Hdebug, Hstatic, Hplugin.
  set (request' := if Str.is_empty _ then _ else _).
  assert (Hp : path request' = p) by apply normal_request_path.
  assert (Hm : method request' = method request).
  { unfold request'. now destruct (Str.is_empty _). }
  rewrite Hm, Hrules.
  pose proof (first_match_spec rules request') as Hfirst.
  rewrite Hp in Hfirst.
  destruct (first_match M rule_match rules request') as [[rule m]|]; auto.
Qed.

Lemma contains_slash_false (s : string) :
  Str.contains "/" s = false -> Str.split1 "/"%char s = None.
Proof.
  induction s as [|c s IH]; [reflexivity|].
  cbn [Str.contains Str.split1 String.prefix].
  destruct (ascii_dec "/" c) as [<-|Hne].
  - destruct s; discriminate.
  - cbn [orb]. intros H. rewrite (IH H).
    destruct (Ascii.eqb_spec c "/"); [congruence | reflexivity].
Qed.

(** X5: a request for [/_p/] followed by a plugin name without a further
    slash is not answered at all: unpacking the split path raises
    [ValueError], whatever plugins are registered. *)
Theorem plugin_path_without_slash_raises (request : HTTPRequest) (plugin : string) :
  DEBUG && Str.contains "__debugger__" (uri request) = false ->
  path request = "/_p/" +:+ plugin ->
  Str.contains "/" plugin = false ->
  app' request = Raise (ValueError "need more than 1 value to unpack").
Proof.
  intros Hdebug Hpath Hplugin. unfold Application_call.
  rewrite Hdebug, Hpath.
  change (Str.startswith ("/_p/" +:+ plugin) "/static/") with false.
  unfold Str.startswith at 1. rewrite (prefix_append "/_p/" plugin). change (Str.drop 4 ("/_p/" +:+ plugin)) with plugin.
  now rewrite (contains_slash_false plugin Hplugin).
Qed.

End DispatchMoreFacts.

Section DispatchCompiledFacts.

Import Dispatch.

Variable M : Type.
Variable rule_match : Routing.Rule -> string -> option M.
Variable unquote : string -> string.
Variable sys_modules www_loaded : string -> bool.
Variable plugs : list plug.

Lemma generate_routing_keys (root : Routing.HandlerType)
    (table : gmap string (list Routing.Rule)) (req_type : string) :
  Routing.generate_routing root = Ok table ->
  is_Some (table !! req_type) <-> In req_type Routing.req_types.
Proof.
  intros Hgen. split.
  - intros [l Hl]. now destruct (generate_routing_lookup root table req_type l Hgen Hl).
  - rewrite generate_routing_unfold in Hgen.
    destruct (Routing._generate_routing root "get" "") as [g|]; [|discriminate].
    destruct (Routing._generate_routing root "post" "") as [p|]; [|discriminate].
    destruct (Routing._generate_routing root "put" "") as [u|]; [|discriminate].
    destruct (Routing._generate_routing root "delete" "") as [d|]; [|discriminate].
    cbn [mbind result_bind] in Hgen. inversion Hgen; subst table.
    intros [<-|[<-|[<-|[<-|[]]]]]; eexists; reflexivity.
Qed.

(** X6: with the table of a compiled root handler, a request that reaches
    the route scan is answered (by a match or by 404) when its method, in
    lower case, is one of [get], [post], [put] and [delete]; for every
    other method, such as [HEAD], the lookup of the verb's list raises
    [KeyError]. *)
Theorem other_methods_raise_KeyError (root : Routing.HandlerType)
    (table : gmap string (list Routing.Rule)) (request : HTTPRequest) :
  Routing.generate_routing root = Ok table ->
  Str.startswith (path request) "/static/" = false ->
  Str.startswith (path request) "/_p/" = false ->
  let verb := Str.lower (method request) in
  let answer :=
    Application_call M false table rule_match unquote sys_modules www_loaded plugs
      request in
  (In verb Routing.req_types -> exists outcome, answer = Ok outcome)
  /\ (~ In verb Routing.req_types -> answer = Raise (KeyError verb)).
Proof.
  intros Hgen Hstatic Hplugin verb answer.
  unfold answer, Application_call. rewrite Hstatic, Hplugin. cbn [andb].
  set (request' := if Str.is_empty _ then _ else _).
  assert (Hm : method request' = method request).
  { unfold request'. now destruct (Str.is_empty _). }
  rewrite Hm. fold verb.
  pose proof (generate_routing_keys root table verb Hgen) as Hkeys.
  split.
  - intros Hin. apply Hkeys in Hin as [rules ->].
    destruct (first_match M rule_match rules request') as [[rule m]|]; eauto.
  - intros Hnin. destruct (table !! verb) as [rules|] eqn:E; [|reflexivity].
    exfalso. apply Hnin, Hkeys. eauto.
Qed.

End DispatchCompiledFacts.

(** ** Route patterns ([_generate_routing]) *)

Section NormalizeFacts.

Import Routing.

Lemma rstrip_no_trailing_slash (s t : string) :
  Str.rstrip_slash s <> t +:+ "/".
Proof.
  revert t. induction s as [|c s IH]; intros t; cbn [Str.rstrip_slash].
  - destruct t; discriminate.
  - destruct (Str.is_slash c && Str.is_empty (Str.rstrip_slash s)) eqn:E.
    + destruct t; discriminate.
    + destruct t as [|c' t]; cbn [String.append].
      * intros [= -> Hr]. rewrite Hr in E. discriminate.
      * intros [= _ Hr]. now apply (IH t).
Qed.

(** X7: the normal form of a route pattern is never empty, is [/] or
    does not end in a slash, does not change when it is normalized
    again, and is the same for two paths that differ in trailing slashes
    only (so [/x] and [/x/] are the same pattern). *)
Theorem normalize_is_canonical (route : string) (k : nat) :
  normalize route <> ""
  /\ (normalize route = "/" \/ forall t, normalize route <> t +:+ "/")
  /\ normalize (normalize route) = normalize route
  /\ normalize (route +:+ Str.slashes k) = normalize route.
Proof.
  unfold normalize.
  destruct (Str.is_empty (Str.rstrip_slash route)) eqn:E.
  - repeat split; auto; try discriminate.
    now rewrite rstrip_append_slashes, E.
  - split; [|split; [|split]].
    + intros H. rewrite H in E. discriminate.
    + right. intros t. apply rstrip_no_trailing_slash.
    + now rewrite rstrip_idempotent, E.
    + now rewrite rstrip_append_slashes, E.
Qed.

(** X8: the table of a compiled root handler has exactly the four keys
    [get], [post], [put] and [delete], and every pattern in it is in
    normal form: it is [/] or does not end in a slash. *)
Theorem compiled_patterns_are_normalized (root : HandlerType)
    (table : gmap string (list Rule)) :
  generate_routing root = Ok table ->
  (forall req_type, is_Some (table !! req_type) <-> In req_type req_types)
  /\ (forall req_type l r,
        table !! req_type = Some l -> In r l ->
        normalize (path r) = path r
        /\ (path r = "/" \/ forall t, path r <> t +:+ "/")).
Proof.
  intros Hgen. split.
  - intros req_type. now apply (generate_routing_keys root).
  - intros req_type l r Hl Hr.
    destruct (generate_routing_lookup root table req_type l Hgen Hl) as [_ Hv].
    apply compiled_verb in Hv as (_ & Hperm & _).
    assert (Hin : In r (spec_routes root req_type ""))
      by (eapply Permutation_in; eauto).
    apply (spec_routes_from_method (size root)) in Hin; [|lia].
    destruct Hin as (qs & h & key & local & _ & _ & ->). cbn [path].
    destruct (normalize_is_canonical ("" +:+ concat_fragments qs +:+ local) 0)
      as (_ & Hshape & Hidem & _).
    auto.
Qed.

End NormalizeFacts.

(** ** Error handling ([HandlerBase.on_error], [send_error], [finish]) *)

Section LifecycleFacts.

Import Escalation Lifecycle.

Variable template_subglobals : string -> gmap string value.
Variable render_template : string -> gmap string value -> string.
Variable get_error_html : nat -> string.

Local Abbreviation init' := (Escalation.__init__ template_subglobals).
Local Abbreviation on_error' := (Escalation.on_error template_subglobals).

Lemma copy_missing_union (self parent : gmap string value) :
  copy_missing self parent = parent ∪ self.
Proof.
  apply map_eq. intros k. rewrite copy_missing_lookup, lookup_union.
  destruct (parent !! k), (self !! k); reflexivity.
Qed.

Lemma on_error_via (c T : string) (qs : list string) :
  via template_subglobals c qs T ->
  forall (inherited : gmap string value) (depth status : nat),
    inherited !! "parent_handler" = Some (VClass c) ->
    length qs < depth ->
    on_error' depth {| __class__ := c; items := init' c ∪ inherited |} status
    = Ok {| by_handler :=
              {| __class__ := T;
                 items := gathered template_subglobals (init' c ∪ inherited) qs |};
            status_code := status |}.
Proof.
  induction 1 as [c Hterm|c q qs T Hph Hne Hvia IH];
    intros inherited depth status Hinh Hdepth;
    (destruct depth as [|depth]; [cbn in Hdepth; lia|]);
    cbn [Escalation.on_error items __class__ gathered foldl].
  - unfold Escalation.terminal in Hterm. rewrite lookup_union.
    destruct (init' c !! "parent_handler") as [ph|].
    + apply negb_true_iff in Hterm. cbn [union_with option_union_with].
      replace (Some ph ∪ inherited !! "parent_handler") with (Some ph)
        by now destruct (inherited !! "parent_handler").
      now rewrite Hterm.
    + rewrite Hinh. cbn. now rewrite String.eqb_refl.
  - rewrite lookup_union, Hph.
    replace (Some (VClass q) ∪ inherited !! "parent_handler") with (Some (VClass q))
      by now destruct (inherited !! "parent_handler").
    cbn [truthy is_not_class andb].
    apply String.eqb_neq in Hne. rewrite Hne. cbn [negb construct items].
    rewrite copy_missing_union. apply IH.
    + rewrite lookup_union, Hph. now destruct (inherited !! "parent_handler").
    + cbn in Hdepth. lia.
Qed.

(** X9: the entries the terminating handler renders with are known in
    closed form.  When [h] names the parent [Q] and the chain of [Q]
    passes through the classes [qs] to [T], [on_error] returns the
    instance of [T] whose entries are those of [h], overridden by the
    entries of the new instance of [Q], then by those of each further
    class of the chain in turn: on a key that several of them set, the
    handler nearest to the end of the chain wins. *)
Theorem on_error_gathers_entries
    (h : instance) (Q T : string) (qs : list string) (depth status : nat) :
  items h !! "parent_handler" = Some (VClass Q) ->
  Q <> __class__ h ->
  via template_subglobals Q qs T ->
  length qs + 1 < depth ->
  on_error' depth h status
  = Ok {| by_handler :=
            {| __class__ := T;
               items := gathered template_subglobals (items h) (Q :: qs) |};
          status_code := status |}.
Proof.
  intros Hph Hne Hvia Hdepth.
  destruct depth as [|depth]; [lia|].
  cbn [Escalation.on_error]. rewrite Hph. cbn [truthy is_not_class andb].
  apply String.eqb_neq in Hne. rewrite Hne. cbn [negb construct items].
  rewrite copy_missing_union.
  rewrite (on_error_via Q T qs Hvia (items h) depth status Hph); [reflexivity|lia].
Qed.

(** X10: where the classes name one another as parents in a circle,
    the escalation never reaches a handler that renders: whatever room
    the call stack has, [on_error] ends with [RuntimeError]. *)
Theorem on_error_in_a_loop_overflows
    (P : string -> Prop) (h : instance) (Q : string) (depth status : nat) :
  looping template_subglobals P ->
  items h !! "parent_handler" = Some (VClass Q) ->
  Q <> __class__ h ->
  P Q ->
  on_error' depth h status
  = Raise (RuntimeError "maximum recursion depth exceeded").
Proof.
  intros Hloop. revert h Q.
  induction depth as [|depth IH]; intros h Q Hph Hne HQ; [reflexivity|].
  cbn [Escalation.on_error]. rewrite Hph. cbn [truthy is_not_class andb].
  apply String.eqb_neq in Hne. rewrite Hne. cbn [negb construct items].
  destruct (Hloop Q HQ) as (q & Hq & Hqne & HPq).
  apply (IH _ q); [|exact Hqne|exact HPq].
  cbn [items]. now rewrite copy_missing_lookup, Hq.
Qed.

Lemma on_error_rerun (h : instance) (depth status : nat) (r : rendered) :
  on_error' depth h status = Ok r ->
  forall depth' status',
    depth <= depth' ->
    on_error' depth' h status'
    = Ok {| by_handler := by_handler r; status_code := status' |}.
Proof.
  revert h. induction depth as [|depth IH]; intros h Hrun; [discriminate|].
  cbn [Escalation.on_error] in Hrun.
  destruct (items h !! "parent_handler") as [ph|] eqn:Hph; [|discriminate].
  destruct (truthy ph && is_not_class ph (__class__ h)) eqn:Hesc.
  - destruct ph as [|q|tag b]; try discriminate.
    intros depth' status' Hle. destruct depth' as [|depth']; [lia|].
    cbn [Escalation.on_error]. rewrite Hph, Hesc. apply (IH _ Hrun). lia.
  - inversion Hrun; subst r.
    intros depth' status' Hle. destruct depth' as [|depth']; [lia|].
    cbn [Escalation.on_error]. now rewrite Hph, Hesc.
Qed.

(** X11: the status code is handed through unchanged and has no part in
    the choice of the handler that renders; and more room on the call
    stack does not change an answer once there is one. *)
Theorem on_error_passes_status_on
    (h : instance) (depth status : nat) (r : rendered) :
  on_error' depth h status = Ok r ->
  status_code r = status
  /\ forall depth' status',
      depth <= depth' ->
      on_error' depth' h status'
      = Ok {| by_handler := by_handler r; status_code := status' |}.
Proof.
  intros Hrun. split; [|exact (on_error_rerun h depth status r Hrun)].
  pose proof (on_error_rerun h depth status r Hrun depth status (le_n _)) as Hsame.
  rewrite Hrun in Hsame. destruct r as [by_h code]. now inversion Hsame.
Qed.

(** X12: in production mode ([rw.DEBUG] false) a handler that is not
    finished answers every error through [on_error]: with the given
    status code for an [HTTPError] or without [exc_info], and with 500,
    whatever status code was given, for any other exception -- rendered
    by the same handler that would render the given status code. *)
Theorem send_error_in_production
    (h : handler) (depth status : nat) (r : rendered) :
  _finished h = false ->
  on_error' depth (self h) status = Ok r ->
  send_error false template_subglobals render_template get_error_html
    depth h status ExcHTTPError = ErrorPage false (Ok r)
  /\ send_error false template_subglobals render_template get_error_html
       depth h status NoExcInfo = ErrorPage false (Ok r)
  /\ send_error false template_subglobals render_template get_error_html
       depth h status ExcOther
     = ErrorPage true (Ok {| by_handler := by_handler r; status_code := 500 |}).
Proof.
  intros Hfin Hrun. unfold send_error. rewrite Hfin, Hrun.
  repeat split.
  now rewrite (on_error_rerun (self h) depth status r Hrun depth 500).
Qed.

(** X13: in debug mode an exception other than [HTTPError] is not
    escalated: the handler in which it was raised finishes the response
    itself with the error page of the application, keeps its entries,
    and its class attributes and logical parent play no part. *)
Theorem send_error_in_debug_mode_stays
    (h : handler) (depth status : nat) :
  _finished h = false ->
  get_error_html status <> "" ->
  send_error true template_subglobals render_template get_error_html
    depth h status ExcOther
  = DebugPage (Ok {| self := self h;
                     _finished := true;
                     template := template h;
                     written := written h ++ [get_error_html status] |}).
Proof.
  intros Hfin Hhtml. unfold send_error, finish. rewrite Hfin.
  cbn [given]. destruct (get_error_html status) as [|c html]; [contradiction|].
  cbn [Str.is_empty negb andb]. rewrite andb_false_r.
  destruct (self h) as [c' entries]. cbn [__class__ items].
  now destruct (template h).
Qed.

(** X14: in production mode [finish] renders the template, when one is
    set and no chunk is given, with the entries the handler holds, and
    then clears them.  From then on [send_error] only logs, whatever the
    error is; [on_error] itself would fail on the cleared instance with
    [KeyError]. *)
Theorem finish_clears_the_handler
    (h : handler) (chunk template_arg : option string) :
  _finished h = false ->
  exists h',
    finish false render_template h chunk template_arg = Ok h'
    /\ items (self h') = ∅
    /\ _finished h' = true
    /\ (forall t,
          (if given template_arg then template_arg else template h) = Some t ->
          t <> "" -> given chunk = false ->
          written h' = written h ++ [render_template t (items (self h))]
                         ++ match chunk with Some c => [c] | None => [] end)
    /\ (forall depth status exc,
          send_error false template_subglobals render_template get_error_html
            depth h' status exc = OnlyLogged)
    /\ (forall depth status,
          on_error' (S depth) (self h') status = Raise (KeyError "parent_handler")).
Proof.
  intros Hfin. unfold finish. rewrite Hfin. eexists. split; [reflexivity|].
  cbn [self items _finished written].
  split; [reflexivity|]. split; [reflexivity|]. split; [|split].
  - intros t Ht Hne Hchunk. rewrite Ht, Hchunk.
    destruct t as [|c t]; [contradiction|]. cbn [given Str.is_empty negb andb].
    destruct chunk as [c'|]; [now rewrite <- app_assoc|reflexivity].
  - reflexivity.
  - intros depth status. cbn [Escalation.on_error items].
    now rewrite lookup_empty.
Qed.

End LifecycleFacts.

(** ** A failing future ([ExecuteHandler.__call__]) *)

Section ExecuteFailureFacts.

Import Execute Failure.

Lemma first_failure_step (i : nat) (e : exn) (p1 p2 : list (nat * Future))
    (k : nat) (g : Future) (failed : option (nat * exn)) :
  first_failure i e (p1 ++ (k, g) :: p2) failed ->
  first_failure i e (p1 ++ p2) (note_failure k g failed).
Proof.
  intros (Hdone & Hfail & Hstate).
  assert (Hsub : forall x, In x (p1 ++ p2) -> In x (p1 ++ (k, g) :: p2)).
  { intros x Hx. apply in_app_iff in Hx. apply in_app_iff.
    destruct Hx; [now left | right; now right]. }
  assert (Hkg : In (k, g) (p1 ++ (k, g) :: p2)).
  { apply in_app_iff. right. now left. }
  split; [|split].
  - intros j g' Hin. apply Hdone, Hsub, Hin.
  - intros g' Hin. apply Hfail, Hsub, Hin.
  - unfold note_failure.
    destruct (lt_eq_lt_dec k i) as [[Hlt| -> ]|Hgt].
    + rewrite (Hdone _ _ Hkg Hlt).
      destruct Hstate as [ -> |[(g' & Hg') Hlater]]; [now left|].
      right. split; [|exact Hlater].
      exists g'. apply in_app_iff in Hg'. apply in_app_iff.
      destruct Hg' as [Hg'|[Heq|Hg']]; [now left| |now right].
      inversion Heq. lia.
    + rewrite (Hfail _ Hkg). left.
      destruct Hstate as [ -> |[_ Hlater]].
      * now rewrite Nat.ltb_irrefl.
      * destruct failed as [[j e']|]; [|reflexivity].
        apply Nat.lt_asymm, Nat.ltb_nlt in Hlater. now rewrite Hlater.
    + destruct (resolves g) as [|e''] eqn:Hg.
      * destruct Hstate as [ -> |[(g' & Hg') Hlater]]; [now left|].
        right. split; [|exact Hlater].
        exists g'. apply in_app_iff in Hg'. apply in_app_iff.
        destruct Hg' as [Hg'|[Heq|Hg']]; [now left| |now right].
        inversion Heq. lia.
      * destruct Hstate as [ -> |[(g' & Hg') Hlater]].
        { left. apply Nat.ltb_lt in Hgt. now rewrite Hgt. }
        right. split.
        { exists g'. apply in_app_iff in Hg'. apply in_app_iff.
          destruct Hg' as [Hg'|[Heq|Hg']]; [now left| |now right].
          inversion Heq. lia. }
        destruct failed as [[j e']|]; [|exact Hgt].
        now destruct (j <? k).
Qed.

Lemma first_failure_run (i : nat) (e : exn) (s : state) (es : list event) (s' : state) :
  run s es s' ->
  forall pending failed handler,
    s = Waiting pending failed handler ->
    first_failure i e pending failed ->
    match s' with
    | Waiting pending' failed' _ => first_failure i e pending' failed'
    | Invoked _ => False
    | Thrown e' _ => e' = e
    end.
Proof.
  induction 1 as [s|s ev s' es s'' Hstep Hrun IH]; intros pending failed handler Hs Hinv.
  - now subst s.
  - subst s. inversion Hstep as [p1 k g p2 fl h E1 E2 E3|h E1 E2 E3|k e' h E1 E2 E3];
      subst.
    + eapply IH; [reflexivity|]. now apply first_failure_step.
    + destruct Hinv as (_ & _ & [Hf|[[g Hg] _]]); [discriminate|destruct Hg].
    + destruct Hinv as (_ & _ & [Hf|[[g Hg] _]]); [|destruct Hg].
      inversion Hf; subst.
      apply run_from_thrown in Hrun as [_ ->]. reflexivity.
Qed.

Lemma run_to_the_end (order : list nat) :
  forall pending failed handler,
    Permutation (map fst pending) order ->
    exists ev s',
      run (Waiting pending failed handler) (map Resolved order ++ [ev]) s'
      /\ match s' with Waiting _ _ _ => False | _ => True end.
Proof.
  induction order as [|i order IH]; intros pending failed handler Hperm.
  - apply Permutation_nil_r in Hperm. destruct pending; [|discriminate].
    destruct failed as [[j e]|].
    + exists Raised, (Thrown e handler). split; [|exact I].
      eapply run_step; [constructor | constructor].
    + exists Resumed, (Invoked handler). split; [|exact I].
      eapply run_step; [constructor | constructor].
  - assert (Hin : In i (map fst pending)).
    { eapply Permutation_in; [symmetry; exact Hperm | now left]. }
    apply in_map_iff in Hin as ([j f] & Hj & Hin). cbn in Hj. subst j.
    apply in_split in Hin as (p1 & p2 & ->).
    destruct (IH (p1 ++ p2) (note_failure i f failed) (store_all (sets f) handler))
      as (ev & s' & Hrun & Hs').
    { rewrite map_app in *. cbn [map fst] in Hperm.
      eapply Permutation_cons_inv. etransitivity; [|exact Hperm].
      apply Permutation_middle. }
    exists ev, s'. split; [|exact Hs'].
    cbn [map app]. eapply run_step; [constructor | exact Hrun].
Qed.

Lemma run_thrown_last (s : state) (es : list event) (e : exn)
    (h : gmap string string) :
  run s es (Thrown e h) -> es = [] \/ exists es', es = es' ++ [Raised].
Proof.
  remember (Thrown e h) as target eqn:Htarget.
  induction 1 as [s|s ev s' es s'' Hstep Hrun IH]; [now left|]. right.
  destruct (IH Htarget) as [->|(es' & ->)].
  - inversion Hrun; subst. inversion Hstep; subst. now exists [].
  - now exists (ev :: es').
Qed.

(** X15: when a future returned by a preprocessor fails, the target
    method is never invoked.  In whatever order the futures resolve,
    the coroutine waits for all of them and then ends with the exception
    of the failed future that comes first in the order of the
    preprocessors, not of the one that failed first in time. *)
Theorem failed_future_prevents_target
    (chain : list preprocessor) (handler : gmap string string)
    (i : nat) (f : Future) (e : exn) :
  let futures := only_futures (map returns chain) in
  futures !! i = Some f ->
  resolves f = Failed e ->
  (forall j g, j < i -> futures !! j = Some g -> resolves g = Done) ->
  (forall events final,
      ~ run (dispatch chain handler) events (Invoked final))
  /\ (forall events e' final,
        run (dispatch chain handler) events (Thrown e' final) -> e' = e)
  /\ (forall order,
        Permutation order (seq 0 (length futures)) ->
        exists final,
          run (dispatch chain handler) (map Resolved order ++ [Raised])
              (Thrown e final)).
Proof.
  intros futures Hi Hf Hfirst.
  pose proof (pre_process_spec chain handler) as (Hrets & _ & _).
  unfold dispatch.
  destruct (pre_process chain handler) as [handler' rets]. cbn [fst snd] in Hrets.
  subst rets. unfold __call__. fold futures.
  destruct futures as [|f0 fs] eqn:Hfs; [discriminate|]. rewrite <- Hfs in *.
  assert (Hinv : first_failure i e (enumerate futures) None).
  { split; [|split].
    - intros j g Hin Hlt. apply enumerate_in in Hin. eauto.
    - intros g Hin. apply enumerate_in in Hin. congruence.
    - right. split; [|exact I]. exists f. now apply enumerate_in. }
  split; [|split].
  - intros events final Hrun.
    exact (first_failure_run i e _ _ _ Hrun _ _ _ eq_refl Hinv).
  - intros events e' final Hrun.
    exact (first_failure_run i e _ _ _ Hrun _ _ _ eq_refl Hinv).
  - intros order Hperm.
    destruct (run_to_the_end order (enumerate futures) None handler')
      as (ev & s' & Hrun & Hs').
    { rewrite Hperm. unfold enumerate.
      replace (map fst (imap (fun i f => (i, f)) futures))
        with (seq 0 (length futures)); [reflexivity|].
      clear. generalize futures. intros l.
      change (map fst ?x) with (fst <$> x).
      rewrite fmap_imap. unfold compose. cbn [fst].
      rewrite imap_seq_0. now rewrite list_fmap_id. }
    pose proof (first_failure_run i e _ _ _ Hrun _ _ _ eq_refl Hinv) as Hend.
    destruct s' as [| |e' final]; [contradiction|contradiction|]. subst e'.
    exists final.
    destruct (run_thrown_last _ _ _ _ Hrun) as [Hnil|(es' & Hes')].
    + now destruct (map Resolved order).
    + apply app_inj_tail in Hes' as [_ ->]. exact Hrun.
Qed.

End ExecuteFailureFacts.

(** ** The choice of the language ([get_closest], translations) *)

Section I18nFacts.

Import I18n.

Variable T : Type.

Lemma find_replace (a b c : ascii) (s : string) :
  c <> a -> c <> b ->
  Str.find c (Str.replace a b s) = Str.find c s.
Proof.
  intros Ha Hb. induction s as [|d s IH]; [reflexivity|].
  cbn [Str.find Str.replace]. rewrite IH.
  destruct (Ascii.eqb_spec d a) as [->|Hda].
  - apply Ascii.eqb_neq in Ha, Hb. rewrite Ascii.eqb_sym in Ha, Hb.
    now rewrite Ha, Hb.
  - reflexivity.
Qed.

Lemma take_replace (a b : ascii) (n : nat) (s : string) :
  Str.take n (Str.replace a b s) = Str.replace a b (Str.take n s).
Proof.
  unfold Str.take. revert n. induction s as [|d s IH]; intros [|n]; try reflexivity.
  cbn [Str.replace String.substring]. now rewrite IH.
Qed.

Lemma replace_idempotent (a b : ascii) (s : string) :
  a <> b -> Str.replace a b (Str.replace a b s) = Str.replace a b s.
Proof.
  intros Hab. induction s as [|d s IH]; [reflexivity|].
  cbn [Str.replace]. rewrite IH. f_equal.
  destruct (Ascii.eqb_spec d a) as [->|Hda].
  - apply Ascii.eqb_neq in Hab. rewrite Ascii.eqb_sym in Hab. now rewrite Hab.
  - apply Ascii.eqb_neq in Hda. now rewrite Hda.
Qed.

Lemma replace_is_empty (a b : ascii) (s : string) :
  Str.is_empty (Str.replace a b s) = Str.is_empty s.
Proof. now destruct s. Qed.

Lemma find_append (c : ascii) (s t : string) :
  Str.find c s = None ->
  Str.find c (s +:+ String c t) = Some (String.length s).
Proof.
  induction s as [|d s IH]; intros Hs.
  - cbn. now rewrite Ascii.eqb_refl.
  - cbn [Str.find] in Hs. cbn [String.append Str.find String.length].
    destruct (Ascii.eqb d c); [discriminate|].
    destruct (Str.find c s); [discriminate|]. now rewrite IH.
Qed.

Lemma find_append_none (c : ascii) (s t : string) :
  Str.find c s = None -> Str.find c t = None -> Str.find c (s +:+ t) = None.
Proof.
  induction s as [|d s IH]; intros Hs Ht; [exact Ht|].
  cbn [Str.find] in Hs. cbn [String.append Str.find].
  destruct (Ascii.eqb d c); [discriminate|].
  destruct (Str.find c s); [discriminate|]. now rewrite IH.
Qed.

Lemma take_append (s t : string) :
  Str.take (String.length s) (s +:+ t) = s.
Proof.
  unfold Str.take. induction s as [|d s IH].
  - now destruct t.
  - cbn [String.length String.append String.substring]. now rewrite IH.
Qed.

Lemma replace_absent (a b : ascii) (s : string) :
  Str.find a s = None -> Str.replace a b s = s.
Proof.
  induction s as [|d s IH]; intros Hs; [reflexivity|].
  cbn [Str.find] in Hs. cbn [Str.replace].
  destruct (Ascii.eqb d a); [discriminate|].
  destruct (Str.find a s); [discriminate|]. now rewrite IH.
Qed.

Lemma replace_append (a b : ascii) (s t : string) :
  Str.replace a b (s +:+ t) = Str.replace a b s +:+ Str.replace a b t.
Proof.
  induction s as [|d s IH]; [reflexivity|].
  cbn [String.append Str.replace]. now rewrite IH.
Qed.

Lemma split_absent (sep : ascii) (s : string) :
  Str.find sep s = None -> Str.split sep s = [s].
Proof.
  induction s as [|d s IH]; intros Hs; [reflexivity|].
  cbn [Str.find] in Hs. cbn [Str.split].
  destruct (Ascii.eqb d sep); [discriminate|].
  destruct (Str.find sep s); [discriminate|]. now rewrite IH.
Qed.

Lemma split_append (sep : ascii) (s t : string) :
  Str.find sep s = None ->
  Str.split sep (s +:+ String sep t) = s :: Str.split sep t.
Proof.
  induction s as [|d s IH]; intros Hs.
  - cbn. now rewrite Ascii.eqb_refl.
  - cbn [Str.find] in Hs. cbn [String.append Str.split].
    destruct (Ascii.eqb d sep); [discriminate|].
    destruct (Str.find sep s); [discriminate|]. now rewrite IH.
Qed.

Lemma has_true (translations : gmap string T) (k : string) :
  has T translations k = true <-> is_Some (translations !! k).
Proof.
  unfold has. destruct (translations !! k); split; intros H; eauto;
    [discriminate | now destruct H].
Qed.

(** X16: [get_closest] answers with a language there is a translation
    for, or else with the language of the handler: it never makes up a
    code of its own. *)
Theorem get_closest_is_supported_or_default
    (translations : gmap string T) (language : string) (codes : list string) :
  is_Some (translations !! get_closest T translations language codes)
  \/ get_closest T translations language codes = language.
Proof.
  induction codes as [|code rest IH]; [now right|].
  cbn [get_closest].
  destruct (Str.is_empty code); [exact IH|].
  destruct (Str.split _ _) as [|p0 [|p1 [|p2 ps]]]; try exact IH.
  - destruct (has T translations (Str.lower _)) eqn:H1; [left; now apply has_true|].
    destruct (has T translations p0) eqn:H2; [left; now apply has_true|exact IH].
  - destruct (has T translations (_ +:+ _)) eqn:H1; [left; now apply has_true|].
    destruct (has T translations (Str.lower p0)) eqn:H2;
      [left; now apply has_true|exact IH].
Qed.

(** X17: a hyphen counts as an underscore: replacing the hyphens of
    every code by underscores does not change the answer. *)
Theorem get_closest_hyphen_is_underscore
    (translations : gmap string T) (language : string) (codes : list string) :
  get_closest T translations language (map (Str.replace "-" "_") codes)
  = get_closest T translations language codes.
Proof.
  induction codes as [|code rest IH]; [reflexivity|].
  cbn [map get_closest]. rewrite replace_is_empty, IH.
  destruct (Str.is_empty code); [reflexivity|].
  rewrite find_replace by discriminate.
  destruct (Str.find ";" code) as [[|q]|].
  - now rewrite replace_idempotent by discriminate.
  - now rewrite take_replace, replace_idempotent by discriminate.
  - now rewrite replace_idempotent by discriminate.
Qed.

(** X18: what follows the first semicolon of a code, the quality value
    of the browser, is ignored. *)
Theorem get_closest_ignores_quality
    (translations : gmap string T) (language : string)
    (code q : string) (rest : list string) :
  code <> "" ->
  Str.find ";" code = None ->
  get_closest T translations language ((code +:+ ";" +:+ q) :: rest)
  = get_closest T translations language (code :: rest).
Proof.
  intros Hne Hfind. cbn [get_closest].
  change (code +:+ ";" +:+ q) with (code +:+ String ";" q).
  rewrite (find_append ";" code q Hfind), Hfind.
  destruct code as [|c code]; [contradiction|].
  cbn [String.length Str.is_empty String.append].
  change (String c (code +:+ String ";" q)) with (String c code +:+ String ";" q).
  change (S (String.length code)) with (String.length (String c code)).
  now rewrite take_append.
Qed.

Lemma lower_char_underscore (d : ascii) :
  Ascii.eqb (Str.lower_char d) "_" = Ascii.eqb d "_".
Proof.
  destruct d as [b0 b1 b2 b3 b4 b5 b6 b7];
    destruct b0, b1, b2, b3, b4, b5, b6, b7; reflexivity.
Qed.

Lemma find_lower (s : string) :
  Str.find "_" (Str.lower s) = Str.find "_" s.
Proof.
  induction s as [|d s IH]; [reflexivity|].
  cbn [Str.lower Str.find]. now rewrite lower_char_underscore, IH.
Qed.

Lemma load_translations_keys (load : string -> result T) (languages : list string) :
  forall (tr tr' : gmap string T),
    load_translations T load languages tr = Ok tr' ->
    forall k, is_Some (tr' !! k) <->
              is_Some (tr !! k)
              \/ exists lang, In lang languages /\ (k = lang \/ k = short lang).
Proof.
  induction languages as [|lang languages IH]; intros tr tr' Hload k.
  - inversion Hload; subst. split; [now left|]. now intros [H|(? & [] & _)].
  - cbn [load_translations] in Hload.
    destruct (load lang) as [t|e]; [|discriminate]. cbn in Hload.
    rewrite (IH _ _ Hload k). clear IH Hload. split.
    + intros [Hk|(l & Hl & Hk)].
      * destruct (decide (short lang = k)) as [<-|Hs].
        { right. exists lang. split; [now left|now right]. }
        rewrite lookup_insert_ne in Hk by exact Hs.
        destruct (decide (lang = k)) as [<-|Hl].
        { right. exists lang. split; [now left|now left]. }
        rewrite lookup_insert_ne in Hk by exact Hl. now left.
      * right. exists l. split; [now right|exact Hk].
    + intros [Hk|(l & [<-|Hl] & Hk)].
      * left. destruct (decide (short lang = k)) as [<-|Hs].
        { rewrite lookup_insert_eq. eauto. }
        rewrite lookup_insert_ne by exact Hs.
        destruct (decide (lang = k)) as [<-|Hl].
        { rewrite lookup_insert_eq. eauto. }
        now rewrite lookup_insert_ne.
      * left. destruct Hk as [->| ->].
        { destruct (decide (short lang = lang)) as [E|Hs].
          - rewrite E, lookup_insert_eq. eauto.
          - rewrite lookup_insert_ne by exact Hs. rewrite lookup_insert_eq. eauto. }
        rewrite lookup_insert_eq. eauto.
      * right. exists l. split; [exact Hl|exact Hk].
Qed.

(** X19: the translations of a handler class and the choice of the
    language fit together.  When the [locale] directory of the class
    lists some language whose name begins with the language part of the
    browser's code (in lower case) and an underscore, a code
    [ll-CC;q=...] is always answered from that code and never by the
    default or a later code: with [ll_CC] when that translation exists,
    and with [ll] otherwise. *)
Theorem get_closest_finds_listed_language
    (load : string -> result T) (languages : list string)
    (translations : gmap string T)
    (language L R q territory : string) (rest : list string) :
  translations_of T load languages = Ok translations ->
  plain L -> plain R ->
  In (Str.lower L +:+ "_" +:+ territory) languages ->
  get_closest T translations language ((L +:+ "-" +:+ R +:+ ";" +:+ q) :: rest)
  = if has T translations (Str.lower L +:+ "_" +:+ Str.upper R)
    then Str.lower L +:+ "_" +:+ Str.upper R
    else Str.lower L.
Proof.
  intros Hload (HL1 & HL2 & HL3) (HR1 & HR2 & HR3) Hin.
  assert (Hlow : Str.find "_" (Str.lower L) = None) by now rewrite find_lower.
  assert (Hshort : has T translations (Str.lower L) = true).
  { apply has_true. apply (load_translations_keys load languages _ _ Hload).
    right. eexists. split; [exact Hin|]. right. unfold short.
    change (Str.lower L +:+ "_" +:+ territory)
      with (Str.lower L +:+ String "_" territory).
    now rewrite split_append. }
  cbn [get_closest].
  assert (Hcode : Str.find ";" (L +:+ "-" +:+ R) = None).
  { apply find_append_none; [exact HL1|].
    change ("-" +:+ R) with (String "-" R). cbn [Str.find]. now rewrite HR1. }
  replace (L +:+ "-" +:+ R +:+ ";" +:+ q)
    with ((L +:+ "-" +:+ R) +:+ String ";" q).
  2:{ rewrite append_assoc. reflexivity. }
  rewrite (find_append ";" _ q Hcode).
  assert (Hlen : exists n, String.length (L +:+ "-" +:+ R) = S n).
  { clear. induction L as [|c L IH]; cbn; eauto. }
  destruct Hlen as (n & Hn). rewrite Hn, <- Hn, take_append.
  replace (Str.is_empty _) with false.
  2:{ clear. now destruct L. }
  change (L +:+ "-" +:+ R) with (L +:+ String "-" R).
  rewrite replace_append. cbn [Str.replace]. rewrite Ascii.eqb_refl.
  rewrite !replace_absent by assumption.
  rewrite split_append by exact HL3. rewrite split_absent by exact HR3.
  destruct (has T translations (Str.lower L +:+ "_" +:+ Str.upper R));
    [reflexivity|]. now rewrite Hshort.
Qed.

Lemma get_closest_rest (translations : gmap string T) (language code : string)
    (rest rest' : list string) :
  get_closest T translations language rest
  = get_closest T translations language rest' ->
  get_closest T translations language (code :: rest)
  = get_closest T translations language (code :: rest').
Proof. intros H. cbn [get_closest]. now rewrite H. Qed.

Lemma get_closest_skips_blank (translations : gmap string T)
    (language code : string) (rest : list string) :
  (forall k, is_Some (translations !! k) -> Str.startswith k " " = false) ->
  get_closest T translations language ((" " +:+ code) :: rest)
  = get_closest T translations language rest.
Proof.
  intros Hkeys.
  assert (Hhas : forall x, has T translations (String " " x) = false).
  { intros x. destruct (has T translations (String " " x)) eqn:E; [|reflexivity].
    apply has_true, Hkeys in E. unfold Str.startswith in E. cbn in E.
    destruct x; discriminate. }
  change (" " +:+ code) with (String " " code).
  cbn [get_closest Str.is_empty Str.find].
  change (Ascii.eqb " " ";") with false. cbn iota.
  assert (Hform : exists x,
             match
               match Str.find ";" code with
               | Some n => Some (S n)
               | None => None
               end
             with
             | Some (S q) => Str.take (S q) (String " " code)
             | _ => String " " code
             end = String " " x).
  { destruct (Str.find ";" code) as [n|]; eauto. }
  destruct Hform as (x & ->). cbn [Str.replace].
  change (Ascii.eqb " " "-") with false. cbn iota. cbn [Str.split].
  change (Ascii.eqb " " "_") with false. cbn iota.
  destruct (Str.split "_" (Str.replace "-" "_" x)) as [|p [|p1 [|p2 ps]]];
    try reflexivity.
  - cbn [Str.lower]. change (Str.lower_char " ") with " "%char.
    now rewrite !Hhas.
  - cbn [Str.lower]. change (Str.lower_char " ") with " "%char.
    now rewrite !Hhas.
  - cbn [Str.lower]. change (Str.lower_char " ") with " "%char.
    change (String " " (Str.lower p) +:+ "_" +:+ Str.upper p1)
      with (String " " (Str.lower p +:+ "_" +:+ Str.upper p1)).
    now rewrite !Hhas.
Qed.

Lemma split_accept_language (codes : list string) :
  forall code,
    Str.find "," code = None ->
    Forall (fun c => Str.find "," c = None) codes ->
    Str.split "," (accept_language code codes)
    = code :: map (String.append " ") codes.
Proof.
  unfold accept_language.
  induction codes as [|c codes IH]; intros code Hcode Hcodes.
  - cbn [foldr map]. rewrite append_empty_r. now apply split_absent.
  - inversion Hcodes as [|? ? Hc Hrest]; subst. cbn [foldr map].
    change (", " +:+ c +:+ foldr (fun c rest => ", " +:+ c +:+ rest) "" codes)
      with (String "," (" " +:+ c +:+ foldr (fun c rest => ", " +:+ c +:+ rest) "" codes)).
    rewrite split_append by exact Hcode. f_equal.
    rewrite <- append_assoc. apply IH; [|exact Hrest].
    change (" " +:+ c) with (String " " c). cbn [Str.find].
    change (Ascii.eqb " " ",") with false. now rewrite Hc.
Qed.

(** X20: of an [Accept-Language] header in its usual form, with a blank
    after each comma, a new handler considers the first code only: the
    header is split at the commas and the blanks are never stripped, so
    no later code is found among the translations.  The language of the
    handler is the answer for the first code alone. *)
Theorem only_the_first_accepted_language_counts
    (translations : gmap string T) (default_language code : string)
    (codes : list string) :
  (forall k, is_Some (translations !! k) -> Str.startswith k " " = false) ->
  Str.find "," code = None ->
  Forall (fun c => Str.find "," c = None) codes ->
  (choose_language translations default_language
     (accept_language code codes)).1.1
  = get_closest T translations default_language [code].
Proof.
  intros Hkeys Hcode Hcodes. unfold choose_language. cbn [fst].
  destruct (Str.is_empty (accept_language code codes)) eqn:Hempty.
  - unfold accept_language in Hempty. destruct code; [reflexivity|discriminate].
  - rewrite (split_accept_language codes code Hcode Hcodes).
    apply get_closest_rest. clear Hcodes Hempty.
    induction codes as [|c codes IH]; [reflexivity|].
    cbn [map]. now rewrite get_closest_skips_blank.
Qed.

End I18nFacts.

(** ** The module name of a handler class *)

Section MetaFacts.

Lemma take_drop (n : nat) (s : string) : Str.take n s +:+ Str.drop n s = s.
Proof.
  unfold Str.take. revert n. induction s as [|c s IH]; intros [|n];
    try reflexivity.
  cbn [String.substring Str.drop String.append]. now rewrite IH.
Qed.

(** X21: the module name leads back to the module of the class.  For a
    handler class defined in a module [package.www] that does not set
    [_module_name] itself, the module name is [package]; and
    [get_module] for that name and the type [www] consults the importer
    for the defining module alone. *)
Theorem module_name_leads_back_to_module
    (module E : Type) (import import' : string -> module + E)
    (getattr : module -> string -> module + E)
    (defined_in : string) (auto_load : bool)
    (MODULES : gmap string (gmap string module)) :
  Str.endswith defined_in ".www" = true ->
  Meta._module_name None defined_in +:+ ".www" = defined_in
  /\ (import defined_in = import' defined_in ->
      Registry.get_module module E import getattr
        (Meta._module_name None defined_in) "www" auto_load MODULES
      = Registry.get_module module E import' getattr
          (Meta._module_name None defined_in) "www" auto_load MODULES).
Proof.
  intros Hend.
  assert (Hname : Meta._module_name None defined_in +:+ ".www" = defined_in).
  { unfold Meta._module_name. rewrite Hend. unfold Str.endswith in Hend.
    apply andb_true_iff in Hend as [Hlen Hsuffix].
    apply String.eqb_eq in Hsuffix. cbn [String.length] in Hsuffix.
    transitivity (Str.take (String.length defined_in - 4) defined_in
                  +:+ Str.drop (String.length defined_in - 4) defined_in);
      [now rewrite Hsuffix | apply take_drop]. }
  split; [exact Hname|]. intros Himport. unfold Registry.get_module.
  change (Meta._module_name None defined_in +:+ "." +:+ "www")
    with (Meta._module_name None defined_in +:+ ".www").
  now rewrite Hname, Himport.
Qed.

End MetaFacts.

(** ** The compilation and the escalation of errors together *)

Section SubglobalsFacts.

Import Routing Escalation Subglobals.

Variable bases : string -> list string.

Local Abbreviation upd root parent main d :=
  (<["root_handler" := VClass root]>
     (<["parent_handler" := parent]>
        (<["main_handler" := VClass main]> d))).

Local Abbreviation mounted_visits name main :=
  (fun km : string * member HandlerType =>
     match km with
     | (_, Mount _ m) => visits m (VClass name) main
     | _ => []
     end).

Local Abbreviation mounted_classes :=
  (fun km : string * member HandlerType =>
     match km with
     | (_, Mount _ m) => classes m
     | _ => []
     end).

Lemma upd_root (root : string) (parent : value) (main : string)
    (d : gmap string value) :
  upd root parent main d !! "root_handler" = Some (VClass root).
Proof. apply lookup_insert_eq. Qed.

Lemma upd_parent (root : string) (parent : value) (main : string)
    (d : gmap string value) :
  upd root parent main d !! "parent_handler" = Some parent.
Proof. rewrite lookup_insert_ne by discriminate. apply lookup_insert_eq. Qed.

Lemma upd_main (root : string) (parent : value) (main : string)
    (d : gmap string value) :
  upd root parent main d !! "main_handler" = Some (VClass main).
Proof.
  rewrite !lookup_insert_ne by discriminate. apply lookup_insert_eq.
Qed.

Lemma holder_none (st : store) (mro : list string) :
  (forall b, In b mro -> st !! b = None) -> holder st mro = None.
Proof.
  induction mro as [|b mro IH]; intros H; [reflexivity|].
  cbn [holder]. rewrite (H b (or_introl eq_refl)). apply IH.
  intros b' Hb'. apply H. now right.
Qed.

Lemma record_own (root c : string) (parent : value) (main : string) (st : store) :
  (forall b, In b (bases c) -> st !! b = None) ->
  record bases root (c, parent, main) st
  = <[c := upd root parent main (default ∅ (st !! c))]> st.
Proof.
  intros Hbases. unfold record. cbn [holder].
  destruct (st !! c) as [d|] eqn:Hc.
  - rewrite Hc. now rewrite Hc.
  - rewrite (holder_none st (bases c) Hbases).
    rewrite lookup_insert_eq. cbn [default from_option id].
    rewrite lookup_insert_eq. cbn [default from_option id]. apply insert_insert_eq.
Qed.

Lemma visits_classes (h : HandlerType) :
  forall parent main, map (fun v => v.1.1) (visits h parent main) = classes h.
Proof.
  remember (size h) as n eqn:Hn. revert h Hn.
  induction n as [n IH] using lt_wf_ind. intros [name b ms] Hn parent main.
  cbn [visits classes map fst]. f_equal.
  assert (Hms : forall key q m, In (key, Mount q m) ms ->
                  forall parent main,
                    map (fun v => v.1.1) (visits m parent main) = classes m).
  { intros key q m Hin. apply (IH (size m)); [|reflexivity].
    subst n. eapply mounted_size, Hin. }
  clear IH Hn. generalize (if b then name else main). intros main'.
  induction ms as [|[key [q m|local t|]] ms IHms]; cbn [flat_map]; try reflexivity.
  - rewrite map_app. f_equal.
    + apply (Hms key q m). now left.
    + apply IHms. intros key' q' m' Hin. apply (Hms key' q' m'). now right.
  - apply IHms. intros key' q' m' Hin. apply (Hms key' q' m'). now right.
  - apply IHms. intros key' q' m' Hin. apply (Hms key' q' m'). now right.
Qed.

(** The loop with the store returns what the loop without it returns,
    and when it succeeds it has recorded the visits of the mounted
    handlers. *)
Lemma members_loop_store
    (rec : HandlerType -> string -> store -> store * result (list Rule))
    (rec0 : HandlerType -> string -> result (list Rule))
    (vis : HandlerType -> list (string * value * string))
    (root : string) (h : HandlerType) (req_type prefix : string)
    (ms : list (string * member HandlerType)) :
  (forall key q m p st, In (key, Mount q m) ms ->
     (rec m p st).2 = rec0 m p
     /\ (forall l, (rec m p st).2 = Ok l ->
           (rec m p st).1 = foldl (fun st v => record bases root v st) st (vis m))) ->
  forall ret st,
    (Subglobals.members_loop rec h req_type prefix ms ret st).2
    = Routing.members_loop rec0 h req_type prefix ms ret
    /\ (forall l,
          (Subglobals.members_loop rec h req_type prefix ms ret st).2 = Ok l ->
          (Subglobals.members_loop rec h req_type prefix ms ret st).1
          = foldl (fun st v => record bases root v st) st
              (flat_map (fun km : string * member HandlerType =>
                           match km with
                           | (_, Mount _ m) => vis m
                           | _ => []
                           end) ms)).
Proof.
  induction ms as [|[key value] ms IH]; intros Hrec ret st.
  - cbn. auto.
  - assert (Hrec' : forall key q m p st, In (key, Mount q m) ms ->
               (rec m p st).2 = rec0 m p
               /\ (forall l, (rec m p st).2 = Ok l ->
                     (rec m p st).1
                     = foldl (fun st v => record bases root v st) st (vis m)))
      by (intros; eapply Hrec; right; eauto).
    specialize (IH Hrec').
    destruct value as [q m|local [t|]|];
      cbn [Subglobals.members_loop Routing.members_loop flat_map].
    + destruct (Hrec key q m (prefix +:+ q) st (or_introl eq_refl)) as [Hres Hst].
      destruct (rec m (prefix +:+ q) st) as [st1 [sub|e]]; cbn [fst snd] in *;
        rewrite <- Hres; cbn [mbind result_bind].
      * rewrite foldl_app, <- (Hst sub eq_refl). apply IH.
      * split; [reflexivity|discriminate].
    + destruct (String.eqb t req_type); cbn [app]; apply IH.
    + apply IH.
    + apply IH.
Qed.

Lemma _generate_routing_store (root : string) (h : HandlerType) :
  forall parent main req_type prefix st,
    (Subglobals._generate_routing bases root h parent main req_type prefix st).2
    = Routing._generate_routing h req_type prefix
    /\ (forall l,
          (Subglobals._generate_routing bases root h parent main req_type prefix st).2
          = Ok l ->
          (Subglobals._generate_routing bases root h parent main req_type prefix st).1
          = foldl (fun st v => record bases root v st) st (visits h parent main)).
Proof.
  remember (size h) as n eqn:Hn. revert h Hn.
  induction n as [n IH] using lt_wf_ind.
  intros [name b ms] Hn parent main req_type prefix st.
  rewrite _generate_routing_unfold.
  cbn [Subglobals._generate_routing visits foldl].
  set (main' := if b then name else main).
  set (st1 := record bases root (name, parent, main') st).
  destruct (members_loop_store
              (fun m p st => Subglobals._generate_routing bases root m (VClass name)
                               main' req_type p st)
              (fun m p => Routing._generate_routing m req_type p)
              (fun m => visits m (VClass name) main')
              root (Class name b ms) req_type prefix ms) with (ret := @nil Rule) (st := st1)
    as [Hres Hst].
  { intros key q m p st' Hin. apply (IH (size m)); [|reflexivity].
    subst n. eapply mounted_size, Hin. }
  destruct (Subglobals.members_loop _ _ _ _ _ _ _) as [st2 [ret|e]];
    cbn [fst snd] in *; rewrite <- Hres; cbn [mbind result_bind].
  - split; [reflexivity|]. intros l _. exact (Hst ret eq_refl).
  - split; [reflexivity|discriminate].
Qed.

(** What a pass over visits of distinct classes that own their attribute
    leaves in the store. *)
Lemma record_all (root : string) (V : list (string * value * string)) :
  forall st : store,
    NoDup (map (fun v => v.1.1) V) ->
    (forall c b, In c (map (fun v => v.1.1) V) -> In b (bases c) ->
       st !! b = None /\ ~ In b (map (fun v => v.1.1) V)) ->
    let st' := foldl (fun st v => record bases root v st) st V in
    (forall k, ~ In k (map (fun v => v.1.1) V) -> st' !! k = st !! k)
    /\ (forall c parent main, In (c, parent, main) V ->
          st' !! c = Some (upd root parent main (default ∅ (st !! c)))).
Proof.
  induction V as [|[[c parent] main] V IH]; intros st Hnd Hown; cbn zeta.
  - split; [reflexivity|contradiction].
  - cbn [map fst foldl] in *. apply NoDup_cons in Hnd as [Hc Hnd].
    rewrite list_elem_of_In in Hc.
    rewrite record_own by (intros b Hb; now apply (Hown c b); [left|]).
    set (st1 := <[c := _]> st).
    destruct (IH st1 Hnd) as [Hkeep Hnew].
    { intros c' b Hc' Hb. destruct (Hown c' b (or_intror Hc') Hb) as [Hst Hnot].
      split; [|intros H; apply Hnot; now right].
      unfold st1. rewrite lookup_insert_ne; [exact Hst|].
      intros ->. apply Hnot. now left. }
    split.
    + intros k Hk. rewrite Hkeep by (intros H; apply Hk; now right).
      unfold st1. apply lookup_insert_ne. intros ->. apply Hk. now left.
    + intros c' parent' main' [E|Hin].
      * inversion E; subst c' parent' main'. rewrite (Hkeep c Hc).
        unfold st1. apply lookup_insert_eq.
      * rewrite (Hnew c' parent' main' Hin). unfold st1.
        rewrite lookup_insert_ne; [reflexivity|].
        intros ->. apply Hc. apply in_map_iff. now exists (c', parent', main').
Qed.


Lemma pass_store (root : HandlerType) (req_type : string) (st st' : store)
    (l : list Rule) :
  Subglobals._generate_routing bases (__name__ root) root VNone (__name__ root)
    req_type "" st = (st', Ok l) ->
  NoDup (classes root) ->
  own_attributes bases st root ->
  Routing._generate_routing root req_type "" = Ok l
  /\ own_attributes bases st' root
  /\ (forall c parent main,
        In (c, parent, main) (visits root VNone (__name__ root)) ->
        st' !! c
        = Some (upd (__name__ root) parent main (default ∅ (st !! c)))).
Proof.
  intros Hrun Hnd Hown.
  destruct (_generate_routing_store (__name__ root) root VNone (__name__ root)
              req_type "" st) as [Hres Hst].
  rewrite Hrun in Hres, Hst. cbn [fst snd] in Hres, Hst.
  specialize (Hst l eq_refl). split; [now rewrite <- Hres|].
  destruct (record_all (__name__ root) (visits root VNone (__name__ root)) st)
    as [Hkeep Hnew].
  { now rewrite visits_classes. }
  { rewrite visits_classes. exact Hown. }
  cbn zeta in Hkeep, Hnew. rewrite <- Hst in Hkeep, Hnew.
  rewrite visits_classes in Hkeep. split; [|exact Hnew].
  intros c b Hc Hb. destruct (Hown c b Hc Hb) as [Hnone Hnot].
  split; [|exact Hnot]. now rewrite Hkeep.
Qed.

Lemma generate_routing_store (root : HandlerType) (st st' : store)
    (table : gmap string (list Rule)) :
  Subglobals.generate_routing bases root st = (st', Ok table) ->
  NoDup (classes root) ->
  own_attributes bases st root ->
  Routing.generate_routing root = Ok table
  /\ (forall c parent main,
        In (c, parent, main) (visits root VNone (__name__ root)) ->
        exists d,
          template_subglobals bases st' c
          = Some (upd (__name__ root) parent main d)).
Proof.
  intros Hrun Hnd Hown. unfold Subglobals.generate_routing in Hrun.
  cbn [foldl req_types] in Hrun.
  destruct (Subglobals._generate_routing bases _ root VNone _ "get" "" st)
    as [st1 [g|e]] eqn:H1.
  2:{ cbn in Hrun. discriminate. }
  destruct (pass_store root "get" st st1 g H1 Hnd Hown) as (Hg & Hown1 & _).
  destruct (Subglobals._generate_routing bases _ root VNone _ "post" "" st1)
    as [st2 [p|e]] eqn:H2.
  2:{ cbn in Hrun. discriminate. }
  destruct (pass_store root "post" st1 st2 p H2 Hnd Hown1) as (Hp & Hown2 & _).
  destruct (Subglobals._generate_routing bases _ root VNone _ "put" "" st2)
    as [st3 [u|e]] eqn:H3.
  2:{ cbn in Hrun. discriminate. }
  destruct (pass_store root "put" st2 st3 u H3 Hnd Hown2) as (Hu & Hown3 & _).
  destruct (Subglobals._generate_routing bases _ root VNone _ "delete" "" st3)
    as [st4 [d|e]] eqn:H4.
  2:{ discriminate. }
  destruct (pass_store root "delete" st3 st4 d H4 Hnd Hown3) as (Hd & Hown4 & Hnew).
  inversion Hrun; subst st' table. split.
  - rewrite generate_routing_unfold, Hg, Hp, Hu, Hd. reflexivity.
  - intros c parent main Hin. exists (default ∅ (st3 !! c)).
    unfold template_subglobals. cbn [holder].
    rewrite (Hnew c parent main Hin). cbn. apply Hnew, Hin.
Qed.

Lemma visits_root (root : HandlerType) (parent : value) (main : string) :
  exists main', In (__name__ root, parent, main') (visits root parent main)
    /\ match root with
       | Class n true _ => main' = n
       | _ => main' = main
       end.
Proof.
  destruct root as [n [|] ms]; cbn [visits __name__]; eexists; split;
    try (left; reflexivity); reflexivity.
Qed.

Lemma visits_mounted (r : HandlerType) (qs : list string) (q : HandlerType) :
  mounted_under r qs q ->
  forall key frag h parent main,
    In (key, Mount frag h) (getmembers q) ->
    (exists main',
        In (__name__ h, VClass (__name__ q), main') (visits r parent main)
        /\ match h with
           | Class n true _ => main' = n
           | _ => True
           end)
    /\ (NoDup (classes r) -> __name__ h <> __name__ q).
Proof.
  induction 1 as [r|r key0 frag0 m qs q Hin0 Hunder IH];
    intros key frag h parent main Hin.
  - destruct r as [n b ms]. cbn [getmembers __name__] in *.
    cbn [visits classes].
    set (main0 := if b then n else main).
    destruct (visits_root h (VClass n) main0) as (main' & Hhead & Hmain).
    split.
    + exists main'. split.
      * right. apply in_flat_map. exists (key, Mount frag h). split; [exact Hin|].
        exact Hhead.
      * destruct h as [n' [|] ms']; [exact Hmain|exact I].
    + intros Hnd. apply NoDup_cons in Hnd as [Hn _]. intros E. apply Hn.
      rewrite <- E. apply list_elem_of_In, in_flat_map.
      exists (key, Mount frag h). split; [exact Hin|].
      destruct h as [n' b' ms']. now left.
  - destruct r as [n b ms]. cbn [getmembers] in Hin0. cbn [visits classes].
    set (main0 := if b then n else main).
    destruct (IH key frag h (VClass n) main0 Hin) as [(main' & Hv & Hmain) Hne].
    split.
    + exists main'. split; [|exact Hmain].
      right. apply in_flat_map. exists (key0, Mount frag0 m). split; [exact Hin0|].
      exact Hv.
    + intros Hnd. apply Hne. apply NoDup_cons in Hnd as [_ Hnd].
      apply in_split in Hin0 as (ms1 & ms2 & ->).
      rewrite flat_map_app in Hnd. cbn [flat_map] in Hnd.
      apply NoDup_app in Hnd as (_ & _ & Hnd).
      now apply NoDup_app in Hnd as (Hnd & _ & _).
Qed.

Lemma mounted_under_root (r h : HandlerType) : mounted_under r [] h -> h = r.
Proof. now inversion 1. Qed.

Lemma mounted_under_last (qs : list string) :
  forall (r : HandlerType) (frag : string) (h : HandlerType),
    mounted_under r (qs ++ [frag]) h ->
    exists q key, mounted_under r qs q /\ In (key, Mount frag h) (getmembers q).
Proof.
  induction qs as [|a qs IH]; intros r frag h Hunder.
  - inversion Hunder as [|? key q m qs' h' Hin Hrest]; subst.
    apply mounted_under_root in Hrest as ->.
    exists r, key. split; [constructor|exact Hin].
  - inversion Hunder as [|? key q m qs' h' Hin Hrest]; subst.
    destruct (IH _ _ _ Hrest) as (q' & key' & Hq' & Hin').
    exists q', key'. split; [|exact Hin'].
    econstructor; eauto.
Qed.

(** X22: the compilation records the mount tree on the classes.  When
    [generate_routing] succeeds on a tree in which every class is
    mounted once and none inherits [template_subglobals], it has
    returned the table of the routes, and afterwards the root handler
    class has [parent_handler] [None], and every class mounted in the
    tree names as [parent_handler] the class that mounts it, as
    [root_handler] the root, and as [main_handler] itself when it is a
    [RequestHandler] subclass. *)
Theorem generate_routing_records_mount_tree
    (root : HandlerType) (st st' : store) (table : gmap string (list Rule)) :
  Subglobals.generate_routing bases root st = (st', Ok table) ->
  NoDup (classes root) ->
  own_attributes bases st root ->
  Routing.generate_routing root = Ok table
  /\ (exists d,
        template_subglobals bases st' (__name__ root) = Some d
        /\ d !! "parent_handler" = Some VNone
        /\ d !! "root_handler" = Some (VClass (__name__ root)))
  /\ (forall qs q key frag h,
        mounted_under root qs q ->
        In (key, Mount frag h) (getmembers q) ->
        exists d,
          template_subglobals bases st' (__name__ h) = Some d
          /\ d !! "parent_handler" = Some (VClass (__name__ q))
          /\ d !! "root_handler" = Some (VClass (__name__ root))
          /\ match h with
             | Class n true _ => d !! "main_handler" = Some (VClass n)
             | _ => True
             end).
Proof.
  intros Hrun Hnd Hown.
  destruct (generate_routing_store root st st' table Hrun Hnd Hown) as [Htable Hst].
  split; [exact Htable|]. split.
  - destruct (visits_root root VNone (__name__ root)) as (main' & Hin & _).
    destruct (Hst _ _ _ Hin) as (d & Hd). eexists. split; [exact Hd|].
    split; [apply upd_parent|apply upd_root].
  - intros qs q key frag h Hunder Hin.
    destruct (visits_mounted root qs q Hunder key frag h VNone (__name__ root) Hin)
      as [(main' & Hv & Hmain) _].
    destruct (Hst _ _ _ Hv) as (d & Hd). eexists. split; [exact Hd|].
    split; [apply upd_parent|]. split; [apply upd_root|].
    destruct h as [n [|] ms]; [|exact I]. subst main'. apply upd_main.
Qed.

Lemma via_root (root : HandlerType) (st st' : store)
    (table : gmap string (list Rule)) :
  Subglobals.generate_routing bases root st = (st', Ok table) ->
  NoDup (classes root) ->
  own_attributes bases st root ->
  forall qs q,
    mounted_under root qs q ->
    exists cs,
      Lifecycle.via (subglobals_of bases st') (__name__ q) cs (__name__ root)
      /\ length cs = length qs.
Proof.
  intros Hrun Hnd Hown.
  destruct (generate_routing_store root st st' table Hrun Hnd Hown) as [_ Hst].
  induction qs as [|frag qs IH] using rev_ind; intros q Hunder.
  - apply mounted_under_root in Hunder as ->. exists []. split; [|reflexivity].
    constructor. unfold terminal, Escalation.__init__, subglobals_of.
    destruct (visits_root root VNone (__name__ root)) as (main' & Hin & _).
    destruct (Hst _ _ _ Hin) as (d & ->). cbn [default from_option id].
    now rewrite (lookup_union_Some_l _ _ _ _ (upd_parent _ VNone _ d)).
  - destruct (mounted_under_last qs root frag q Hunder) as (q' & key & Hq' & Hin).
    destruct (IH q' Hq') as (cs & Hvia & Hlen).
    exists (__name__ q' :: cs). split.
    2:{ rewrite length_app. cbn. lia. }
    destruct (visits_mounted root qs q' Hq' key frag q VNone (__name__ root) Hin)
      as [(main' & Hv & _) Hne].
    apply Lifecycle.via_step; [| |exact Hvia].
    + unfold Escalation.__init__, subglobals_of.
      destruct (Hst _ _ _ Hv) as (d & ->). cbn [default from_option id].
      apply lookup_union_Some_l, upd_parent.
    + intros E. now apply (Hne Hnd).
Qed.

(** X23: in a compiled application every error reaches the root.  After
    a successful [generate_routing] on a tree in which every class is
    mounted once and none inherits [template_subglobals], [on_error] on
    an instance of any handler class of the tree, however deep it is
    mounted, ends with an instance of the root handler class, which
    renders the error with the given status code. *)
Theorem errors_escalate_to_the_root
    (root : HandlerType) (st st' : store) (table : gmap string (list Rule))
    (qs : list string) (h : HandlerType) (self : instance)
    (depth status : nat) :
  Subglobals.generate_routing bases root st = (st', Ok table) ->
  NoDup (classes root) ->
  own_attributes bases st root ->
  mounted_under root qs h ->
  __class__ self = __name__ h ->
  items self !! "parent_handler"
  = subglobals_of bases st' (__name__ h) !! "parent_handler" ->
  length qs < depth ->
  exists entries,
    on_error (subglobals_of bases st') depth self status
    = Ok {| by_handler := {| __class__ := __name__ root; items := entries |};
            status_code := status |}.
Proof.
  intros Hrun Hnd Hown Hunder Hclass Hparent Hdepth.
  destruct (generate_routing_store root st st' table Hrun Hnd Hown) as [_ Hst].
  destruct depth as [|depth]; [lia|].
  destruct self as [c entries]. cbn [__class__ items] in *. subst c.
  destruct qs as [|frag qs _] using rev_ind.
  - apply mounted_under_root in Hunder as ->.
    exists entries. cbn [on_error items]. rewrite Hparent.
    unfold subglobals_of.
    destruct (visits_root root VNone (__name__ root)) as (main' & Hin & _).
    destruct (Hst _ _ _ Hin) as (d & ->). cbn [default from_option id].
    now rewrite upd_parent.
  - destruct (mounted_under_last qs root frag h Hunder) as (q & key & Hq & Hin).
    destruct (via_root root st st' table Hrun Hnd Hown qs q Hq) as (cs & Hvia & Hlen).
    destruct (visits_mounted root qs q Hq key frag h VNone (__name__ root) Hin)
      as [(main' & Hv & _) Hne].
    assert (Hph : entries !! "parent_handler" = Some (VClass (__name__ q))).
    { rewrite Hparent. unfold subglobals_of.
      destruct (Hst _ _ _ Hv) as (d & ->). apply upd_parent. }
    cbn [on_error items __class__]. rewrite Hph. cbn [truthy is_not_class andb].
    replace (String.eqb (__name__ q) (__name__ h)) with false.
    2:{ symmetry. apply String.eqb_neq. intros E. now apply (Hne Hnd). }
    cbn [negb construct items]. rewrite copy_missing_union.
    rewrite length_app in Hdepth. cbn in Hdepth.
    erewrite (on_error_via _ (__name__ q) (__name__ root) cs Hvia entries depth status Hph);
      [eauto|lia].
Qed.

End SubglobalsFacts.

(** ** The module registry ([rw.get_module]) *)

Section RegistryFacts.

Import Registry.

Variables (module E : Type).

(** X24: the registry is a cache that only grows.  A call never
    replaces or removes an entry; with [auto_load=False] it changes
    nothing; and once a call has returned a module, every later call for
    the same name and type returns that module without importing
    anything, whatever the importer would answer. *)
Theorem get_module_caches
    (import import' : string -> module + E)
    (getattr getattr' : module -> string -> module + E)
    (name type : string) (auto_load : bool)
    (MODULES MODULES' : gmap string (gmap string module))
    (res : outcome E module) :
  get_module module E import getattr name type auto_load MODULES
  = (MODULES', res) ->
  (forall t loaded n m,
      MODULES !! t = Some loaded -> loaded !! n = Some m ->
      exists loaded', MODULES' !! t = Some loaded' /\ loaded' !! n = Some m)
  /\ (auto_load = false -> MODULES' = MODULES)
  /\ (forall mod_, res = Returned mod_ ->
        forall auto_load',
          get_module module E import' getattr' name type auto_load' MODULES'
          = (MODULES', Returned mod_)).
Proof.
  unfold get_module. intros Hcall.
  destruct (MODULES !! type) as [loaded|] eqn:Htype.
  2:{ inversion Hcall; subst. repeat split; eauto; discriminate. }
  destruct (loaded !! name) as [m0|] eqn:Hname.
  { inversion Hcall; subst. split; [eauto|]. split; [reflexivity|].
    intros mod_ [= <-] auto_load'. now rewrite Htype, Hname. }
  destruct auto_load.
  2:{ inversion Hcall; subst. repeat split; eauto; discriminate. }
  assert (Hkeep : forall mod_ t loaded0 n m,
             MODULES !! t = Some loaded0 -> loaded0 !! n = Some m ->
             exists loaded',
               <[type := <[name := mod_]> loaded]> MODULES !! t = Some loaded'
               /\ loaded' !! n = Some m).
  { intros mod_ t loaded0 n m Ht Hn.
    destruct (decide (type = t)) as [<-|Hne].
    - rewrite lookup_insert_eq. eexists. split; [reflexivity|].
      rewrite Htype in Ht. inversion Ht; subst loaded0.
      rewrite lookup_insert_ne; [exact Hn|]. intros <-. congruence.
    - rewrite lookup_insert_ne by exact Hne. eauto. }
  destruct (import _) as [mod_|e].
  2:{ inversion Hcall; subst. repeat split; eauto; discriminate. }
  destruct (if Str.contains "." name then _ else _) as [mod'|e].
  2:{ inversion Hcall; subst. repeat split; eauto; discriminate. }
  inversion Hcall; subst. split; [apply Hkeep|]. split; [discriminate|].
  intros mod0 [= <-] auto_load'.
  now rewrite lookup_insert_eq, lookup_insert_eq.
Qed.

End RegistryFacts.

(** ** The route decorators *)

Section DecoratorFacts.

Import Decorators.

Lemma decorate_app (ds1 ds2 : list (function -> option function)) (f : function) :
  decorate (ds1 ++ ds2) f
  = match decorate ds1 f with
    | Some f' => decorate ds2 f'
    | None => None
    end.
Proof.
  revert f. induction ds1 as [|d ds1 IH]; intros f; [reflexivity|].
  cbn [app decorate]. destruct (d f); [apply IH|reflexivity].
Qed.

Lemma decorate_passes (ds : list (function -> option function)) :
  Forall (fun d => exists verb path, d = wrapper verb path) ds ->
  forall f, f !! "route" = None ->
    exists f', decorate ds f = Some f' /\ f' !! "route" = None.
Proof.
  induction 1 as [|d ds (verb & path & ->) _ IH]; intros f Hf; [now exists f|].
  cbn [decorate]. unfold wrapper at 1. rewrite Hf. apply IH.
  now rewrite !lookup_insert_ne by discriminate.
Qed.

(** X25: decorators stacked on one function never trip the assertion,
    which looks for an attribute the decorators do not set; the function
    ends up with the route and the request type of the outermost
    decorator alone, so that the compilation sees one route in it and
    the inner annotations are lost. *)
Theorem stacked_decorators_keep_the_outermost
    (ds : list (function -> option function))
    (verb path : string) (f : function) (H : Type) :
  Forall (fun d => exists verb path, d = wrapper verb path) ds ->
  f !! "route" = None ->
  exists f',
    decorate (ds ++ [wrapper verb path]) f = Some f'
    /\ @as_member H f' = Routing.Routed path (Some verb).
Proof.
  intros Hds Hf. rewrite decorate_app.
  destruct (decorate_passes ds Hds f Hf) as (f1 & -> & Hf1).
  cbn [decorate]. unfold wrapper. rewrite Hf1.
  eexists. split; [reflexivity|]. unfold as_member.
  rewrite lookup_insert_ne by discriminate. rewrite lookup_insert_eq.
  now rewrite lookup_insert_eq.
Qed.

End DecoratorFacts.

(** ** From the URL of an asset back to its content *)

Section RoundTripFacts.

Import Static Dispatch.

Variable resource_string : string -> string -> option string.
Variable get_module_main : string -> result HandlerType.
Variable md5_hexdigest : string -> string.
Variable guess_type : string -> option string.
Variable M : Type.
Variable DEBUG : bool.
Variable routes : gmap string (list Routing.Rule).
Variable rule_match : Routing.Rule -> string -> option M.
Variable unquote : string -> string.
Variable sys_modules www_loaded : string -> bool.
Variable plugs : list plug.

Lemma lstrip_no_slash (m s : string) :
  m <> "" -> Str.contains "/" m = false ->
  Str.lstrip_slash (m +:+ s) = m +:+ s.
Proof.
  destruct m as [|c m]; [contradiction|]. intros _ Hm.
  cbn [Str.contains String.prefix] in Hm.
  cbn [String.append Str.lstrip_slash]. unfold Str.is_slash, Str.slash.
  destruct (Ascii.eqb_spec c "/") as [->|Hc]; [|reflexivity].
  destruct m; discriminate.
Qed.

Lemma rstrip_append (a b : string) :
  Str.rstrip_slash b <> "" ->
  Str.rstrip_slash (a +:+ b) = a +:+ Str.rstrip_slash b.
Proof.
  intros Hb. induction a as [|c a IH]; [reflexivity|].
  cbn [String.append Str.rstrip_slash]. rewrite IH.
  destruct (a +:+ Str.rstrip_slash b) eqn:E.
  - destruct a; [contradiction|discriminate].
  - cbn [Str.is_empty]. now rewrite andb_false_r.
Qed.

Lemma split1_append (m f : string) :
  Str.contains "/" m = false ->
  Str.split1 "/" (m +:+ "/" +:+ f) = Some (m, f).
Proof.
  induction m as [|c m IH]; intros Hm.
  - reflexivity.
  - cbn [Str.contains String.prefix] in Hm.
    apply orb_false_iff in Hm as [Hc Hm].
    change (String c m +:+ "/" +:+ f) with (String c (m +:+ "/" +:+ f)).
    cbn [Str.split1]. rewrite (IH Hm).
    destruct (Ascii.eqb_spec c "/") as [->|Hne]; [|reflexivity].
    destruct m; discriminate.
Qed.

(** X26: the URL that [static(fname)] hands out leads back to the
    content it was made from.  For an asset of the [Main] handler of a
    module, the path of the URL is dispatched to the static handler of
    that module with the asset name as request path; when the URL
    carries a digest, the static handler answers with exactly the
    content the digest was taken of, and when it carries [ERR] the
    static handler answers 404. *)
Theorem static_url_round_trip
    (self : HandlerType) (fname : string) (obj : StaticObject.t)
    (uri method : string) :
  Static.__call__ resource_string get_module_main md5_hexdigest self fname = Ok obj ->
  get_module_main (_module_name self) = Ok self ->
  Str.contains ":" fname = false ->
  Str.contains ".." fname = false ->
  fname <> "" ->
  Str.rstrip_slash fname = fname ->
  _module_name self <> "" ->
  Str.contains "/" (_module_name self) = false ->
  unquote (_module_name self +:+ "/" +:+ fname) = _module_name self +:+ "/" +:+ fname ->
  sys_modules (_module_name self) = true ->
  www_loaded (_module_name self) = true ->
  DEBUG && Str.contains "__debugger__" uri = false ->
  let request :=
    {| Dispatch.uri := uri;
       path := "/static/" +:+ _module_name self +:+ "/" +:+ fname;
       method := method |} in
  (exists v, StaticObject.url obj = path request +:+ "?v=" +:+ v)
  /\ Application_call M DEBUG routes rule_match unquote sys_modules www_loaded
       plugs request
     = Ok (StaticFile (_module_name self) (set_path request fname))
  /\ match StaticObject.md5sum obj with
     | Some digest =>
         exists response,
           Static.StaticFileHandler_get resource_string guess_type self fname
           = (response, Ok tt)
           /\ body response <> ""
           /\ digest = md5_hexdigest (body response)
     | None =>
         exists response,
           Static.StaticFileHandler_get resource_string guess_type self fname
           = (response, Raise (HTTPError 404))
     end.
Proof.
  intros Hcall Hmain Hcolon Hdots Hne Hstrip Hm Hslash Hunq Hsys Hwww Hdbg request.
  split; [|split].
  - unfold Static.__call__ in Hcall. rewrite Hcolon in Hcall.
    destruct (get_content resource_string self fname) as [data|e];
      [|discriminate]. cbn [mbind result_bind] in Hcall.
    destruct (if Str.is_empty data then _ else _) as [d|e]; [|discriminate].
    cbn [mbind result_bind] in Hcall.
    destruct (if truthy d then _ else _) as [md5|e]; [|discriminate].
    cbn [mbind result_bind] in Hcall. inversion Hcall; subst obj.
    unfold StaticObject.create, StaticObject.__new__, request.
    cbn [StaticObject.url path].
    destruct md5 as [h|]; [destruct (negb (Str.is_empty h))|]; eexists;
      reflexivity.
  - unfold Application_call. subst request. cbn [path Dispatch.uri]. rewrite Hdbg.
    unfold Str.startswith at 1.
    rewrite (prefix_append "/static/" (_module_name self +:+ "/" +:+ fname)).
    change (Str.drop 8 ("/static/" +:+ _module_name self +:+ "/" +:+ fname))
      with (_module_name self +:+ "/" +:+ fname).
    unfold Str.strip_slash. rewrite (lstrip_no_slash _ _ Hm Hslash).
    rewrite rstrip_append.
    2:{ change ("/" +:+ fname) with (String "/" fname). cbn [Str.rstrip_slash].
        rewrite Hstrip. destruct fname; [contradiction|].
        cbn [Str.is_empty]. rewrite andb_false_r. discriminate. }
    replace (Str.rstrip_slash ("/" +:+ fname)) with ("/" +:+ fname).
    2:{ change ("/" +:+ fname) with (String "/" fname). cbn [Str.rstrip_slash].
        rewrite Hstrip. destruct fname; [contradiction|].
        cbn [Str.is_empty]. now rewrite andb_false_r. }
    rewrite Hunq, contains_append, (split1_append _ _ Hslash), Hsys, Hwww.
    reflexivity.
  - unfold Static.__call__ in Hcall. rewrite Hcolon in Hcall.
    unfold Static.StaticFileHandler_get. rewrite Hdots.
    destruct (get_content resource_string self fname) as [data|e];
      [|discriminate]. cbn [mbind result_bind] in Hcall.
    destruct (if Str.is_empty data then _ else _) as [[|s|ps]|e];
      [| | |discriminate]; cbn [mbind result_bind truthy] in Hcall.
    + inversion Hcall; subst obj. cbn [StaticObject.md5sum StaticObject.create].
      eauto.
    + destruct s as [|c s]; cbn [Str.is_empty negb] in *;
        inversion Hcall; subst obj; cbn [StaticObject.md5sum StaticObject.create].
      * eauto.
      * eexists. split; [reflexivity|]. cbn [body]. split; [discriminate|reflexivity].
    + destruct ps as [|p ps].
      * cbn in Hcall. inversion Hcall; subst obj.
        cbn [StaticObject.md5sum StaticObject.create]. eauto.
      * cbn in Hcall. discriminate.
Qed.

End RoundTripFacts.

(** ** Examples of the further properties *)

Lemma get_content_is_depth_first_witness :
  Static.get_content Scenario.c_and_e_have_logo Scenario.A' "logo.png"
  = Ok "PNG-of-e".
Proof.
  etransitivity.
  - apply (get_content_is_depth_first Scenario.c_and_e_have_logo
             Scenario.A' "logo.png").
    intros h' [<-|[<-|[<-|[<-|[]]]]]; reflexivity.
  - reflexivity.
Defined.

Lemma dispatch_selects_first_match_witness :
  exists l1 l2,
    [Scenario.cart_rule] = l1 ++ Scenario.cart_rule :: l2
    /\ Scenario.literal_match Scenario.cart_rule "/shop/cart" = Some tt
    /\ forall r, In r l1 -> Scenario.literal_match r "/shop/cart" = None.
Proof.
  exact (proj2 (dispatch_selects_first_match unit false Scenario.cart_routes
                  Scenario.literal_match (fun s => s) Scenario.no_module
                  Scenario.no_module []
                  (Dispatch.Request "/shop/cart/" "/shop/cart/" "GET")
                  [Scenario.cart_rule] eq_refl eq_refl eq_refl eq_refl)).
Defined.

Lemma plugin_path_without_slash_raises_witness :
  Dispatch.Application_call unit false Scenario.cart_routes Scenario.literal_match
    (fun s => s) Scenario.no_module Scenario.no_module []
    (Dispatch.Request "/_p/mail" "/_p/mail" "GET")
  = Raise (ValueError "need more than 1 value to unpack").
Proof.
  apply (plugin_path_without_slash_raises unit false Scenario.cart_routes
           Scenario.literal_match (fun s => s) Scenario.no_module
           Scenario.no_module []
           (Dispatch.Request "/_p/mail" "/_p/mail" "GET") "mail");
    reflexivity.
Defined.

Lemma other_methods_raise_KeyError_witness :
  Dispatch.Application_call unit false Scenario.shop_table Scenario.literal_match
    (fun s => s) Scenario.no_module Scenario.no_module []
    (Dispatch.Request "/" "/" "HEAD")
  = Raise (KeyError "head").
Proof.
  apply (proj2 (other_methods_raise_KeyError unit Scenario.literal_match
                  (fun s => s) Scenario.no_module Scenario.no_module []
                  Scenario.shop_root Scenario.shop_table
                  (Dispatch.Request "/" "/" "HEAD")
                  compiled_shop_table eq_refl eq_refl)).
  intros [H|[H|[H|[H|[]]]]]; discriminate.
Defined.

Lemma compiled_patterns_are_normalized_witness :
  Routing.normalize "/shop/cart/view" = "/shop/cart/view"
  /\ ("/shop/cart/view" = "/" \/ forall t, "/shop/cart/view" <> t +:+ "/").
Proof.
  apply (proj2 (compiled_patterns_are_normalized Scenario.shop_root
                  Scenario.shop_table compiled_shop_table)
           "get" Scenario.shop_get_routes
           (Routing.mkRule "/shop/cart/view" Scenario.Y "view")).
  - reflexivity.
  - left. reflexivity.
Defined.

Lemma on_error_gathers_entries_witness :
  Escalation.on_error Scenario.shop_subglobals 1000 Scenario.cart_instance 500
  = Ok {| Escalation.by_handler :=
            {| Escalation.__class__ := "Main";
               Escalation.items :=
                 Lifecycle.gathered Scenario.shop_subglobals
                   (Escalation.items Scenario.cart_instance) ["Shop"; "Main"] |};
          Escalation.status_code := 500 |}.
Proof.
  apply (on_error_gathers_entries Scenario.shop_subglobals Scenario.cart_instance
           "Shop" "Main" ["Main"] 1000 500).
  - reflexivity.
  - discriminate.
  - eapply Lifecycle.via_step; [reflexivity | discriminate |].
    apply Lifecycle.via_end. reflexivity.
  - cbn. lia.
Defined.

Lemma on_error_in_a_loop_overflows_witness :
  Escalation.on_error Examples.ring_subglobals 50 Examples.ring_instance 500
  = Raise (RuntimeError "maximum recursion depth exceeded").
Proof.
  apply (on_error_in_a_loop_overflows Examples.ring_subglobals Examples.in_ring
           Examples.ring_instance "B" 50 500).
  - intros c [->| ->].
    + exists "B". split; [reflexivity|]. split; [discriminate|now right].
    + exists "A". split; [reflexivity|]. split; [discriminate|now left].
  - reflexivity.
  - discriminate.
  - now right.
Defined.

Lemma on_error_passes_status_on_witness :
  exists r,
    Escalation.on_error Scenario.shop_subglobals 1000 Scenario.cart_instance 500
    = Ok r
    /\ Escalation.status_code r = 500
    /\ Escalation.on_error Scenario.shop_subglobals 2000 Scenario.cart_instance 404
       = Ok {| Escalation.by_handler := Escalation.by_handler r;
               Escalation.status_code := 404 |}.
Proof.
  destruct (Escalation.on_error Scenario.shop_subglobals 1000
              Scenario.cart_instance 500) as [r|e] eqn:Hrun.
  - exists r. split; [reflexivity|].
    destruct (on_error_passes_status_on Scenario.shop_subglobals
                Scenario.cart_instance 1000 500 r Hrun) as [Hstatus Hmore].
    split; [exact Hstatus|]. apply Hmore. lia.
  - vm_compute in Hrun. discriminate.
Defined.

Lemma send_error_in_production_witness :
  exists r,
    Lifecycle.send_error false Scenario.shop_subglobals Examples.render_name
      Examples.error_page 1000 Examples.cart_handler 404 Lifecycle.ExcOther
    = Lifecycle.ErrorPage true (Ok r)
    /\ Escalation.status_code r = 500.
Proof.
  destruct (Escalation.on_error Scenario.shop_subglobals 1000
              (Lifecycle.self Examples.cart_handler) 404) as [r|e] eqn:Hrun.
  - exists {| Escalation.by_handler := Escalation.by_handler r;
              Escalation.status_code := 500 |}.
    split; [|reflexivity].
    apply (send_error_in_production Scenario.shop_subglobals Examples.render_name
             Examples.error_page Examples.cart_handler 1000 404 r eq_refl Hrun).
  - vm_compute in Hrun. discriminate.
Defined.

Lemma send_error_in_debug_mode_stays_witness :
  Lifecycle.send_error true Scenario.shop_subglobals Examples.render_name
    Examples.error_page 1000 Examples.cart_handler 404 Lifecycle.ExcOther
  = Lifecycle.DebugPage
      (Ok {| Lifecycle.self := Scenario.cart_instance;
             Lifecycle._finished := true;
             Lifecycle.template := Some "cart.html";
             Lifecycle.written := ["<html>error</html>"] |}).
Proof.
  apply (send_error_in_debug_mode_stays Scenario.shop_subglobals
           Examples.render_name Examples.error_page Examples.cart_handler 1000 404).
  - reflexivity.
  - discriminate.
Defined.

Lemma finish_clears_the_handler_witness :
  exists h',
    Lifecycle.finish false Examples.render_name Examples.cart_handler None None
    = Ok h'
    /\ Escalation.items (Lifecycle.self h') = ∅
    /\ Lifecycle.written h' = ["rendered cart.html"]
    /\ Lifecycle.send_error false Scenario.shop_subglobals Examples.render_name
         Examples.error_page 1000 h' 500 Lifecycle.ExcOther
       = Lifecycle.OnlyLogged.
Proof.
  destruct (finish_clears_the_handler Scenario.shop_subglobals
              Examples.render_name Examples.error_page Examples.cart_handler
              None None eq_refl)
    as (h' & Hfinish & Hitems & _ & Hwritten & Hlogged & _).
  exists h'. split; [exact Hfinish|]. split; [exact Hitems|].
  split; [|apply Hlogged].
  apply (Hwritten "cart.html"); [reflexivity | discriminate | reflexivity].
Defined.

Lemma failed_future_prevents_target_witness :
  exists final,
    Execute.run (Execute.dispatch Examples.failing_preprocessors ∅)
      [Execute.Resolved 2; Execute.Resolved 1; Execute.Resolved 0; Execute.Raised]
      (Execute.Thrown (HTTPError 403) final).
Proof.
  destruct (failed_future_prevents_target Examples.failing_preprocessors ∅
              1 Examples.denied_future (HTTPError 403)) as (_ & _ & Hlive).
  - reflexivity.
  - reflexivity.
  - intros j g Hj Hg. destruct j as [|j]; [|lia].
    inversion Hg. reflexivity.
  - apply (Hlive [2; 1; 0]).
    change (seq 0 (length _)) with [0; 1; 2].
    symmetry. apply (Permutation_rev [0; 1; 2]).
Defined.

Lemma get_closest_ignores_quality_witness :
  I18n.get_closest string Examples.german "en" ["de;q=0.8"]
  = I18n.get_closest string Examples.german "en" ["de"].
Proof.
  apply (get_closest_ignores_quality string Examples.german "en" "de" "q=0.8" []).
  - discriminate.
  - reflexivity.
Defined.

Lemma get_closest_finds_listed_language_witness :
  I18n.get_closest string Examples.german "en" ["DE-at;q=0.8"; "en"] = "de".
Proof.
  etransitivity.
  - apply (get_closest_finds_listed_language string Examples.load_name ["de_DE"]
             Examples.german "en" "DE" "at" "q=0.8" "DE" ["en"]).
    + reflexivity.
    + repeat split.
    + repeat split.
    + left. reflexivity.
  - reflexivity.
Defined.

Lemma only_the_first_accepted_language_counts_witness :
  (I18n.choose_language Examples.german "en" "fr, de").1.1 = "en".
Proof.
  etransitivity.
  - apply (only_the_first_accepted_language_counts string Examples.german
             "en" "fr" ["de"]).
    + intros k [v Hk]. unfold Examples.german in Hk.
      apply lookup_insert_Some in Hk as [[<- _]|[_ Hk]]; [reflexivity|].
      apply lookup_insert_Some in Hk as [[<- _]|[_ Hk]]; [reflexivity|].
      rewrite lookup_empty in Hk. discriminate.
    + reflexivity.
    + repeat constructor.
  - reflexivity.
Defined.

Lemma module_name_leads_back_to_module_witness :
  Meta._module_name None "shop.www" +:+ ".www" = "shop.www".
Proof.
  apply (proj1 (module_name_leads_back_to_module string unit
                  Examples.import_named Examples.import_named
                  Examples.getattr_named "shop.www" true
                  Examples.empty_registry eq_refl)).
Defined.

Lemma shop_classes_distinct : NoDup (Subglobals.classes Scenario.shop_root).
Proof.
  apply NoDup_ListNoDup. repeat constructor; cbn; intuition discriminate.
Qed.

Lemma shop_store_compiled :
  Subglobals.generate_routing Examples.no_bases Scenario.shop_root ∅
  = (Examples.shop_store, Ok Scenario.shop_table).
Proof. vm_compute. reflexivity. Qed.

Lemma shop_own_attributes :
  Subglobals.own_attributes Examples.no_bases ∅ Scenario.shop_root.
Proof. intros c b _ []. Qed.

Lemma generate_routing_records_mount_tree_witness :
  exists d,
    Subglobals.template_subglobals Examples.no_bases Examples.shop_store "Y" = Some d
    /\ d !! "parent_handler" = Some (Escalation.VClass "Main")
    /\ d !! "root_handler" = Some (Escalation.VClass "Main").
Proof.
  destruct (generate_routing_records_mount_tree Examples.no_bases
              Scenario.shop_root ∅ Examples.shop_store Scenario.shop_table
              shop_store_compiled shop_classes_distinct shop_own_attributes)
    as (_ & _ & Hmounted).
  destruct (Hmounted [] Scenario.shop_root "cart" "/shop/cart" Scenario.Y)
    as (d & Hd & Hparent & Hroot & _).
  - apply Routing.mounted_here.
  - left. reflexivity.
  - exists d. auto.
Defined.

Lemma errors_escalate_to_the_root_witness :
  exists entries,
    Escalation.on_error
      (Subglobals.subglobals_of Examples.no_bases Examples.shop_store) 10
      (Escalation.construct
         (Subglobals.subglobals_of Examples.no_bases Examples.shop_store) "Y")
      404
    = Ok {| Escalation.by_handler :=
              {| Escalation.__class__ := "Main"; Escalation.items := entries |};
            Escalation.status_code := 404 |}.
Proof.
  apply (errors_escalate_to_the_root Examples.no_bases Scenario.shop_root ∅
           Examples.shop_store Scenario.shop_table ["/shop/cart"] Scenario.Y
           (Escalation.construct
              (Subglobals.subglobals_of Examples.no_bases Examples.shop_store) "Y")
           10 404
           shop_store_compiled shop_classes_distinct shop_own_attributes).
  - eapply Routing.mounted_below; [|apply Routing.mounted_here].
    left. reflexivity.
  - reflexivity.
  - vm_compute. reflexivity.
  - cbn. lia.
Defined.

Lemma get_module_caches_witness :
  Registry.get_module string unit Examples.import_fails Examples.getattr_named
    "shop" "www" false Examples.shop_registry
  = (Examples.shop_registry, Registry.Returned "shop.www").
Proof.
  apply (proj2 (proj2 (get_module_caches string unit
                         Examples.import_named Examples.import_fails
                         Examples.getattr_named Examples.getattr_named
                         "shop" "www" true
                         Examples.empty_registry Examples.shop_registry
                         (Registry.Returned "shop.www") eq_refl))
           "shop.www" eq_refl false).
Defined.

Lemma stacked_decorators_keep_the_outermost_witness :
  exists f',
    Decorators.decorate [Decorators.post "/b"; Decorators.get "/a"] ∅ = Some f'
    /\ @Decorators.as_member unit f' = Routing.Routed "/a" (Some "get").
Proof.
  apply (stacked_decorators_keep_the_outermost [Decorators.post "/b"]
           "get" "/a" ∅ unit).
  - constructor; [|constructor]. exists "post", "/b". reflexivity.
  - reflexivity.
Defined.

Lemma static_url_round_trip_witness :
  Dispatch.Application_call unit false Scenario.cart_routes Scenario.literal_match
    (fun s => s) Examples.only_d Examples.only_d []
    (Dispatch.Request "/static/d/logo.png" "/static/d/logo.png" "GET")
  = Ok (Dispatch.StaticFile "d"
          (Dispatch.Request "/static/d/logo.png" "logo.png" "GET"))
  /\ exists response,
      Static.StaticFileHandler_get Scenario.only_d_has_logo Examples.no_mime
        Scenario.D "logo.png"
      = (response, Ok tt)
      /\ Static.body response <> ""
      /\ "PNG-of-d" = Scenario.content_as_digest (Static.body response).
Proof.
  exact (proj2 (static_url_round_trip Scenario.only_d_has_logo Examples.main_of_d
                  Scenario.content_as_digest Examples.no_mime unit false
                  Scenario.cart_routes Scenario.literal_match (fun s => s)
                  Examples.only_d Examples.only_d []
                  Scenario.D "logo.png"
                  (StaticObject.create "d" "logo.png" (Some "PNG-of-d"))
                  "/static/d/logo.png" "GET"
                  eq_refl eq_refl eq_refl eq_refl
                  ltac:(discriminate) eq_refl ltac:(discriminate)
                  eq_refl eq_refl eq_refl eq_refl eq_refl)).
Defined.
